(** * Satellite tracker: orbital visibility, pass prediction and catalog filter

    A shallow embedding of the computational core of
    [src/components/SatelliteTracker.jsx] and
    [src/services/spaceTrackService.js], with theorems about it.

    Conventions of the embedding.
    - Instants ([Date] time values) are integers: milliseconds since
      1970-01-01T00:00:00Z.  An invalid [Date] is [None].
    - A JavaScript number that can be non-finite is a [jsnum]; once the
      code has checked [isFinite], arithmetic is carried out on the real
      number it denotes.  Rounding and overflow of IEEE doubles are not
      modelled: [Math.cos], [Math.sqrt], ... are the real functions.
    - Strings are sequences of 8-bit characters and stand for
      JavaScript strings of ASCII characters, as TLE lines are.
      [toUpperCase] and [toLowerCase] are the JavaScript functions on
      such strings only (outside ASCII the JavaScript functions can
      change other letters and the length); statements about letter
      case assume [isAscii].
    - Decimal numbers read from text ([parseFloat]) are rationals.
    - Exceptions are explicit: a computation that can throw returns an
      [Outcome].
    - [console.warn]/[console.error] calls are recorded in a log.
    - [satellite.js] is an external library; its entry points are the
      fields of the class [SatelliteJs], and the theorems hold for every
      instance.
    - [predictPasses] is modelled for a whole number of hours and
      [calculateGroundTrack] for a positive whole step, as they are
      called. *)

From Stdlib Require Import ZArith QArith Qround Reals Lra Lia List Bool String Ascii.
From Stdlib Require Import Sorting.Sorted DecimalString.
From Stdlib Require Lqa.
Import ListNotations.

Local Open Scope Z_scope.

(** ** JavaScript numbers *)

Module JsNum.

Inductive jsnum : Type :=
| Fin (r : R)
| NaN
| PosInf
| NegInf.

(** The global [isFinite] on a number. *)
Definition isFinite (x : jsnum) : bool :=
  match x with
  | Fin _ => true
  | _ => false
  end.

(** The real denoted by a number that has passed [isFinite]. *)
Definition realOf (x : jsnum) : R :=
  match x with
  | Fin r => r
  | _ => 0%R
  end.

Definition Rltb (a b : R) : bool := if Rlt_dec a b then true else false.
Definition Rgtb (a b : R) : bool := Rltb b a.

(** Truncation toward zero, as in the remainder operator. *)
Definition Rtrunc (x : R) : Z :=
  if Rle_dec 0 x then Int_part x else (- Int_part (- x))%Z.

(** The [%] operator on finite numbers with a non-zero divisor:
    the result has the sign of the dividend. *)
Definition jsmod (x y : R) : R := (x - y * IZR (Rtrunc (x / y)))%R.

(** [Math.atan2(y, x)] on finite numbers (zeros are unsigned here). *)
Definition atan2 (y x : R) : R :=
  if Rlt_dec 0 x then atan (y / x)
  else if Rlt_dec x 0 then
         if Rle_dec 0 y then (atan (y / x) + PI)%R else (atan (y / x) - PI)%R
       else if Rlt_dec 0 y then (PI / 2)%R
            else if Rlt_dec y 0 then (- (PI / 2))%R
                 else 0%R.

End JsNum.
Import JsNum.

(** ** Exceptions *)

Inductive Outcome (A : Type) : Type :=
| Ret (a : A)
| Throw.
Arguments Ret {A} a.
Arguments Throw {A}.

Definition bindO {A B : Type} (m : Outcome A) (k : A -> Outcome B) : Outcome B :=
  match m with
  | Ret a => k a
  | Throw => Throw
  end.

Notation "x <- m ;; k" := (bindO m (fun x => k))
  (at level 61, m at next level, right associativity).

(** ** Visibility engine *)

Record GeodeticPosition : Type := mkGeo {
  latitude : jsnum;
  longitude : jsnum;
  altitude : jsnum
}.

Record VisibilityResult : Type := mkVis {
  range : R;
  elevation : R;
  azimuth : R;
  isVisible : bool
}.

Definition earthRadius : R := 6371%R.

Definition invalidVisibility : VisibilityResult :=
  {| range := 0; elevation := (-90)%R; azimuth := 0; isVisible := false |}.

(** Earth-centred Cartesian coordinates of a point at geodetic latitude
    and longitude (degrees) and distance [rad] from the centre. *)
Definition ecefX (rad lat lon : R) : R :=
  (rad * cos (lat * PI / 180) * cos (lon * PI / 180))%R.
Definition ecefY (rad lat lon : R) : R :=
  (rad * cos (lat * PI / 180) * sin (lon * PI / 180))%R.
Definition ecefZ (rad lat : R) : R :=
  (rad * sin (lat * PI / 180))%R.

(** [calculateVisibility(satPos, observerLat, observerLon, observerAlt)].
    [satPos = None] is a missing position object. *)
Definition calculateVisibility (satPos : option GeodeticPosition)
    (observerLat observerLon : jsnum) (observerAlt : R) : VisibilityResult :=
  match satPos with
  | None => invalidVisibility
  | Some sp =>
    if negb (isFinite (latitude sp)) || negb (isFinite (longitude sp))
       || negb (isFinite (altitude sp))
    then invalidVisibility
    else if negb (isFinite observerLat) || negb (isFinite observerLon)
    then invalidVisibility
    else
      let oLat := realOf observerLat in
      let oLon := realOf observerLon in
      let obsR := (earthRadius + observerAlt / 1000)%R in
      let obsX := ecefX obsR oLat oLon in
      let obsY := ecefY obsR oLat oLon in
      let obsZ := ecefZ obsR oLat in
      let sLat := realOf (latitude sp) in
      let sLon := realOf (longitude sp) in
      let satRadius := (earthRadius + realOf (altitude sp))%R in
      let satX := ecefX satRadius sLat sLon in
      let satY := ecefY satRadius sLat sLon in
      let satZ := ecefZ satRadius sLat in
      let dx := (satX - obsX)%R in
      let dy := (satY - obsY)%R in
      let dz := (satZ - obsZ)%R in
      let rng := sqrt (dx * dx + dy * dy + dz * dz) in
      let rangeHorizontal := sqrt (dx * dx + dy * dy) in
      let elev := (atan2 dz rangeHorizontal * 180 / PI)%R in
      let az := jsmod (atan2 dy dx * 180 / PI + 360) 360 in
      {| range := rng; elevation := elev; azimuth := az;
         isVisible := Rgtb elev 0 |}
  end.

(** Elevation and azimuth as the visibility contract words them: the
    observer-to-satellite vector resolved in the observer's local
    east/north/up frame. *)
Module LocalFrame.

Definition up (oLat oLon dx dy dz : R) : R :=
  (dx * (cos (oLat * PI / 180) * cos (oLon * PI / 180))
   + dy * (cos (oLat * PI / 180) * sin (oLon * PI / 180))
   + dz * sin (oLat * PI / 180))%R.

Definition east (oLon dx dy : R) : R :=
  (- dx * sin (oLon * PI / 180) + dy * cos (oLon * PI / 180))%R.

Definition north (oLat oLon dx dy dz : R) : R :=
  (- dx * (sin (oLat * PI / 180) * cos (oLon * PI / 180))
   - dy * (sin (oLat * PI / 180) * sin (oLon * PI / 180))
   + dz * cos (oLat * PI / 180))%R.

Definition elevationDeg (oLat oLon dx dy dz : R) : R :=
  let e := east oLon dx dy in
  let n := north oLat oLon dx dy dz in
  (atan2 (up oLat oLon dx dy dz) (sqrt (e * e + n * n)) * 180 / PI)%R.

Definition azimuthDeg (oLat oLon dx dy dz : R) : R :=
  jsmod (atan2 (east oLon dx dy) (north oLat oLon dx dy dz) * 180 / PI + 360) 360.

End LocalFrame.

(** ** Strings: the [String.prototype] and global functions the code uses *)

Module JsString.

(** White space recognised by [trim], [parseInt] and [parseFloat]
    (the characters below code 256). *)
Definition isWhiteSpace (c : ascii) : bool :=
  let n := nat_of_ascii c in
  ((9 <=? n)%nat && (n <=? 13)%nat) || (n =? 32)%nat || (n =? 160)%nat.

Fixpoint trimStart (s : string) : string :=
  match s with
  | String c s' => if isWhiteSpace c then trimStart s' else s
  | EmptyString => EmptyString
  end.

Fixpoint rev (s : string) : string :=
  match s with
  | EmptyString => EmptyString
  | String c s' => (rev s' ++ String c EmptyString)%string
  end.

Definition trim (s : string) : string := rev (trimStart (rev (trimStart s))).

(** [s.substring(a, b)]: indices are clamped to the string and swapped
    when [a > b]. *)
Definition substring (a b : nat) (s : string) : string :=
  String.substring (Nat.min a b) (Nat.max a b - Nat.min a b) s.

(** [s.substring(a)]. *)
Definition substringFrom (a : nat) (s : string) : string :=
  String.substring a (String.length s - a) s.

(** Value of a digit in a radix up to 16. *)
Definition digitValue (radix : Z) (c : ascii) : option Z :=
  let n := Z.of_nat (nat_of_ascii c) in
  let v := if (48 <=? n) && (n <=? 57) then n - 48
           else if (97 <=? n) && (n <=? 102) then n - 87
           else if (65 <=? n) && (n <=? 70) then n - 55
           else 16 in
  if v <? radix then Some v else None.

(** Longest prefix of digits: their values, most significant first, and
    the rest of the string. *)
Fixpoint spanDigits (radix : Z) (s : string) : list Z * string :=
  match s with
  | String c s' =>
      match digitValue radix c with
      | Some v => let (ds, r) := spanDigits radix s' in (v :: ds, r)
      | None => ([], s)
      end
  | EmptyString => ([], EmptyString)
  end.

Definition digitsValue (radix : Z) (ds : list Z) : Z :=
  fold_left (fun acc d => acc * radix + d) ds 0.

(** An optional leading sign: [true] for a minus sign, and the rest. *)
Definition spanSign (s : string) : bool * string :=
  match s with
  | String "-"%char s' => (true, s')
  | String "+"%char s' => (false, s')
  | _ => (false, s)
  end.

(** [parseInt(s)] without a radix argument; [None] is [NaN]. *)
Definition parseInt (s : string) : option Z :=
  let (neg, s1) := spanSign (trimStart s) in
  let (radix, s2) :=
    match s1 with
    | String "0"%char (String "x"%char r) => (16, r)
    | String "0"%char (String "X"%char r) => (16, r)
    | _ => (10, s1)
    end in
  match spanDigits radix s2 with
  | ([], _) => None
  | (ds, _) => Some (if neg then - digitsValue radix ds else digitsValue radix ds)
  end.

(** A number read from decimal text: an exact rational, or one of the
    non-finite values. *)
Inductive decnum : Type :=
| DFin (q : Q)
| DNaN
| DInf (negative : bool).

Definition pow10 (n : nat) : Z := 10 ^ Z.of_nat n.

(** The exponent part [e], [e+] or [e-] followed by digits, when present. *)
Definition spanExponent (s : string) : Z :=
  match s with
  | String c s' =>
      if Ascii.eqb c "e"%char || Ascii.eqb c "E"%char then
        let (neg, s2) := spanSign s' in
        match spanDigits 10 s2 with
        | ([], _) => 0
        | (ds, _) => if neg then - digitsValue 10 ds else digitsValue 10 ds
        end
      else 0
  | EmptyString => 0
  end.

Definition startsWithInfinity (s : string) : bool :=
  String.eqb (String.substring 0 8 s) "Infinity".

(** [parseFloat(s)]: the longest prefix that is a decimal literal. *)
Definition parseFloat (s : string) : decnum :=
  let (neg, s1) := spanSign (trimStart s) in
  if startsWithInfinity s1 then DInf neg
  else
    let (ids, s2) := spanDigits 10 s1 in
    let (fds, s3) :=
      match s2 with
      | String "."%char r => spanDigits 10 r
      | _ => ([], s2)
      end in
    match ids, fds with
    | [], [] => DNaN
    | _, _ =>
        let mant := (digitsValue 10 ids * pow10 (List.length fds)
                     + digitsValue 10 fds) # Z.to_pos (pow10 (List.length fds)) in
        let e := spanExponent s3 in
        let v := (mant * Qpower (10 # 1) e)%Q in
        DFin (if neg then Qopp v else v)
    end.

(** [a + b] and [a - b] on such numbers. *)
Definition decAdd (a b : decnum) : decnum :=
  match a, b with
  | DNaN, _ | _, DNaN => DNaN
  | DFin x, DFin y => DFin (x + y)%Q
  | DInf s, DFin _ | DFin _, DInf s => DInf s
  | DInf s, DInf s' => if Bool.eqb s s' then DInf s else DNaN
  end.

Definition decNeg (a : decnum) : decnum :=
  match a with
  | DFin x => DFin (- x)%Q
  | DNaN => DNaN
  | DInf s => DInf (negb s)
  end.

Definition decSub (a b : decnum) : decnum := decAdd a (decNeg b).

Definition decOfZ (o : option Z) : decnum :=
  match o with
  | Some z => DFin (inject_Z z)
  | None => DNaN
  end.

(** Truncation toward zero ([ToIntegerOrInfinity] on a finite value). *)
Definition Qtrunc (q : Q) : Z :=
  if Qle_bool 0 q then Qfloor q else Qceiling q.

(** The strings on which the functions on letter case below are the
    JavaScript ones: those of ASCII characters (codes below 128). *)
Definition isAsciiChar (c : ascii) : bool := (nat_of_ascii c <? 128)%nat.

Fixpoint isAscii (s : string) : bool :=
  match s with
  | EmptyString => true
  | String c s' => isAsciiChar c && isAscii s'
  end.

(** [s.toUpperCase()] for a string [s] of ASCII characters: the letters
    a to z become A to Z and nothing else changes.  For other strings
    [String.prototype.toUpperCase] is not this function (it follows the
    Unicode case mappings, under which U+00DF becomes "SS"). *)
Definition upperChar (c : ascii) : ascii :=
  let n := nat_of_ascii c in
  if ((97 <=? n)%nat && (n <=? 122)%nat) then ascii_of_nat (n - 32) else c.

Fixpoint toUpperCase (s : string) : string :=
  match s with
  | EmptyString => EmptyString
  | String c s' => String (upperChar c) (toUpperCase s')
  end.

(** [s.includes(t)]. *)
Fixpoint includes (t s : string) : bool :=
  String.prefix t s ||
  match s with
  | EmptyString => false
  | String _ s' => includes t s'
  end.

(** A value used as a condition: missing and empty strings are falsy. *)
Definition truthy (o : option string) : bool :=
  match o with
  | None => false
  | Some EmptyString => false
  | Some _ => true
  end.

Definition lengthIs (o : option string) (n : nat) : bool :=
  match o with
  | Some s => (String.length s =? n)%nat
  | None => false
  end.

End JsString.

(** ** Dates: the time-value arithmetic behind [Date]

    The local time zone is a constant offset [tz] in milliseconds
    (local time = UTC + [tz]); daylight-saving changes are not modelled. *)

Module JsDate.

Definition msPerDay : Z := 86400000.

Definition Day (t : Z) : Z := t / msPerDay.
Definition TimeWithinDay (t : Z) : Z := t mod msPerDay.

Definition DayFromYear (y : Z) : Z :=
  365 * (y - 1970) + (y - 1969) / 4 - (y - 1901) / 100 + (y - 1601) / 400.

Definition TimeFromYear (y : Z) : Z := msPerDay * DayFromYear y.

Definition InLeapYear (y : Z) : Z :=
  if negb (y mod 4 =? 0) then 0
  else if negb (y mod 100 =? 0) then 1
  else if negb (y mod 400 =? 0) then 0
  else 1.

(** The year whose first instant is the latest one not after [t]. *)
Definition YearFromTime (t : Z) : Z :=
  let d := Day t in
  let y := 1970 + d * 400 / 146097 in
  if DayFromYear (y + 1) <=? d then y + 1
  else if DayFromYear y <=? d then y
  else y - 1.

Definition DayWithinYear (t : Z) : Z := Day t - DayFromYear (YearFromTime t).

(** Day number, within a year, of the first day of month [m] (0-11). *)
Definition monthStart (leap m : Z) : Z :=
  match m with
  | 0 => 0
  | 1 => 31
  | 2 => 59 + leap
  | 3 => 90 + leap
  | 4 => 120 + leap
  | 5 => 151 + leap
  | 6 => 181 + leap
  | 7 => 212 + leap
  | 8 => 243 + leap
  | 9 => 273 + leap
  | 10 => 304 + leap
  | 11 => 334 + leap
  | _ => 365 + leap
  end.

Definition MonthFromTime (t : Z) : Z :=
  let leap := InLeapYear (YearFromTime t) in
  let d := DayWithinYear t in
  let fix go (n : nat) (m : Z) : Z :=
    match n with
    | O => m
    | S n' => if monthStart leap (m + 1) <=? d then go n' (m + 1) else m
    end in
  go 11%nat 0.

Definition DateFromTime (t : Z) : Z :=
  DayWithinYear t - monthStart (InLeapYear (YearFromTime t)) (MonthFromTime t) + 1.

Definition MakeDay (year month date : Z) : Z :=
  let ym := year + month / 12 in
  let mn := month mod 12 in
  DayFromYear ym + monthStart (InLeapYear ym) mn + date - 1.

Definition MakeDate (day time : Z) : Z := day * msPerDay + time.

(** [None] is the time value [NaN] of an invalid date. *)
Definition TimeClip (t : Z) : option Z :=
  if Z.abs t <=? 8640000000000000 then Some t else None.

Definition LocalTime (tz t : Z) : Z := t + tz.
Definition UTC (tz t : Z) : Z := t - tz.

(** [new Date(year, month, date)]: midnight, local time. *)
Definition newDate (tz : Z) (year : option Z) (month date : Z) : option Z :=
  match year with
  | None => None
  | Some y =>
      let yr := if (0 <=? y) && (y <=? 99) then 1900 + y else y in
      TimeClip (UTC tz (MakeDate (MakeDay yr month date) 0))
  end.

(** [d.getDate()]: the day of the month, local time. *)
Definition getDate (tz : Z) (d : option Z) : option Z :=
  match d with
  | Some t => Some (DateFromTime (LocalTime tz t))
  | None => None
  end.

(** [d.setDate(date)]: the day of the month is replaced by the integer
    part of [date]; year, month and time within the day are kept. *)
Definition setDate (tz : Z) (d : option Z) (date : JsString.decnum) : option Z :=
  match d, date with
  | Some u, JsString.DFin q =>
      let t := LocalTime tz u in
      let dt := JsString.Qtrunc q in
      TimeClip (UTC tz (MakeDate (MakeDay (YearFromTime t) (MonthFromTime t) dt)
                                 (TimeWithinDay t)))
  | _, _ => None
  end.

End JsDate.

(** The first instant of each year a TLE can name is the first of January
    of that year in the date model, and is far inside the range of valid
    time values. *)
Definition yearStartOk (y : Z) : bool :=
  let t := JsDate.TimeFromYear y in
  (JsDate.YearFromTime t =? y) && (JsDate.MonthFromTime t =? 0)
  && (JsDate.DateFromTime t =? 1) && (JsDate.TimeWithinDay t =? 0)
  && (Z.abs t <=? 3000000000000).

(** Local midnight of 1 January 2024 and of 14 February 2024, as local
    time values. *)
Definition jan1_2024 : Z := 1704067200000.
Definition feb14_2024 : Z := 1707868800000.

(** ** TLE epoch *)

(** The two-digit year pivot of [parseTLEEpoch]. *)
Definition fullYearOf (year : option Z) : option Z :=
  match year with
  | Some y => Some (if y <? 57 then 2000 + y else 1900 + y)
  | None => None
  end.

(** [parseTLEEpoch(tle1)] in a time zone [tz]: the time value of the
    returned [Date]. *)
Definition parseTLEEpoch (tz : Z) (tle1 : string) : option Z :=
  let epochStr := JsString.trim (JsString.substring 18 32 tle1) in
  let year := JsString.parseInt (JsString.substring 0 2 epochStr) in
  let fullYear := fullYearOf year in
  let dayOfYear := JsString.parseFloat (JsString.substringFrom 2 epochStr) in
  let epoch := JsDate.newDate tz fullYear 0 1 in
  JsDate.setDate tz epoch
    (JsString.decSub
       (JsString.decAdd (JsString.decOfZ (JsDate.getDate tz epoch)) dayOfYear)
       (JsString.DFin 1)).

(** The instant an epoch field encodes, in milliseconds since 1970 UTC:
    day [dayOfYear] of the year, counted from 1, with its fraction. *)
Definition encodedEpoch (fullYear : Z) (dayOfYear : Q) : Q :=
  (inject_Z (JsDate.TimeFromYear fullYear)
   + (dayOfYear - 1) * inject_Z JsDate.msPerDay)%Q.

(** ** The [satellite.js] interface *)

Module Satellite.

(** The geodetic record of [eciToGeodetic]: angles in radians. *)
Module Geodetic.
Record t : Type := make {
  latitude : jsnum;
  longitude : jsnum;
  height : jsnum
}.
End Geodetic.

(** The [position] property of a propagation result: falsy, or an object
    whose [error] property is truthy or not. *)
Inductive PositionField (eci : Type) : Type :=
| PosFalsy
| PosObject (p : eci) (error : bool).
Arguments PosFalsy {eci}.
Arguments PosObject {eci} p error.

(** A propagation result: [null], or an object with a [position]. *)
Inductive PosVel (eci : Type) : Type :=
| PVNull
| PV (position : PositionField eci).
Arguments PVNull {eci}.
Arguments PV {eci} position.

Class SatelliteJs : Type := {
  satrec : Type;
  eci : Type;
  twoline2satrec : string -> string -> Outcome satrec;
  satrecError : satrec -> bool;
  propagate : satrec -> Z -> Outcome (PosVel eci);
  gstime : Z -> jsnum;
  eciToGeodetic : eci -> jsnum -> Geodetic.t;
  degreesLat : jsnum -> Outcome jsnum;
  degreesLong : jsnum -> Outcome jsnum
}.

(** [posVel.position && !posVel.position.error] *)
Definition positionOk {eci : Type} (f : PositionField eci) : option eci :=
  match f with
  | PosObject p false => Some p
  | _ => None
  end.

End Satellite.
Import Satellite.

(** ** Records of the tracker *)

(** A tracked object as [parseSpaceTrackData] builds it.  A TLE line can
    be missing. *)
Record Sat : Type := mkSat {
  id : option Z;
  name : string;
  tle1 : option string;
  tle2 : option string;
  epoch : option string;
  objectType : option string;
  category : string
}.

(** A ground-track point: a position and its instant. *)
Record GroundTrackPoint : Type := mkPoint {
  pointPosition : GeodeticPosition;
  time : Z
}.

(** An entry of the worker's [positions] array. *)
Record SatPosition : Type := mkSatPosition {
  posId : option Z;
  posName : string;
  posGeo : GeodeticPosition
}.

(** A pass; the three last fields are set when the pass is closed. *)
Record Pass : Type := mkPass {
  startTime : Z;
  maxElevation : R;
  maxElevationTime : Z;
  startAzimuth : R;
  endTime : option Z;
  endAzimuth : option R;
  duration : option R
}.

(** The variables of the scan of [predictPasses]. *)
Record ScanState : Type := mkScan {
  passes : list Pass;
  inPass : bool;
  currentPass : option Pass
}.

(** What a run leaves behind besides its result: console output and the
    calls made to the library.  [msg] is the text the call prints from
    its string arguments; an error object or position passed after the
    text is not recorded. *)
Inductive Event : Type :=
| ConsoleWarn (msg : string)
| ConsoleError (msg : string)
| CallTwoline2satrec (l1 l2 : string)
| CallPropagate (t : Z).

Definition allFinite (g : GeodeticPosition) : bool :=
  isFinite (latitude g) && isFinite (longitude g) && isFinite (altitude g).

(** [!sat.tle1 || !sat.tle2 || sat.tle1.length !== 69 || sat.tle2.length !== 69] *)
Definition tleInvalid (l1 l2 : option string) : bool :=
  negb (JsString.truthy l1) || negb (JsString.truthy l2)
  || negb (JsString.lengthIs l1 69) || negb (JsString.lengthIs l2 69).

Section Tracker.

Context {lib : SatelliteJs}.

(** The conversion every producer applies to a propagated position:
    [gstime], [eciToGeodetic], [degreesLat], [degreesLong], [height]. *)
Definition geodeticOf (p : eci) (t : Z) : Outcome GeodeticPosition :=
  let gmst := gstime t in
  let geoPos := eciToGeodetic p gmst in
  lat <- degreesLat (Geodetic.latitude geoPos) ;;
  lon <- degreesLong (Geodetic.longitude geoPos) ;;
  Ret {| latitude := lat; longitude := lon; altitude := Geodetic.height geoPos |}.

(** *** Ground track *)

(** One iteration of [calculateGroundTrack] at minute offset [i]. *)
Definition groundTrackSample (rec : satrec) (start i : Z)
    (points : list GroundTrackPoint) : Outcome (list GroundTrackPoint) :=
  let t := start + i * 60000 in
  posVel <- propagate rec t ;;
  match posVel with
  | PVNull => Throw
  | PV f =>
      match positionOk f with
      | None => Ret points
      | Some p =>
          g <- geodeticOf p t ;;
          if allFinite g
          then Ret (points ++ [{| pointPosition := g; time := t |}])
          else Ret points
      end
  end.

Fixpoint groundTrackLoop (rec : satrec) (start : Z) (offsets : list Z)
    (points : list GroundTrackPoint) : Outcome (list GroundTrackPoint) :=
  match offsets with
  | [] => Ret points
  | i :: rest =>
      points' <- groundTrackSample rec start i points ;;
      groundTrackLoop rec start rest points'
  end.

(** The values [0, step, 2 step, ...] below [durationMinutes]. *)
Definition trackOffsets (durationMinutes : Z) (step : positive) : list Z :=
  map (fun k => Z.of_nat k * Z.pos step)
      (seq 0 (Z.to_nat ((durationMinutes + Z.pos step - 1) / Z.pos step))).

(** [calculateGroundTrack(satrec, startTime, durationMinutes, step)];
    the step is positive. *)
Definition calculateGroundTrack (rec : satrec) (start durationMinutes : Z)
    (step : positive) : Outcome (list GroundTrackPoint) :=
  groundTrackLoop rec start (trackOffsets durationMinutes step) [].

(** *** Pass prediction *)

(** The part of an iteration of [predictPasses] that produces the
    visibility of the sample at [t]; [None] when the sample is skipped. *)
Definition passSample (rec : satrec) (observerLat observerLon : jsnum) (t : Z)
    : Outcome (option VisibilityResult) :=
  posVel <- propagate rec t ;;
  match posVel with
  | PVNull => Throw
  | PV f =>
      match positionOk f with
      | None => Ret None
      | Some p =>
          g <- geodeticOf p t ;;
          if negb (isFinite (latitude g)) || negb (isFinite (longitude g))
             || negb (isFinite (altitude g))
          then Ret None
          else Ret (Some (calculateVisibility (Some g) observerLat observerLon 0))
      end
  end.

Definition openPass (t : Z) (visibility : VisibilityResult) : Pass :=
  {| startTime := t;
     maxElevation := elevation visibility;
     maxElevationTime := t;
     startAzimuth := azimuth visibility;
     endTime := None; endAzimuth := None; duration := None |}.

Definition raiseMax (t : Z) (visibility : VisibilityResult) (p : Pass) : Pass :=
  {| startTime := startTime p;
     maxElevation := elevation visibility;
     maxElevationTime := t;
     startAzimuth := startAzimuth p;
     endTime := endTime p; endAzimuth := endAzimuth p; duration := duration p |}.

Definition closePass (t : Z) (visibility : VisibilityResult) (p : Pass) : Pass :=
  {| startTime := startTime p;
     maxElevation := maxElevation p;
     maxElevationTime := maxElevationTime p;
     startAzimuth := startAzimuth p;
     endTime := Some t;
     endAzimuth := Some (azimuth visibility);
     duration := Some (IZR (t - startTime p) / 60000)%R |}.

(** The three tests made on a valid sample, in the order of the code. *)
Definition passStep (minElevation : R) (t : Z) (visibility : VisibilityResult)
    (st : ScanState) : Outcome ScanState :=
  let st1 :=
    if negb (inPass st) && Rgtb (elevation visibility) minElevation
    then {| passes := passes st; inPass := true;
            currentPass := Some (openPass t visibility) |}
    else st in
  st2 <-
    (if inPass st1 then
       match currentPass st1 with
       | None => Throw
       | Some cp =>
           if Rgtb (elevation visibility) (maxElevation cp)
           then Ret {| passes := passes st1; inPass := true;
                       currentPass := Some (raiseMax t visibility cp) |}
           else Ret st1
       end
     else Ret st1) ;;
  if inPass st2 && Rltb (elevation visibility) minElevation then
    match currentPass st2 with
    | None => Throw
    | Some cp =>
        Ret {| passes := passes st2 ++ [closePass t visibility cp];
               inPass := false; currentPass := None |}
    end
  else Ret st2.

Definition sampleTime (scanStart : Z) (i : Z) : Z := scanStart + i * 60000.

Definition scanSample (rec : satrec) (observerLat observerLon : jsnum)
    (scanStart : Z) (minElevation : R) (i : Z) (st : ScanState)
    : Outcome ScanState :=
  let t := sampleTime scanStart i in
  s <- passSample rec observerLat observerLon t ;;
  match s with
  | None => Ret st
  | Some visibility => passStep minElevation t visibility st
  end.

(** [n] iterations of the loop, from index [i]. *)
Fixpoint scanLoop (rec : satrec) (observerLat observerLon : jsnum)
    (scanStart : Z) (minElevation : R) (n : nat) (i : Z) (st : ScanState)
    : Outcome ScanState :=
  match n with
  | O => Ret st
  | S n' =>
      st' <- scanSample rec observerLat observerLon scanStart minElevation i st ;;
      scanLoop rec observerLat observerLon scanStart minElevation n' (i + 1) st'
  end.

Definition initialScan : ScanState :=
  {| passes := []; inPass := false; currentPass := None |}.

(** The state of the scan when the loop of [predictPasses] is left. *)
Definition predictPassesScan (rec : satrec) (observerLat observerLon : jsnum)
    (scanStart : Z) (hours : Z) (minElevation : R) : Outcome ScanState :=
  scanLoop rec observerLat observerLon scanStart minElevation
           (Z.to_nat (hours * 60)) 0 initialScan.

(** [predictPasses(satrec, observerLat, observerLon, startTime, hours,
    minElevation)], for a whole number of hours. *)
Definition predictPasses (rec : satrec) (observerLat observerLon : jsnum)
    (scanStart : Z) (hours : Z) (minElevation : R) : Outcome (list Pass) :=
  st <- predictPassesScan rec observerLat observerLon scanStart hours minElevation ;;
  Ret (passes st).

(** *** The batch worker *)

(** The callback of [satellites.map] in [SatelliteWorker.postMessage]:
    the entry produced for one satellite ([None] for [null]) and what
    the call logged. *)
Definition workerPosition (t : Z) (sat : Sat) : option SatPosition * list Event :=
  if tleInvalid (tle1 sat) (tle2 sat) then
    (None, [ConsoleError ("Invalid TLE data for satellite " ++ name sat)])
  else
    match tle1 sat, tle2 sat with
    | Some l1, Some l2 =>
        let thrown :=
          ConsoleError ("Error propagating satellite " ++ name sat ++ ":") in
        match twoline2satrec l1 l2 with
        | Throw => (None, [CallTwoline2satrec l1 l2; thrown])
        | Ret rec =>
            if satrecError rec then
              (None, [CallTwoline2satrec l1 l2;
                      ConsoleError ("TLE parsing error for satellite " ++ name sat
                                    ++ ":")])
            else
              match propagate rec t with
              | Throw => (None, [CallTwoline2satrec l1 l2; CallPropagate t; thrown])
              | Ret PVNull =>
                  (None, [CallTwoline2satrec l1 l2; CallPropagate t;
                          ConsoleWarn ("Propagation returned null for satellite "
                                       ++ name sat
                                       ++ " - likely decayed or invalid TLE")])
              | Ret (PV f) =>
                  match positionOk f with
                  | None => (None, [CallTwoline2satrec l1 l2; CallPropagate t])
                  | Some p =>
                      match geodeticOf p t with
                      | Throw =>
                          (None, [CallTwoline2satrec l1 l2; CallPropagate t; thrown])
                      | Ret g =>
                          (Some {| posId := id sat; posName := name sat; posGeo := g |},
                           [CallTwoline2satrec l1 l2; CallPropagate t])
                      end
                  end
              end
        end
    | _, _ => (None, [ConsoleError ("Invalid TLE data for satellite " ++ name sat)])
    end.

(** [satellites.map(...).filter(Boolean)] with the concatenated log. *)
Fixpoint workerPositions (t : Z) (satellites : list Sat)
    : list SatPosition * list Event :=
  match satellites with
  | [] => ([], [])
  | sat :: rest =>
      let (r, log) := workerPosition t sat in
      let (rs, logs) := workerPositions t rest in
      (match r with Some p => p :: rs | None => rs end, log ++ logs)
  end.

(** [SatelliteWorker.postMessage({satellites, time})]: the [positions] of
    the message handed to [onmessage], and the log. *)
Definition postMessage (satellites : list Sat) (t : Z)
    : list SatPosition * list Event :=
  workerPositions t satellites.

(** *** Catalog filter *)

(** The age test of [loadSatellites]:
    [(new Date() - tleEpoch) / (1000 * 60 * 60 * 24) > 60]; an invalid
    epoch gives [NaN], which is not greater than 60. *)
Definition tleAgeDays (now : Z) (tleEpoch : option Z) : option Q :=
  match tleEpoch with
  | Some e => Some (inject_Z (now - e) / inject_Z (1000 * 60 * 60 * 24))%Q
  | None => None
  end.

Definition olderThan (days : Q) (age : option Q) : bool :=
  match age with
  | Some a => negb (Qle_bool a days)
  | None => false
  end.

(** The callback of [satelliteData.filter] in [loadSatellites], at the
    instant [now] in time zone [tz]. *)
Definition keepSatellite (tz now : Z) (sat : Sat) : bool * list Event :=
  if tleInvalid (tle1 sat) (tle2 sat) then
    (false, [ConsoleWarn ("Invalid TLE data for satellite " ++ name sat
                         ++ ", skipping.")])
  else
    match tle1 sat, tle2 sat with
    | Some l1, Some l2 =>
        if olderThan 60 (tleAgeDays now (parseTLEEpoch tz l1)) then
          (false, [ConsoleWarn ("TLE for satellite " ++ name sat
                               ++ " is over 60 days old, skipping.")])
        else
          let thrown :=
            ConsoleError ("Error propagating satellite " ++ name sat ++ ":") in
          let failed :=
            ConsoleWarn ("Propagation error for satellite " ++ name sat
                         ++ ", skipping.") in
          match twoline2satrec l1 l2 with
          | Throw => (false, [CallTwoline2satrec l1 l2; thrown])
          | Ret rec =>
              if satrecError rec then
                (false, [CallTwoline2satrec l1 l2;
                         ConsoleWarn ("TLE parsing error for satellite " ++ name sat
                                      ++ ":")])
              else
                match propagate rec now with
                | Throw => (false, [CallTwoline2satrec l1 l2; CallPropagate now; thrown])
                | Ret PVNull =>
                    (false, [CallTwoline2satrec l1 l2; CallPropagate now; failed])
                | Ret (PV f) =>
                    match positionOk f with
                    | None =>
                        (false, [CallTwoline2satrec l1 l2; CallPropagate now; failed])
                    | Some _ => (true, [CallTwoline2satrec l1 l2; CallPropagate now])
                    end
                end
          end
    | _, _ => (false, [ConsoleWarn ("Invalid TLE data for satellite " ++ name sat
                                   ++ ", skipping.")])
    end.

(** [satelliteData.filter(...)]: the satellites kept, which become the
    tracked set, and the log. *)
Fixpoint validSatellites (tz now : Z) (satelliteData : list Sat)
    : list Sat * list Event :=
  match satelliteData with
  | [] => ([], [])
  | sat :: rest =>
      let (keep, log) := keepSatellite tz now sat in
      let (kept, logs) := validSatellites tz now rest in
      (if keep then sat :: kept else kept, log ++ logs)
  end.

(** *** Outcomes of the library calls made for one satellite *)

(** The trial made by the catalog filter and the work of the batch worker
    start alike: build the element record, check its [error], propagate. *)
Definition propagatesTo (l1 l2 : string) (t : Z) (r : Outcome (PosVel eci)) : Prop :=
  exists rec, twoline2satrec l1 l2 = Ret rec
              /\ satrecError rec = false
              /\ propagate rec t = r.

(** The propagation yields a usable position. *)
Definition trialPropagates (l1 l2 : string) (t : Z) : Prop :=
  exists f p, propagatesTo l1 l2 t (Ret (PV f)) /\ positionOk f = Some p.

(** The propagation of a structurally valid satellite fails: the library
    throws, or returns [null], or a result without a usable position. *)
Definition propagationFails (t : Z) (sat : Sat) : Prop :=
  exists l1 l2 r,
    tle1 sat = Some l1 /\ tle2 sat = Some l2
    /\ tleInvalid (tle1 sat) (tle2 sat) = false
    /\ propagatesTo l1 l2 t r
    /\ match r with
       | Ret (PV f) => positionOk f = None
       | _ => True
       end.

(** The failure is one the library signals by throwing or by [null]. *)
Definition propagationThrowsOrNull (t : Z) (sat : Sat) : Prop :=
  exists l1 l2 r,
    tle1 sat = Some l1 /\ tle2 sat = Some l2
    /\ tleInvalid (tle1 sat) (tle2 sat) = false
    /\ propagatesTo l1 l2 t r
    /\ (r = Throw \/ r = Ret PVNull).

(** The propagation and the conversion to a geodetic position succeed. *)
Definition propagationSucceeds (t : Z) (sat : Sat) (g : GeodeticPosition) : Prop :=
  exists l1 l2 f p,
    tle1 sat = Some l1 /\ tle2 sat = Some l2
    /\ tleInvalid (tle1 sat) (tle2 sat) = false
    /\ propagatesTo l1 l2 t (Ret (PV f))
    /\ positionOk f = Some p
    /\ geodeticOf p t = Ret g.

End Tracker.

Definition isConsole (e : Event) : bool :=
  match e with
  | ConsoleWarn _ | ConsoleError _ => true
  | _ => false
  end.

Definition optList {A : Type} (o : option A) : list A :=
  match o with
  | Some a => [a]
  | None => []
  end.

(** ** Properties of passes and the invariant of the scan *)

Section PassProperties.

Context {lib : SatelliteJs}.
Variables (rec : satrec) (observerLat observerLon : jsnum).
Variables (scanStart : Z) (minElevation : R).

(** The elevation the scan computes for the instant [t], when the sample
    at [t] is not skipped. *)
Definition elevationAt (t : Z) : option R :=
  match passSample rec observerLat observerLon t with
  | Ret (Some v) => Some (elevation v)
  | _ => None
  end.

(** The same for the sample of index [i] of the scan. *)
Definition elevAt (i : Z) : option R := elevationAt (sampleTime scanStart i).

(** The last sample of the scan before index [i] that is not skipped, if
    there is one, has an elevation satisfying [P]. *)
Definition lastValidBefore (P : R -> Prop) (i : Z) : Prop :=
  forall j e,
    0 <= j < i -> elevAt j = Some e ->
    (forall l, j < l < i -> elevAt l = None) -> P e.

(** [p] starts at sample [s] and ends at sample [e] of the first [n]. *)
Definition closedAt (n : Z) (p : Pass) (s e : Z) : Prop :=
  0 <= s /\ s < e /\ e < n
  /\ startTime p = sampleTime scanStart s
  /\ endTime p = Some (sampleTime scanStart e)
  /\ duration p = Some (IZR (e - s)).

(** The elevation is above the threshold at sample [s] and was not at the
    last valid sample before it; it is below the threshold at sample [e]
    and was not at the last valid sample before it. *)
Definition crossesAt (p : Pass) (s e : Z) : Prop :=
  (exists es, elevAt s = Some es /\ (es > minElevation)%R)
  /\ (exists ee, elevAt e = Some ee /\ (ee < minElevation)%R)
  /\ lastValidBefore (fun x => (x <= minElevation)%R) s
  /\ lastValidBefore (fun x => (x >= minElevation)%R) e
  /\ (maxElevation p > minElevation)%R.

Definition passSpec (n : Z) (p : Pass) : Prop :=
  exists s e, closedAt n p s e /\ crossesAt p s e.

(** The elevation rises through the threshold during the sample interval
    that ends at the start of [p]. *)
Definition risesWithinOneSample (p : Pass) : Prop :=
  exists e0 e1,
    elevationAt (startTime p - 60000) = Some e0
    /\ elevationAt (startTime p) = Some e1
    /\ (e0 <= minElevation < e1)%R.

(** [p] has ended before the instant [t]. *)
Definition endsBefore (t : Z) (p : Pass) : Prop :=
  exists u, endTime p = Some u /\ u < t.

(** What holds of the pass being built after [k] samples. *)
Definition openSpec (k : Z) (st : ScanState) (cp : Pass) : Prop :=
  exists s,
    0 <= s /\ s < k
    /\ startTime cp = sampleTime scanStart s
    /\ endTime cp = None
    /\ (exists es, elevAt s = Some es /\ (es > minElevation)%R)
    /\ (maxElevation cp > minElevation)%R
    /\ lastValidBefore (fun x => (x <= minElevation)%R) s
    /\ lastValidBefore (fun x => (x >= minElevation)%R) k
    /\ Forall (endsBefore (startTime cp)) (passes st).

(** The invariant of the loop of [predictPasses] after [k] samples. *)
Definition scanInvariant (k : Z) (st : ScanState) : Prop :=
  0 <= k
  /\ Forall (passSpec k) (passes st)
  /\ StronglySorted (fun p q => endsBefore (startTime q) p) (passes st)
  /\ (if inPass st
      then exists cp, currentPass st = Some cp /\ openSpec k st cp
      else currentPass st = None
           /\ lastValidBefore (fun x => (x <= minElevation)%R) k).

End PassProperties.

(** [p] ends before [q] starts. *)
Definition passBefore (p q : Pass) : Prop := endsBefore (startTime q) p.

(** ** [spaceTrackService.js] *)

Module SpaceTrackService.

Local Open Scope string_scope.

(** An element of the JSON array the service returns; a property can be
    missing. *)
Record Item : Type := mkItem {
  NORAD_CAT_ID : option string;
  OBJECT_NAME : option string;
  TLE_LINE1 : option string;
  TLE_LINE2 : option string;
  EPOCH : option string;
  OBJECT_TYPE : option string
}.

Definition anyIncluded (keys : list string) (s : string) : bool :=
  existsb (fun k => JsString.includes k s) keys.

Definition determineCategory (name : string) : string :=
  let upperName := JsString.toUpperCase name in
  if anyIncluded ["ISS"; "ZARYA"; "TIANGONG"; "TIANHE"; "CSS"] upperName then "station"
  else if anyIncluded ["STARLINK"] upperName then "starlink"
  else if anyIncluded ["NOAA"; "GOES"; "METOP"; "WEATHER"] upperName then "weather"
  else if anyIncluded ["GPS"; "GLONASS"; "GALILEO"; "BEIDOU"] upperName then "navigation"
  else if anyIncluded ["IRIDIUM"; "INTELSAT"; "TELESAT"] upperName then "communication"
  else "other".

(** The predicate of the [filter] in [parseSpaceTrackData]; [None] is a
    null element. *)
Definition itemUsable (item : option Item) : bool :=
  match item with
  | None => false
  | Some it =>
      JsString.truthy (NORAD_CAT_ID it) && JsString.truthy (OBJECT_NAME it)
      && JsString.truthy (TLE_LINE1 it) && JsString.truthy (TLE_LINE2 it)
      && JsString.lengthIs (TLE_LINE1 it) 69 && JsString.lengthIs (TLE_LINE2 it) 69
  end.

Definition orEmpty (o : option string) : string :=
  match o with
  | Some x => x
  | None => EmptyString
  end.

Definition itemToSat (it : Item) : Sat :=
  {| id := JsString.parseInt (orEmpty (NORAD_CAT_ID it));
     name := orEmpty (OBJECT_NAME it);
     tle1 := TLE_LINE1 it;
     tle2 := TLE_LINE2 it;
     epoch := EPOCH it;
     objectType := OBJECT_TYPE it;
     category := determineCategory (orEmpty (OBJECT_NAME it)) |}.

Fixpoint usableItems (data : list (option Item)) : list Sat :=
  match data with
  | [] => []
  | Some it :: rest =>
      if itemUsable (Some it) then itemToSat it :: usableItems rest
      else usableItems rest
  | None :: rest => usableItems rest
  end.

(** [parseSpaceTrackData(data)]; [None] is a value that is not an array. *)
Definition parseSpaceTrackData (data : option (list (option Item))) : list Sat :=
  match data with
  | None => []
  | Some items => usableItems items
  end.

End SpaceTrackService.

(** ** A table-driven [satellite.js] and sample data

    The theorems about the tracker hold for every [SatelliteJs].  Concrete
    runs use the stand-in below: the element record of a TLE pair is the
    orbit its catalogue assigns to the first line, and an orbit answers
    [propagate] with a position that is already geodetic. *)

Module Scripted.

Local Open Scope string_scope.

Definition Orbit : Type := Z -> Outcome (PosVel Geodetic.t).

Definition library (catalogue : string -> Orbit) : SatelliteJs :=
  {| satrec := Orbit;
     eci := Geodetic.t;
     twoline2satrec := fun l1 _ => Ret (catalogue l1);
     satrecError := fun _ => false;
     propagate := fun o t => o t;
     gstime := fun _ => Fin 0;
     eciToGeodetic := fun p _ => p;
     degreesLat := fun x => Ret x;
     degreesLong := fun x => Ret x |}.

Definition at_ (lat lon alt : jsnum) : Outcome (PosVel Geodetic.t) :=
  Ret (PV (PosObject (Geodetic.make lat lon alt) false)).

(** Over the north pole, at ground level. *)
Definition overPole : Orbit := fun _ => at_ (Fin 90) (Fin 0) (Fin 0).

(** Over the point of latitude 0 and longitude 0, 400 km up. *)
Definition overOrigin : Orbit := fun _ => at_ (Fin 0) (Fin 0) (Fin 400).

(** Over the pole until two minutes after instant 0, over the origin
    from then on. *)
Definition poleThenOrigin : Orbit :=
  fun t => if (t <? 120000)%Z then overPole t else overOrigin t.

(** An orbit whose propagation yields a position that is not a number. *)
Definition notANumber : Orbit := fun _ => at_ NaN NaN NaN.

(** An orbit whose propagation fails: the result has no position. *)
Definition decayed : Orbit := fun _ => Ret (PV PosFalsy).

Definition issLine1 : string :=
  "1 25544U 98067A   24045.50000000  .00016717  00000-0  10270-3 0  9005".
Definition issLine1Midnight : string :=
  "1 25544U 98067A   24045.00000000  .00016717  00000-0  10270-3 0  9005".
Definition issLine2 : string :=
  "2 25544  51.6416 247.4627 0006703 130.5360 325.0288 15.72125391563537".
Definition hstLine1 : string :=
  "1 20580U 90037B   24045.50000000  .00002631  00000-0  13333-3 0  9991".
Definition hstLine2 : string :=
  "2 20580  28.4699 155.1234 0002395 101.2345 258.8521 15.15364121651234".
Definition shortLine1 : string :=
  "1 25544U 98067A   24045.50000000  .00016717  00000-0  10270-3 0  900".

Definition iss : Sat :=
  {| id := Some 25544; name := "ISS (ZARYA)"; tle1 := Some issLine1;
     tle2 := Some issLine2; epoch := None; objectType := Some "PAYLOAD";
     category := "station" |}.
Definition hst : Sat :=
  {| id := Some 20580; name := "HST"; tle1 := Some hstLine1;
     tle2 := Some hstLine2; epoch := None; objectType := Some "PAYLOAD";
     category := "other" |}.
Definition truncated : Sat :=
  {| id := Some 25544; name := "ISS (ZARYA)"; tle1 := Some shortLine1;
     tle2 := Some issLine2; epoch := None; objectType := Some "PAYLOAD";
     category := "station" |}.

(** An orbit for which the library returns [null]. *)
Definition vanished : Orbit := fun _ => Ret PVNull.

(** Every element set propagates to [o]. *)
Definition always (o : Orbit) : string -> Orbit := fun _ => o.

(** The first line of [iss] propagates to [o], any other to [o']. *)
Definition issTo (o o' : Orbit) : string -> Orbit :=
  fun l1 => if String.eqb l1 issLine1 then o else o'.

(** The library in which every satellite stays over the origin, the one
    in which every propagation yields a position that is not a number,
    and the one in which the propagation of [iss] fails. *)
Definition steady : SatelliteJs := library (always overOrigin).
Definition broken : SatelliteJs := library (always notANumber).
Definition issDecayed : SatelliteJs := library (issTo decayed overOrigin).
Definition issVanished : SatelliteJs := library (issTo vanished overOrigin).

Definition overOriginPosition : GeodeticPosition :=
  {| latitude := Fin 0; longitude := Fin 0; altitude := Fin 400 |}.
Definition hstPosition : SatPosition :=
  {| posId := Some 20580; posName := "HST"; posGeo := overOriginPosition |}.
Definition polePosition : GeodeticPosition :=
  {| latitude := Fin 90; longitude := Fin 0; altitude := Fin 0 |}.

(** What an observer at latitude 0 and longitude 0 is told of a satellite
    at these two positions. *)
Definition seenOverOrigin : VisibilityResult :=
  calculateVisibility (Some overOriginPosition) (Fin 0) (Fin 0) 0.
Definition seenOverPole : VisibilityResult :=
  calculateVisibility (Some polePosition) (Fin 0) (Fin 0) 0.

(** The pass of [poleThenOrigin] found by a scan from instant 0. *)
Definition polePass : Pass :=
  closePass 120000%Z seenOverOrigin (openPass 0%Z seenOverPole).

End Scripted.

(** ** Further functions of the tracker component *)

Section Producers.

Context {lib : SatelliteJs}.

(** [propagateSatellite(satrec, date)]: the position, or [None] for
    [null], and what the call logged.  Whatever is thrown inside, the
    access to [position] of a [null] result included, is caught. *)
Definition propagateSatellite (rec : satrec) (date : Z)
    : option GeodeticPosition * list Event :=
  match propagate rec date with
  | Throw => (None, [ConsoleError "Propagation error:"])
  | Ret PVNull => (None, [ConsoleError "Propagation error:"])
  | Ret (PV f) =>
      match positionOk f with
      | None => (None, [])
      | Some p =>
          match geodeticOf p date with
          | Throw => (None, [ConsoleError "Propagation error:"])
          | Ret g => (Some g, [])
          end
      end
  end.

End Producers.

Section PassDetails.

Context {lib : SatelliteJs}.
Variables (rec : satrec) (observerLat observerLon : jsnum).
Variables (scanStart : Z) (minElevation : R).

(** The visibility the scan computes for its sample of index [i], when
    the sample is not skipped. *)
Definition sampleAt (i : Z) : option VisibilityResult :=
  match passSample rec observerLat observerLon (sampleTime scanStart i) with
  | Ret (Some v) => Some v
  | _ => None
  end.

(** The valid samples from [lo] up to, not including, [hi] have an
    elevation satisfying [P]. *)
Definition samplesIn (P : R -> Prop) (lo hi : Z) : Prop :=
  forall j x,
    lo <= j < hi ->
    elevAt rec observerLat observerLon scanStart j = Some x -> P x.

(** The pass being built after [k] samples started at sample [s] and has
    its highest sample so far at [m]. *)
Definition openDetail (k : Z) (cp : Pass) (s m : Z) : Prop :=
  0 <= s /\ s <= m /\ m < k
  /\ startTime cp = sampleTime scanStart s
  /\ maxElevationTime cp = sampleTime scanStart m
  /\ (exists vs, sampleAt s = Some vs /\ startAzimuth cp = azimuth vs)
  /\ elevAt rec observerLat observerLon scanStart m = Some (maxElevation cp)
  /\ samplesIn (fun x => (x <= maxElevation cp)%R) s k
  /\ samplesIn (fun x => (x < maxElevation cp)%R) s m
  /\ samplesIn (fun x => (x >= minElevation)%R) s k.

(** The pass [p] runs from sample [s] to sample [e] and has its highest
    sample at [m]: its azimuths are those of the two boundary samples,
    its maximum is the greatest elevation of the valid samples from [s]
    to [e], first reached at [m], and no valid sample before [e] is
    below the threshold. *)
Definition passDetail (n : Z) (p : Pass) : Prop :=
  exists s m e,
    0 <= s /\ s <= m /\ m < e /\ e < n
    /\ startTime p = sampleTime scanStart s
    /\ endTime p = Some (sampleTime scanStart e)
    /\ maxElevationTime p = sampleTime scanStart m
    /\ (exists vs, sampleAt s = Some vs /\ startAzimuth p = azimuth vs)
    /\ (exists ve, sampleAt e = Some ve /\ endAzimuth p = Some (azimuth ve))
    /\ elevAt rec observerLat observerLon scanStart m = Some (maxElevation p)
    /\ samplesIn (fun x => (x <= maxElevation p)%R) s (e + 1)
    /\ samplesIn (fun x => (x < maxElevation p)%R) s m
    /\ samplesIn (fun x => (x >= minElevation)%R) s e.

(** The sample of index [j] falls within one of the passes [ps]. *)
Definition covered (ps : list Pass) (j : Z) : Prop :=
  exists p t,
    In p ps /\ endTime p = Some t
    /\ startTime p <= sampleTime scanStart j < t.

(** A second invariant of the loop of [predictPasses]. *)
Definition scanDetail (k : Z) (st : ScanState) : Prop :=
  0 <= k
  /\ Forall (passDetail k) (passes st)
  /\ (forall j x,
        0 <= j < k ->
        elevAt rec observerLat observerLon scanStart j = Some x ->
        (x > minElevation)%R ->
        covered (passes st) j
        \/ (inPass st = true
            /\ exists cp, currentPass st = Some cp
                          /\ startTime cp <= sampleTime scanStart j))
  /\ (inPass st = true ->
      exists cp s m, currentPass st = Some cp /\ openDetail k cp s m).

End PassDetails.

(** *** Scene coordinates *)

Record Vec3 : Type := mkVec3 { vx : R; vy : R; vz : R }.

Definition sceneRadius : R := 6.371%R.

(** The spherical-to-Cartesian conversion the three drawing components
    share: latitude and longitude in degrees, the longitude shifted by
    90 degrees. *)
Definition scenePoint (radius lat lon : R) : Vec3 :=
  let latRad := (lat * PI / 180)%R in
  let lonRad := ((lon + 90) * PI / 180)%R in
  {| vx := (radius * cos latRad * sin lonRad)%R;
     vy := (radius * sin latRad)%R;
     vz := (radius * cos latRad * cos lonRad)%R |}.

Definition norm2 (v : Vec3) : R := (vx v * vx v + vy v * vy v + vz v * vz v)%R.

(** The test with which [Satellite3D] and [GroundTrack3D] accept a
    position. *)
Definition drawable (g : GeodeticPosition) : bool :=
  isFinite (latitude g) && isFinite (longitude g) && isFinite (altitude g)
  && negb (Rgtb (Rabs (realOf (latitude g))) 90)
  && negb (Rgtb (Rabs (realOf (longitude g))) 180)
  && negb (Rltb (realOf (altitude g)) 0).

(** What [Satellite3D] computes: where the satellite is drawn, and the
    start of the line to the surface, relative to it. *)
Record SatelliteMark : Type := mkMark {
  groupPosition : Vec3;
  lineStart : Vec3
}.

(** [Satellite3D({position, name})]: [None] is [null], with a warning. *)
Definition satellite3D (position : option GeodeticPosition) (name : string)
    : option SatelliteMark * list Event :=
  match position with
  | None => (None, [ConsoleWarn ("Invalid position data for satellite " ++ name ++ ":")])
  | Some g =>
      if negb (drawable g) then
        (None, [ConsoleWarn ("Invalid position data for satellite " ++ name ++ ":")])
      else
        let radius := (sceneRadius + realOf (altitude g) / 1000)%R in
        let at_ := scenePoint radius (realOf (latitude g)) (realOf (longitude g)) in
        let surface :=
          scenePoint sceneRadius (realOf (latitude g)) (realOf (longitude g)) in
        (Some {| groupPosition := at_;
                 lineStart := {| vx := (vx surface - vx at_)%R;
                                 vy := (vy surface - vy at_)%R;
                                 vz := (vz surface - vz at_)%R |} |}, [])
  end.

(** The observer marker of [Earth]. *)
Definition observerMarker (lat lon : R) : Vec3 := scenePoint sceneRadius lat lon.

Definition pointDrawable (point : option GroundTrackPoint) : bool :=
  match point with
  | None => false
  | Some p => drawable (pointPosition p)
  end.

Fixpoint trackVertices (points : list (option GroundTrackPoint)) : list Vec3 :=
  match points with
  | [] => []
  | Some p :: rest =>
      if drawable (pointPosition p) then
        scenePoint (sceneRadius + realOf (altitude (pointPosition p)) / 1000)
                   (realOf (latitude (pointPosition p)))
                   (realOf (longitude (pointPosition p)))
        :: trackVertices rest
      else trackVertices rest
  | None :: rest => trackVertices rest
  end.

(** [GroundTrack3D({groundTrack})]: the vertices of the line drawn, or
    [None] for [null]. *)
Definition groundTrack3D (groundTrack : option (list (option GroundTrackPoint)))
    : option (list Vec3) :=
  match groundTrack with
  | None => None
  | Some track =>
      if (List.length track <? 2)%nat then None
      else
        let points := trackVertices track in
        if (List.length points <? 2)%nat then None else Some points
  end.

(** *** Display helpers *)

(** A whole number as a template string prints it. *)
Definition showZ (z : Z) : string := NilZero.string_of_int (Z.to_int z).

(** [formatDuration(minutes)] for a finite number of minutes. *)
Definition formatDuration (minutes : R) : string :=
  let hours := Int_part (minutes / 60) in
  let mins := Int_part (jsmod minutes 60) in
  if 0 <? hours
  then (showZ hours ++ "h " ++ showZ mins ++ "m")%string
  else (showZ mins ++ "m")%string.

Definition lowerChar (c : ascii) : ascii :=
  let n := nat_of_ascii c in
  if ((65 <=? n)%nat && (n <=? 90)%nat) then ascii_of_nat (n + 32) else c.

(** [s.toLowerCase()] for a string [s] of ASCII characters: the letters
    A to Z become a to z and nothing else changes.  For other strings
    [String.prototype.toLowerCase] follows the Unicode case mappings
    and is not this function. *)
Fixpoint toLowerCase (s : string) : string :=
  match s with
  | EmptyString => EmptyString
  | String c s' => String (lowerChar c) (toLowerCase s')
  end.

(** [filteredSatellites]: the satellites whose name contains the search
    term, letter case apart. *)
Definition filteredSatellites (satellites : list Sat) (searchTerm : string)
    : list Sat :=
  filter (fun sat => JsString.includes (toLowerCase searchTerm)
                                       (toLowerCase (name sat)))
         satellites.

(** The object built by the [onmessage] handler: [posMap[pos.id] = pos]
    for each position in turn. *)
Definition PosMap : Type := option Z -> option SatPosition.

Definition idEqb (a b : option Z) : bool :=
  match a, b with
  | Some x, Some y => x =? y
  | None, None => true
  | _, _ => false
  end.

Definition posMapSet (m : PosMap) (pos : SatPosition) : PosMap :=
  fun k => if idEqb k (posId pos) then Some pos else m k.

Definition posMapOf (newPositions : list SatPosition) : PosMap :=
  fold_left posMapSet newPositions (fun _ => None).

Section Produced.

Context {lib : SatelliteJs}.

(** The library propagates [rec] to a usable position at the instant [t]
    and converts it to the geodetic position [g]. *)
Definition producedAt (rec : satrec) (t : Z) (g : GeodeticPosition) : Prop :=
  exists f p,
    propagate rec t = Ret (PV f)
    /\ positionOk f = Some p
    /\ geodeticOf p t = Ret g.

(** [p] is the point the ground-track sampler makes of the minute offset
    [i]. *)
Definition trackPointAt (rec : satrec) (start i : Z) (p : GroundTrackPoint) : Prop :=
  time p = start + i * 60000
  /\ producedAt rec (time p) (pointPosition p)
  /\ allFinite (pointPosition p) = true.

End Produced.

(** Day [n] of the year [y], at midnight, falls in the year [y] in the
    date model. *)
Definition dayInYearOk (y n : Z) : bool :=
  JsDate.YearFromTime (JsDate.TimeFromYear y + (n - 1) * JsDate.msPerDay) =? y.

Definition yearDaysOk (y : Z) : bool :=
  forallb (fun k => dayInYearOk y (1 + Z.of_nat k)) (seq 0 365).

(** ** Geographic coordinates *)

(** A latitude and a longitude, in degrees, within their usual ranges. *)
Definition geographic (lat lon : R) : Prop :=
  (Rabs lat <= 90)%R /\ (Rabs lon <= 180)%R.

(** A geostationary satellite over longitude 75 W, and the observer's
    longitude and height (metres) at Quito. *)
Definition geostationary : GeodeticPosition :=
  {| latitude := Fin 0; longitude := Fin (-75); altitude := Fin 35786 |}.
Definition quitoLon : R := (-78.5)%R.
Definition quitoAlt : R := 2850%R.

(** ** Zones, instants and element sets of the freshness runs *)

(** The offsets of two zones east of UTC, in milliseconds. *)
Definition utcPlus1 : Z := 1 * 3600000.
Definition utcPlus13 : Z := 13 * 3600000.

(** The day-of-year fields "045.50000000" and "045.97000000". *)
Definition day45Noon : Q := 4550000000 # 100000000.
Definition day45Evening : Q := 4597000000 # 100000000.

(** The sample set with an epoch later in the same day,
    2024-02-14 23:16:48 UTC. *)
Definition eveningLine1 : string :=
  "1 25544U 98067A   24045.97000000  .00016717  00000-0  10270-3 0  9005"%string.
Definition issEvening : Sat :=
  {| id := Some 25544; name := "ISS (ZARYA)"%string; tle1 := Some eveningLine1;
     tle2 := Some Scripted.issLine2; epoch := None;
     objectType := Some "PAYLOAD"%string; category := "station"%string |}.

(** The instants 59 days after 2024-02-14 12:00:00 UTC and 59 days after
    2024-02-14 23:16:48 UTC. *)
Definition noonPlus59Days : Z := 1707912000000 + 59 * JsDate.msPerDay.
Definition eveningPlus59Days : Z := 1707952608000 + 59 * JsDate.msPerDay.

(** * Theorems *)

(** ** Arithmetic of the number model *)

Lemma Rgtb_true_iff (a b : R) : Rgtb a b = true <-> (a > b)%R.
Proof.
  unfold Rgtb, Rltb. destruct (Rlt_dec b a); split; intros; try lra; try discriminate; reflexivity.
Qed.

Lemma Rltb_true_iff (a b : R) : Rltb a b = true <-> (a < b)%R.
Proof.
  unfold Rltb. destruct (Rlt_dec a b); split; intros; try lra; try discriminate; reflexivity.
Qed.

Lemma Rltb_false_iff (a b : R) : Rltb a b = false <-> (b <= a)%R.
Proof.
  unfold Rltb. destruct (Rlt_dec a b); split; intros; try lra; try discriminate; reflexivity.
Qed.

Lemma Rgtb_false_iff (a b : R) : Rgtb a b = false <-> (a <= b)%R.
Proof. unfold Rgtb. apply Rltb_false_iff. Qed.

Lemma atan2_right (y x : R) : (0 < x)%R -> atan2 y x = atan (y / x).
Proof.
  intros Hx. unfold atan2. destruct (Rlt_dec 0 x); [reflexivity | lra].
Qed.

Lemma atan2_up (y : R) : (0 < y)%R -> atan2 y 0 = (PI / 2)%R.
Proof.
  intros Hy. unfold atan2.
  destruct (Rlt_dec 0 0); [lra |].
  destruct (Rlt_dec 0 y); [reflexivity | lra].
Qed.

Lemma Rtrunc_IZR (z : Z) : Rtrunc (IZR z) = z.
Proof.
  unfold Rtrunc. destruct (Rle_dec 0 (IZR z)).
  - symmetry. apply Int_part_spec. lra.
  - rewrite <- opp_IZR. rewrite <- (Int_part_spec (IZR (- z)) (- z)); [lia | lra].
Qed.

Lemma jsmod_self (y : R) : (y <> 0)%R -> jsmod y y = 0%R.
Proof.
  intros Hy. unfold jsmod.
  replace (y / y)%R with (IZR 1) by (field; exact Hy).
  rewrite Rtrunc_IZR. lra.
Qed.

Lemma deg_0 : (0 * PI / 180)%R = 0%R.
Proof. lra. Qed.

Lemma deg_90 : (90 * PI / 180)%R = (PI / 2)%R.
Proof. lra. Qed.

Lemma rad_to_deg_quarter : (PI / 4 * 180 / PI)%R = 45%R.
Proof. field. apply PI_neq0. Qed.

Lemma rad_to_deg_half : (PI / 2 * 180 / PI)%R = 90%R.
Proof. field. apply PI_neq0. Qed.

Lemma sqrt_sq_pos (x : R) : (0 <= x)%R -> sqrt (x * x) = x.
Proof. intros Hx. apply sqrt_square. exact Hx. Qed.

(** ** Visibility geometry *)

Lemma invalidVisibility_consistent :
  isVisible invalidVisibility = true <-> (elevation invalidVisibility > 0)%R.
Proof.
  simpl. split; [discriminate | lra].
Qed.

(** C4: for every satellite position and observer, including the sentinel
    result returned for a missing or non-finite input, the result of
    [calculateVisibility] has [isVisible = true] exactly when
    [elevation > 0]. *)
Theorem calculateVisibility_visible_iff_elevation_positive :
  forall (satPos : option GeodeticPosition) (observerLat observerLon : jsnum)
         (observerAlt : R),
    let v := calculateVisibility satPos observerLat observerLon observerAlt in
    isVisible v = true <-> (elevation v > 0)%R.
Proof.
  intros satPos oLat oLon oAlt. unfold calculateVisibility.
  destruct satPos as [sp|]; [| apply invalidVisibility_consistent].
  destruct (negb (isFinite (latitude sp)) || negb (isFinite (longitude sp))
            || negb (isFinite (altitude sp)));
    [apply invalidVisibility_consistent |].
  destruct (negb (isFinite oLat) || negb (isFinite oLon));
    [apply invalidVisibility_consistent |].
  cbv zeta. simpl isVisible. simpl elevation. apply Rgtb_true_iff.
Qed.

(** The satellite 400 km above the observer, both at latitude 0 and
    longitude 0: the vector from the observer to the satellite. *)
Lemma overhead_vector :
  (ecefX (earthRadius + 400) 0 0 - ecefX (earthRadius + 0 / 1000) 0 0 = 400
   /\ ecefY (earthRadius + 400) 0 0 - ecefY (earthRadius + 0 / 1000) 0 0 = 0
   /\ ecefZ (earthRadius + 400) 0 - ecefZ (earthRadius + 0 / 1000) 0 = 0)%R.
Proof.
  unfold ecefX, ecefY, ecefZ, earthRadius.
  rewrite deg_0, cos_0, sin_0. repeat split; lra.
Qed.

(** For finite inputs, both points are placed on a sphere of radius
    6371 km (the observer raised by its altitude in metres) and the range
    is the Euclidean distance between them. *)
Lemma calculateVisibility_range (sLat sLon sAlt oLat oLon oAlt : R) :
  let sr := (earthRadius + sAlt)%R in
  let or := (earthRadius + oAlt / 1000)%R in
  let dx := (ecefX sr sLat sLon - ecefX or oLat oLon)%R in
  let dy := (ecefY sr sLat sLon - ecefY or oLat oLon)%R in
  let dz := (ecefZ sr sLat - ecefZ or oLat)%R in
  range (calculateVisibility (Some (mkGeo (Fin sLat) (Fin sLon) (Fin sAlt)))
           (Fin oLat) (Fin oLon) oAlt)
  = sqrt (dx * dx + dy * dy + dz * dz)
  /\ earthRadius = 6371%R.
Proof.
  split; reflexivity.
Qed.

Lemma calculateVisibility_overOrigin :
  calculateVisibility (Some (mkGeo (Fin 0) (Fin 0) (Fin 400))) (Fin 0) (Fin 0) 0
  = {| range := 400; elevation := 0; azimuth := 0; isVisible := false |}.
Proof.
  destruct overhead_vector as (Hx & Hy & Hz).
  unfold calculateVisibility. simpl.
  rewrite Hx, Hy, Hz.
  replace (400 * 400 + 0 * 0 + 0 * 0)%R with (400 * 400)%R by lra.
  replace (400 * 400 + 0 * 0)%R with (400 * 400)%R by lra.
  rewrite sqrt_sq_pos by lra.
  rewrite !atan2_right by lra.
  replace (0 / 400)%R with 0%R by lra.
  rewrite atan_0.
  replace (0 * 180 / PI + 360)%R with 360%R
    by (field; apply PI_neq0).
  replace (0 * 180 / PI)%R with 0%R by (field; apply PI_neq0).
  rewrite jsmod_self by lra.
  f_equal. apply Rgtb_false_iff. lra.
Qed.

(** C1: a satellite 400 km straight above an observer on the equator.
    [calculateVisibility] returns the Euclidean range 400, but elevation
    0 and [isVisible = false]: its vertical component is the polar-axis
    component of the observer-to-satellite vector, not the component
    along the observer's local up direction, for which the elevation is
    90 degrees. *)
Theorem calculateVisibility_overhead_at_equator :
  calculateVisibility (Some (mkGeo (Fin 0) (Fin 0) (Fin 400))) (Fin 0) (Fin 0) 0
  = {| range := 400; elevation := 0; azimuth := 0; isVisible := false |}
  /\ LocalFrame.elevationDeg 0 0 400 0 0 = 90%R.
Proof.
  split; [exact calculateVisibility_overOrigin |].
  unfold LocalFrame.elevationDeg, LocalFrame.up, LocalFrame.east, LocalFrame.north.
  rewrite deg_0, cos_0, sin_0.
  replace ((- (400) * 0 + 0 * 1) * (- (400) * 0 + 0 * 1)
           + (- (400) * (0 * 1) - 0 * (0 * 0) + 0 * 1)
             * (- (400) * (0 * 1) - 0 * (0 * 0) + 0 * 1))%R
    with (0 * 0)%R by lra.
  rewrite sqrt_sq_pos by lra.
  rewrite atan2_up by lra.
  apply rad_to_deg_half.
Qed.

(** ** TLE epoch decoding *)

(** The year pivot: two-digit years below 57 are in the 2000s, the
    others in the 1900s. *)
Lemma fullYearOf_pivot (y : Z) :
  fullYearOf (Some y) = Some (if y <? 57 then 2000 + y else 1900 + y).
Proof. reflexivity. Qed.

Lemma fullYearOf_range (y : Z) :
  0 <= y <= 99 -> exists f, fullYearOf (Some y) = Some f /\ 1957 <= f <= 2056.
Proof.
  intros Hy. rewrite fullYearOf_pivot. destruct (Z.ltb_spec y 57); eexists; split; try reflexivity; lia.
Qed.

Lemma yearStart_tle_years (y : Z) :
  1957 <= y <= 2056 -> yearStartOk y = true.
Proof.
  intros Hy.
  assert (Hall : forallb (fun k => yearStartOk (1957 + Z.of_nat k)) (seq 0 100) = true)
    by (vm_compute; reflexivity).
  rewrite forallb_forall in Hall.
  specialize (Hall (Z.to_nat (y - 1957))).
  rewrite Z2Nat.id in Hall by lia.
  replace (1957 + (y - 1957)) with y in Hall by lia.
  apply Hall. apply in_seq. lia.
Qed.

Lemma TimeClip_small (t : Z) :
  Z.abs t <= 8640000000000000 -> JsDate.TimeClip t = Some t.
Proof.
  intros H. unfold JsDate.TimeClip.
  destruct (Z.leb_spec (Z.abs t) 8640000000000000); [reflexivity | lia].
Qed.

(** Whatever the epoch field, the decoded instant is a whole number of
    days after local midnight of 1 January of the resolved year: the
    fraction of the day of the year plays no part. *)
Lemma parseTLEEpoch_whole_days (tz : Z) (tle1 : string) (y : Z) (q : Q) :
  let epochStr := JsString.trim (JsString.substring 18 32 tle1) in
  JsString.parseInt (JsString.substring 0 2 epochStr) = Some y ->
  0 <= y <= 99 ->
  JsString.parseFloat (JsString.substringFrom 2 epochStr) = JsString.DFin q ->
  Z.abs tz <= JsDate.msPerDay ->
  exists fullYear,
    fullYearOf (Some y) = Some fullYear
    /\ parseTLEEpoch tz tle1
       = JsDate.TimeClip
           (JsDate.UTC tz
              (JsDate.TimeFromYear fullYear
               + (JsString.Qtrunc (inject_Z 1 + q + - (1)) - 1) * JsDate.msPerDay)).
Proof.
  intros epochStr Hy Hrange Hq Htz.
  destruct (fullYearOf_range y Hrange) as (f & Hf & Hfr).
  exists f. split; [exact Hf |].
  pose proof (yearStart_tle_years f Hfr) as Hok. unfold yearStartOk in Hok.
  repeat (apply andb_prop in Hok as [Hok ?]).
  repeat match goal with
  | H : (_ =? _) = true |- _ => apply Z.eqb_eq in H
  | H : (_ <=? _) = true |- _ => apply Z.leb_le in H
  end.
  unfold parseTLEEpoch. fold epochStr. rewrite Hy, Hq, Hf.
  unfold JsDate.newDate.
  assert (Hyr : (0 <=? f) && (f <=? 99) = false).
  { apply andb_false_iff. right. apply Z.leb_gt. lia. }
  rewrite Hyr.
  assert (Hday : JsDate.MakeDate (JsDate.MakeDay f 0 1) 0 = JsDate.TimeFromYear f).
  { unfold JsDate.MakeDate, JsDate.MakeDay, JsDate.TimeFromYear.
    change (0 / 12) with 0. change (0 mod 12) with 0. cbn [JsDate.monthStart].
    rewrite !Z.add_0_r. lia. }
  rewrite Hday.
  unfold JsDate.msPerDay in Htz.
  rewrite TimeClip_small by (unfold JsDate.UTC; lia).
  unfold JsDate.getDate, JsDate.setDate, JsDate.LocalTime, JsDate.UTC.
  replace (JsDate.TimeFromYear f - tz + tz) with (JsDate.TimeFromYear f) by lia.
  rewrite H1. cbn [JsString.decOfZ JsString.decAdd JsString.decSub JsString.decNeg].
  rewrite Hok, H2, H0. f_equal. f_equal.
  unfold JsDate.MakeDate, JsDate.MakeDay, JsDate.TimeFromYear.
  change (0 / 12) with 0. change (0 mod 12) with 0. cbn [JsDate.monthStart].
  rewrite !Z.add_0_r. lia.
Qed.

Lemma setDate_from_jan1 (tz : Z) (q : Q) :
  JsString.Qtrunc q = 45 ->
  JsDate.setDate tz (Some (JsDate.UTC tz jan1_2024)) (JsString.DFin q)
  = JsDate.TimeClip (JsDate.UTC tz feb14_2024).
Proof.
  intros Hq. unfold JsDate.setDate, JsDate.LocalTime, JsDate.UTC.
  replace (jan1_2024 - tz + tz) with jan1_2024 by lia.
  rewrite Hq. reflexivity.
Qed.

Lemma getDate_jan1 (tz : Z) :
  JsDate.getDate tz (Some (JsDate.UTC tz jan1_2024)) = Some 1.
Proof.
  unfold JsDate.getDate, JsDate.LocalTime, JsDate.UTC.
  replace (jan1_2024 - tz + tz) with jan1_2024 by lia. reflexivity.
Qed.

(** An epoch field of day 45 of year 24, whatever its fraction of a day,
    decodes to local midnight of 14 February 2024. *)
Lemma parseTLEEpoch_day45 (tz : Z) (tle1 : string) (q : Q) :
  JsString.parseInt
    (JsString.substring 0 2 (JsString.trim (JsString.substring 18 32 tle1)))
  = Some 24 ->
  JsString.parseFloat
    (JsString.substringFrom 2 (JsString.trim (JsString.substring 18 32 tle1)))
  = JsString.DFin q ->
  JsString.Qtrunc (inject_Z 1 + q + - (1))%Q = 45 ->
  parseTLEEpoch tz tle1
  = match JsDate.TimeClip (JsDate.UTC tz jan1_2024) with
    | Some _ => JsDate.TimeClip (JsDate.UTC tz feb14_2024)
    | None => None
    end.
Proof.
  intros Hy Hd Hq. unfold parseTLEEpoch. rewrite Hy, Hd.
  change (JsDate.newDate tz (fullYearOf (Some 24)) 0 1)
    with (JsDate.TimeClip (JsDate.UTC tz jan1_2024)).
  destruct (JsDate.TimeClip (JsDate.UTC tz jan1_2024)) as [u|] eqn:Hclip.
  - assert (u = JsDate.UTC tz jan1_2024) as ->.
    { unfold JsDate.TimeClip in Hclip.
      destruct (Z.abs (JsDate.UTC tz jan1_2024) <=? 8640000000000000); congruence. }
    rewrite getDate_jan1. cbn [JsString.decOfZ JsString.decAdd JsString.decSub JsString.decNeg].
    apply setDate_from_jan1. exact Hq.
  - reflexivity.
Qed.

Lemma parseTLEEpoch_issLine1 (tz : Z) :
  parseTLEEpoch tz Scripted.issLine1
  = match JsDate.TimeClip (JsDate.UTC tz jan1_2024) with
    | Some _ => JsDate.TimeClip (JsDate.UTC tz feb14_2024)
    | None => None
    end.
Proof.
  apply (parseTLEEpoch_day45 tz Scripted.issLine1 (4550000000 # 100000000));
    vm_compute; reflexivity.
Qed.

Lemma parseTLEEpoch_issLine1Midnight (tz : Z) :
  parseTLEEpoch tz Scripted.issLine1Midnight
  = match JsDate.TimeClip (JsDate.UTC tz jan1_2024) with
    | Some _ => JsDate.TimeClip (JsDate.UTC tz feb14_2024)
    | None => None
    end.
Proof.
  apply (parseTLEEpoch_day45 tz Scripted.issLine1Midnight (4500000000 # 100000000));
    vm_compute; reflexivity.
Qed.

(** C2: the epoch field "24045.50000000" resolves to year 2024 by the
    pivot, but its fraction of a day is lost: [setDate] keeps the integer
    part of its argument only, so the field decodes to the same instant
    as "24045.00000000", midnight of 14 February 2024 in the local zone
    (1707868800000 ms when the zone is UTC, one hour less when it is one
    hour east of UTC), and not to 2024-02-14 12:00:00 UTC
    (1707912000000 ms). *)
Theorem parseTLEEpoch_loses_fraction_of_day :
  JsString.substring 18 32 Scripted.issLine1 = "24045.50000000"%string
  /\ parseTLEEpoch 0 Scripted.issLine1 = Some 1707868800000
  /\ parseTLEEpoch 0 Scripted.issLine1 <> Some 1707912000000
  /\ parseTLEEpoch 3600000 Scripted.issLine1 = Some 1707865200000
  /\ (forall tz : Z,
        parseTLEEpoch tz Scripted.issLine1
        = parseTLEEpoch tz Scripted.issLine1Midnight).
Proof.
  split; [reflexivity |].
  split; [vm_compute; reflexivity |].
  split; [vm_compute; discriminate |].
  split; [vm_compute; reflexivity |].
  intros tz. rewrite parseTLEEpoch_issLine1, parseTLEEpoch_issLine1Midnight.
  reflexivity.
Qed.

(** ** Structural validity of TLE lines *)

Lemma tleInvalid_of_length (l1 l2 : option string) :
  JsString.lengthIs l1 69 = false \/ JsString.lengthIs l2 69 = false ->
  tleInvalid l1 l2 = true.
Proof.
  unfold tleInvalid. intros [H | H]; rewrite H; cbn [negb];
    repeat rewrite orb_true_r; reflexivity.
Qed.

Lemma lengthIs_true (o : option string) (n : nat) :
  JsString.lengthIs o n = true -> exists s, o = Some s /\ String.length s = n.
Proof.
  destruct o as [s|]; cbn; [| discriminate].
  intros H. exists s. split; [reflexivity | now apply Nat.eqb_eq].
Qed.

Lemma tleInvalid_false (l1 l2 : option string) :
  tleInvalid l1 l2 = false ->
  JsString.lengthIs l1 69 = true /\ JsString.lengthIs l2 69 = true.
Proof.
  unfold tleInvalid. intros H.
  apply orb_false_elim in H as [H H2].
  apply orb_false_elim in H as [_ H1].
  split; apply negb_false_iff; assumption.
Qed.

Section TrackerFacts.

Context {lib : SatelliteJs}.

Lemma keepSatellite_invalid (tz now : Z) (sat : Sat) :
  tleInvalid (tle1 sat) (tle2 sat) = true ->
  keepSatellite tz now sat
  = (false, [ConsoleWarn ("Invalid TLE data for satellite " ++ name sat
                         ++ ", skipping.")]).
Proof.
  intros H. unfold keepSatellite. rewrite H. reflexivity.
Qed.

Lemma keepSatellite_true_valid (tz now : Z) (sat : Sat) :
  fst (keepSatellite tz now sat) = true ->
  tleInvalid (tle1 sat) (tle2 sat) = false.
Proof.
  intros H. destruct (tleInvalid (tle1 sat) (tle2 sat)) eqn:E; [| reflexivity].
  rewrite keepSatellite_invalid in H by exact E. discriminate.
Qed.

Lemma validSatellites_In (tz now : Z) (data : list Sat) (sat : Sat) :
  In sat (fst (validSatellites tz now data))
  <-> In sat data /\ fst (keepSatellite tz now sat) = true.
Proof.
  induction data as [| s rest IH]; cbn [validSatellites].
  - cbn. tauto.
  - destruct (keepSatellite tz now s) as [keep log] eqn:Ek.
    destruct (validSatellites tz now rest) as [kept logs] eqn:Er.
    cbn [fst] in *. destruct keep; cbn [In]; rewrite ?IH.
    + split.
      * intros [-> | [H1 H2]]; [rewrite Ek; auto | auto].
      * intros [[-> | H1] H2]; auto.
    + split.
      * intros [H1 H2]; auto.
      * intros [[-> | H1] H2]; [rewrite Ek in H2; discriminate | auto].
Qed.

(** Every call of [twoline2satrec] made by the catalog filter is on two
    lines of 69 characters. *)
Lemma keepSatellite_calls (tz now : Z) (sat : Sat) (l1 l2 : string) :
  In (CallTwoline2satrec l1 l2) (snd (keepSatellite tz now sat)) ->
  String.length l1 = 69%nat /\ String.length l2 = 69%nat.
Proof.
  unfold keepSatellite.
  destruct (tleInvalid (tle1 sat) (tle2 sat)) eqn:E.
  - cbn. intros [H | []]. discriminate.
  - apply tleInvalid_false in E as [E1 E2].
    apply lengthIs_true in E1 as (s1 & -> & L1).
    apply lengthIs_true in E2 as (s2 & -> & L2).
    assert (Hcall : forall l, (forall e, In e l ->
                      e = CallTwoline2satrec s1 s2 \/
                      (forall a b, e <> CallTwoline2satrec a b)) ->
                    In (CallTwoline2satrec l1 l2) l ->
                    String.length l1 = 69%nat /\ String.length l2 = 69%nat).
    { intros l Hl Hin. destruct (Hl _ Hin) as [Heq | Hne].
      - injection Heq as -> ->. auto.
      - exfalso. eapply Hne. reflexivity. }
    intros Hin. eapply Hcall; [| exact Hin].
    clear Hin Hcall. intros e He.
    repeat match type of He with
    | context [olderThan ?a ?b] => destruct (olderThan a b)
    | context [match twoline2satrec ?a ?b with _ => _ end] =>
        destruct (twoline2satrec a b)
    | context [satrecError ?r] => destruct (satrecError r)
    | context [match propagate ?a ?b with _ => _ end] =>
        destruct (propagate a b) as [[| ?] |]
    | context [positionOk ?f] => destruct (positionOk f)
    end;
    cbn in He;
    repeat (destruct He as [<- | He]; [first [left; reflexivity | right; discriminate] |]);
    destruct He.
Qed.

Lemma validSatellites_calls (tz now : Z) (data : list Sat) (l1 l2 : string) :
  In (CallTwoline2satrec l1 l2) (snd (validSatellites tz now data)) ->
  String.length l1 = 69%nat /\ String.length l2 = 69%nat.
Proof.
  induction data as [| s rest IH]; cbn [validSatellites].
  - intros [].
  - destruct (keepSatellite tz now s) as [keep log] eqn:Ek.
    destruct (validSatellites tz now rest) as [kept logs] eqn:Er.
    cbn [snd] in *. intros H. apply in_app_or in H as [H | H]; [| auto].
    apply (keepSatellite_calls tz now s). rewrite Ek. exact H.
Qed.

End TrackerFacts.

Lemma usableItems_lines (items : list (option SpaceTrackService.Item)) (s : Sat) :
  In s (SpaceTrackService.usableItems items) ->
  JsString.lengthIs (tle1 s) 69 = true /\ JsString.lengthIs (tle2 s) 69 = true.
Proof.
  induction items as [| [it |] rest IH]; cbn [SpaceTrackService.usableItems].
  - intros [].
  - destruct (SpaceTrackService.itemUsable (Some it)) eqn:E; [| exact IH].
    intros [<- | H]; [| auto].
    cbn in E. repeat (apply andb_prop in E as [E ?]). cbn. auto.
  - exact IH.
Qed.

(** C8: a record one of whose TLE lines is not exactly 69 characters long
    is rejected by the structural test of the catalog filter, with a
    warning as the only effect: no element record is built from it (the
    filter calls [twoline2satrec] on lines of 69 characters only), it is
    in no tracked set, and [parseSpaceTrackData] returns no such record. *)
Theorem malformed_tle_rejected_before_parsing :
  forall (lib : SatelliteJs) (tz now : Z) (sat : Sat),
    JsString.lengthIs (tle1 sat) 69 = false
    \/ JsString.lengthIs (tle2 sat) 69 = false ->
    keepSatellite tz now sat
    = (false, [ConsoleWarn ("Invalid TLE data for satellite " ++ name sat
                           ++ ", skipping.")])
    /\ (forall data : list Sat, ~ In sat (fst (validSatellites tz now data)))
    /\ (forall (data : list Sat) (l1 l2 : string),
          In (CallTwoline2satrec l1 l2) (snd (validSatellites tz now data)) ->
          String.length l1 = 69%nat /\ String.length l2 = 69%nat)
    /\ (forall data, ~ In sat (SpaceTrackService.parseSpaceTrackData data)).
Proof.
  intros lib tz now sat Hlen.
  pose proof (tleInvalid_of_length _ _ Hlen) as Hinv.
  split; [apply keepSatellite_invalid; exact Hinv |].
  split.
  { intros data Hin. apply validSatellites_In in Hin as [_ Hk].
    rewrite keepSatellite_invalid in Hk by exact Hinv. discriminate. }
  split; [intros data l1 l2; apply validSatellites_calls |].
  intros [items |] Hin; cbn in Hin; [| exact Hin].
  apply usableItems_lines in Hin as [H1 H2].
  destruct Hlen as [H | H]; congruence.
Qed.

Lemma malformed_tle_rejected_witness :
  keepSatellite (lib := Scripted.steady) 0 0 Scripted.truncated
  = (false, [ConsoleWarn "Invalid TLE data for satellite ISS (ZARYA), skipping."])
  /\ ~ In Scripted.truncated
         (fst (validSatellites (lib := Scripted.steady) 0 0
                 [Scripted.iss; Scripted.truncated])).
Proof.
  destruct (malformed_tle_rejected_before_parsing
              Scripted.steady 0 0 Scripted.truncated) as (H1 & H2 & _).
  - left. reflexivity.
  - split; [exact H1 | apply H2].
Defined.

(** ** Finiteness of produced positions *)

Section ProducerFacts.

Context {lib : SatelliteJs}.

Lemma groundTrackSample_finite (rec : satrec) (start i : Z)
    (points points' : list GroundTrackPoint) :
  Forall (fun p => allFinite (pointPosition p) = true) points ->
  groundTrackSample rec start i points = Ret points' ->
  Forall (fun p => allFinite (pointPosition p) = true) points'.
Proof.
  intros Hall. unfold groundTrackSample.
  destruct (propagate rec (start + i * 60000)) as [[| f] |]; cbn [bindO];
    try discriminate.
  destruct (positionOk f) as [p |]; [| intros [= <-]; exact Hall].
  destruct (geodeticOf p (start + i * 60000)) as [g |]; cbn [bindO];
    try discriminate.
  destruct (allFinite g) eqn:Eg; intros [= <-]; [| exact Hall].
  apply Forall_app. split; [exact Hall |]. constructor; [exact Eg | constructor].
Qed.

Lemma groundTrackLoop_finite (rec : satrec) (start : Z) (offsets : list Z) :
  forall points points',
    Forall (fun p => allFinite (pointPosition p) = true) points ->
    groundTrackLoop rec start offsets points = Ret points' ->
    Forall (fun p => allFinite (pointPosition p) = true) points'.
Proof.
  induction offsets as [| i rest IH]; intros points points' Hall; cbn [groundTrackLoop].
  - intros [= <-]. exact Hall.
  - destruct (groundTrackSample rec start i points) as [pts |] eqn:Es; cbn [bindO];
      try discriminate.
    apply IH. eapply groundTrackSample_finite; eauto.
Qed.

(** The ground-track sampler returns positions with finite components
    only. *)
Lemma calculateGroundTrack_finite (rec : satrec) (start durationMinutes : Z)
    (step : positive) (points : list GroundTrackPoint) :
  calculateGroundTrack rec start durationMinutes step = Ret points ->
  Forall (fun p => allFinite (pointPosition p) = true) points.
Proof.
  apply groundTrackLoop_finite. constructor.
Qed.

(** The pass-prediction scan uses positions with finite components only. *)
Lemma passSample_finite (rec : satrec) (observerLat observerLon : jsnum)
    (t : Z) (v : VisibilityResult) :
  passSample rec observerLat observerLon t = Ret (Some v) ->
  exists g, allFinite g = true
            /\ v = calculateVisibility (Some g) observerLat observerLon 0.
Proof.
  unfold passSample.
  destruct (propagate rec t) as [[| f] |]; cbn [bindO]; try discriminate.
  destruct (positionOk f) as [p |]; [| discriminate].
  destruct (geodeticOf p t) as [g |]; cbn [bindO]; try discriminate.
  destruct (negb (isFinite (latitude g)) || negb (isFinite (longitude g))
            || negb (isFinite (altitude g))) eqn:E; [discriminate |].
  intros [= <-]. exists g. split; [| reflexivity].
  apply orb_false_elim in E as [E E3]. apply orb_false_elim in E as [E1 E2].
  apply negb_false_iff in E1, E2, E3. unfold allFinite. now rewrite E1, E2, E3.
Qed.

End ProducerFacts.

(** C3: with a library whose propagation yields a position that is not a
    number, the batch worker hands that position on as it is, while the
    ground-track sampler and the pass-prediction scan, which test the
    three components with [isFinite], drop every sample. *)
Theorem postMessage_returns_nonfinite_position :
  fst (postMessage (lib := Scripted.broken) [Scripted.iss] 0)
  = [ {| posId := Some 25544; posName := "ISS (ZARYA)";
         posGeo := {| latitude := NaN; longitude := NaN; altitude := NaN |} |} ]
  /\ allFinite {| latitude := NaN; longitude := NaN; altitude := NaN |} = false
  /\ calculateGroundTrack (lib := Scripted.broken) Scripted.notANumber 0 180 2
     = Ret []
  /\ predictPasses (lib := Scripted.broken) Scripted.notANumber (Fin 0) (Fin 0)
       0 24 10
     = Ret [].
Proof.
  repeat split; vm_compute; reflexivity.
Qed.

(** ** The batch worker *)

Section WorkerFacts.

Context {lib : SatelliteJs}.

Lemma workerPositions_flat_map (t : Z) (satellites : list Sat) :
  fst (workerPositions t satellites)
  = flat_map (fun s => optList (fst (workerPosition t s))) satellites.
Proof.
  induction satellites as [| s rest IH]; cbn [workerPositions flat_map]; [reflexivity |].
  destruct (workerPosition t s) as [r log].
  destruct (workerPositions t rest) as [rs logs].
  cbn [fst] in *. rewrite <- IH. destruct r; reflexivity.
Qed.

Lemma workerPositions_log (t : Z) (satellites : list Sat) (sat : Sat) (e : Event) :
  In sat satellites ->
  In e (snd (workerPosition t sat)) ->
  In e (snd (workerPositions t satellites)).
Proof.
  induction satellites as [| s rest IH]; cbn [workerPositions In]; [tauto |].
  destruct (workerPosition t s) as [r log] eqn:Es.
  destruct (workerPositions t rest) as [rs logs].
  cbn [snd] in *. intros [-> | Hin] He; apply in_or_app.
  - left. rewrite Es in He. exact He.
  - right. auto.
Qed.

Lemma workerPosition_fails (t : Z) (sat : Sat) :
  propagationFails t sat -> fst (workerPosition t sat) = None.
Proof.
  intros (l1 & l2 & r & H1 & H2 & Hv & (rec & Ht & He & Hp) & Hr).
  unfold workerPosition. rewrite Hv, H1, H2, Ht, He, Hp.
  destruct r as [[| f] |]; try reflexivity.
  rewrite Hr. reflexivity.
Qed.

Lemma workerPosition_succeeds (t : Z) (sat : Sat) (g : GeodeticPosition) :
  propagationSucceeds t sat g ->
  fst (workerPosition t sat)
  = Some {| posId := id sat; posName := name sat; posGeo := g |}.
Proof.
  intros (l1 & l2 & f & p & H1 & H2 & Hv & (rec & Ht & He & Hp) & Hf & Hg).
  unfold workerPosition. rewrite Hv, H1, H2, Ht, He, Hp, Hf, Hg. reflexivity.
Qed.

Lemma workerPosition_logs_throw_or_null (t : Z) (sat : Sat) :
  propagationThrowsOrNull t sat ->
  exists e, isConsole e = true /\ In e (snd (workerPosition t sat)).
Proof.
  intros (l1 & l2 & r & H1 & H2 & Hv & (rec & Ht & He & Hp) & Hr).
  unfold workerPosition. rewrite Hv, H1, H2, Ht, He, Hp.
  destruct Hr as [-> | ->]; eexists; (split; [| cbn; right; right; left; reflexivity]);
    reflexivity.
Qed.

End WorkerFacts.

(** C9, as the code has it: the batch maps every satellite on its own, so
    the positions delivered are the concatenation of what each satellite
    yields; a satellite whose propagation fails yields nothing, and a
    satellite whose propagation succeeds has its position delivered,
    whatever happens to the others.  Nothing is counted.  A failure is
    logged on the console when the library throws or returns [null]. *)
Theorem postMessage_isolates_failures :
  forall (lib : SatelliteJs) (satellites : list Sat) (t : Z),
    fst (postMessage satellites t)
    = flat_map (fun s => optList (fst (workerPosition t s))) satellites
    /\ (forall sat, propagationFails t sat -> fst (workerPosition t sat) = None)
    /\ (forall sat g,
          In sat satellites -> propagationSucceeds t sat g ->
          In {| posId := id sat; posName := name sat; posGeo := g |}
             (fst (postMessage satellites t)))
    /\ (forall sat,
          In sat satellites -> propagationThrowsOrNull t sat ->
          exists e, isConsole e = true /\ In e (snd (postMessage satellites t))).
Proof.
  intros lib satellites t. unfold postMessage.
  split; [apply workerPositions_flat_map |].
  split; [intros sat; apply workerPosition_fails |].
  split.
  - intros sat g Hin Hs. rewrite workerPositions_flat_map.
    apply in_flat_map. exists sat. split; [exact Hin |].
    rewrite (workerPosition_succeeds t sat g Hs). left. reflexivity.
  - intros sat Hin Hf.
    destruct (workerPosition_logs_throw_or_null t sat Hf) as (e & He & Hine).
    exists e. split; [exact He |]. eapply workerPositions_log; eauto.
Qed.

Lemma iss_fails_when_decayed :
  propagationFails (lib := Scripted.issDecayed) 0 Scripted.iss.
Proof.
  exists Scripted.issLine1, Scripted.issLine2, (Ret (PV PosFalsy)).
  repeat split.
  exists Scripted.decayed. repeat split.
Qed.

Lemma iss_null_when_vanished :
  propagationThrowsOrNull (lib := Scripted.issVanished) 0 Scripted.iss.
Proof.
  exists Scripted.issLine1, Scripted.issLine2, (Ret PVNull).
  repeat split; [| right; reflexivity].
  exists Scripted.vanished. repeat split.
Qed.

Lemma hst_succeeds_when_iss_decayed :
  propagationSucceeds (lib := Scripted.issDecayed) 0 Scripted.hst
    Scripted.overOriginPosition.
Proof.
  exists Scripted.hstLine1, Scripted.hstLine2,
    (PosObject (Geodetic.make (Fin 0) (Fin 0) (Fin 400)) false),
    (Geodetic.make (Fin 0) (Fin 0) (Fin 400)).
  repeat split.
  exists Scripted.overOrigin. repeat split.
Qed.

Lemma postMessage_isolates_failures_witness :
  fst (workerPosition (lib := Scripted.issDecayed) 0 Scripted.iss) = None
  /\ In Scripted.hstPosition
        (fst (postMessage (lib := Scripted.issDecayed)
                [Scripted.iss; Scripted.hst] 0))
  /\ (exists e, isConsole e = true
                /\ In e (snd (postMessage (lib := Scripted.issVanished)
                                [Scripted.iss; Scripted.hst] 0))).
Proof.
  destruct (postMessage_isolates_failures Scripted.issDecayed
              [Scripted.iss; Scripted.hst] 0) as (_ & Hfail & Hok & _).
  destruct (postMessage_isolates_failures Scripted.issVanished
              [Scripted.iss; Scripted.hst] 0) as (_ & _ & _ & Hlog).
  split; [apply Hfail; exact iss_fails_when_decayed |].
  split.
  - apply (Hok Scripted.hst Scripted.overOriginPosition).
    + right. left. reflexivity.
    + exact hst_succeeds_when_iss_decayed.
  - apply (Hlog Scripted.iss).
    + left. reflexivity.
    + exact iss_null_when_vanished.
Defined.

(** C9, the claim as stated, fails: the propagation of the first of two
    satellites yields a result without a position; the satellite is left
    out and the other one is delivered, but nothing is written to the
    console and the message carries positions only, so the failure is
    neither reported nor counted. *)
Lemma propagation_failure_not_reported :
  propagationFails (lib := Scripted.issDecayed) 0 Scripted.iss
  /\ postMessage (lib := Scripted.issDecayed) [Scripted.iss; Scripted.hst] 0
     = ([Scripted.hstPosition],
        [CallTwoline2satrec Scripted.issLine1 Scripted.issLine2; CallPropagate 0;
         CallTwoline2satrec Scripted.hstLine1 Scripted.hstLine2; CallPropagate 0])
  /\ existsb isConsole
       (snd (postMessage (lib := Scripted.issDecayed)
               [Scripted.iss; Scripted.hst] 0)) = false.
Proof.
  split; [exact iss_fails_when_decayed |].
  split; reflexivity.
Qed.

(** ** Catalog freshness filter *)

Section FilterFacts.

Context {lib : SatelliteJs}.

Lemma keepSatellite_old (tz now : Z) (sat : Sat) (l1 l2 : string) :
  tle1 sat = Some l1 -> tle2 sat = Some l2 ->
  olderThan 60 (tleAgeDays now (parseTLEEpoch tz l1)) = true ->
  fst (keepSatellite tz now sat) = false.
Proof.
  intros H1 H2 Hold. unfold keepSatellite.
  destruct (tleInvalid (tle1 sat) (tle2 sat)); [reflexivity |].
  rewrite H1, H2, Hold. reflexivity.
Qed.

Lemma keepSatellite_fresh (tz now : Z) (sat : Sat) (l1 l2 : string) :
  tle1 sat = Some l1 -> tle2 sat = Some l2 ->
  tleInvalid (tle1 sat) (tle2 sat) = false ->
  olderThan 60 (tleAgeDays now (parseTLEEpoch tz l1)) = false ->
  trialPropagates l1 l2 now ->
  keepSatellite tz now sat = (true, [CallTwoline2satrec l1 l2; CallPropagate now]).
Proof.
  intros H1 H2 Hv Hfresh (f & p & (rec & Ht & He & Hp) & Hf).
  unfold keepSatellite. rewrite Hv, H1, H2, Hfresh, Ht, He, Hp, Hf. reflexivity.
Qed.

End FilterFacts.

(** *** The epoch as the line encodes it *)

Lemma olderThan_60_iff (now e : Z) :
  olderThan 60 (tleAgeDays now (Some e)) = true <-> 60 * JsDate.msPerDay < now - e.
Proof.
  unfold olderThan, tleAgeDays. rewrite negb_true_iff.
  rewrite <- not_true_iff_false, Qle_bool_iff.
  change (1000 * 60 * 60 * 24) with 86400000. unfold JsDate.msPerDay.
  unfold Qle, Qdiv, Qmult, Qinv, inject_Z. cbn.
  split; intros H; lia.
Qed.

Lemma Qtrunc_nonneg (q : Q) :
  (0 <= q)%Q ->
  (inject_Z (JsString.Qtrunc q) <= q)%Q /\ (q < inject_Z (JsString.Qtrunc q + 1))%Q.
Proof.
  intros Hq. unfold JsString.Qtrunc.
  apply Qle_bool_iff in Hq. rewrite Hq.
  split; [apply Qfloor_le | apply Qlt_floor].
Qed.

Ltac push_inject_Z :=
  unfold Z.sub;
  repeat (rewrite inject_Z_plus || rewrite inject_Z_mult || rewrite inject_Z_opp).

(** The instant decoded is the instant encoded, less the fraction of the
    day and less the offset of the local zone: seen from [now], it lies
    between [days] and [days + 1] days back, plus the offset. *)
Lemma decoded_epoch_lag (days now fullYear n tz : Z) (q : Q) :
  (inject_Z now - encodedEpoch fullYear q
   == inject_Z days * inject_Z JsDate.msPerDay)%Q ->
  (inject_Z n <= q)%Q -> (q < inject_Z (n + 1))%Q ->
  days * JsDate.msPerDay + tz
  <= now - (JsDate.TimeFromYear fullYear + (n - 1) * JsDate.msPerDay - tz)
  < (days + 1) * JsDate.msPerDay + tz.
Proof.
  unfold encodedEpoch. generalize (JsDate.TimeFromYear fullYear). intros tfy.
  unfold JsDate.msPerDay. intros H Hn Hn1.
  rewrite inject_Z_plus in Hn1.
  change (inject_Z 86400000) with (86400000 # 1)%Q in *.
  change (inject_Z 1) with 1%Q in *.
  split.
  - rewrite Zle_Qle. push_inject_Z.
    change (inject_Z 86400000) with (86400000 # 1)%Q.
    change (inject_Z 1) with 1%Q.
    Lqa.lra.
  - rewrite Zlt_Qlt. push_inject_Z.
    change (inject_Z 86400000) with (86400000 # 1)%Q.
    change (inject_Z 1) with 1%Q.
    Lqa.lra.
Qed.

(** Seen from [now], the instant decoded lies further back than the
    instant encoded by the fraction of the day and by the offset of the
    local zone. *)
Lemma decoded_epoch_age (days now fullYear n tz : Z) (q : Q) :
  (inject_Z now - encodedEpoch fullYear q
   == inject_Z days * inject_Z JsDate.msPerDay)%Q ->
  (inject_Z (now - (JsDate.TimeFromYear fullYear + (n - 1) * JsDate.msPerDay - tz))
   == inject_Z days * inject_Z JsDate.msPerDay
      + (q - inject_Z n) * inject_Z JsDate.msPerDay + inject_Z tz)%Q.
Proof.
  unfold encodedEpoch. generalize (JsDate.TimeFromYear fullYear). intros tfy.
  unfold JsDate.msPerDay. intros H.
  push_inject_Z.
  change (inject_Z 86400000) with (86400000 # 1)%Q in *.
  change (inject_Z 1) with 1%Q in *.
  Lqa.lra.
Qed.

Section EncodedEpoch.

Context {lib : SatelliteJs}.
Variables (tz now : Z) (sat : Sat) (l1 l2 : string) (y fullYear : Z) (q : Q).

Hypothesis Hl1 : tle1 sat = Some l1.
Hypothesis Hl2 : tle2 sat = Some l2.
Hypothesis Hvalid : tleInvalid (tle1 sat) (tle2 sat) = false.
Hypothesis Hyear :
  JsString.parseInt
    (JsString.substring 0 2 (JsString.trim (JsString.substring 18 32 l1)))
  = Some y.
Hypothesis Hy : 0 <= y <= 99.
Hypothesis Hfull : fullYearOf (Some y) = Some fullYear.
Hypothesis Hday :
  JsString.parseFloat
    (JsString.substringFrom 2 (JsString.trim (JsString.substring 18 32 l1)))
  = JsString.DFin q.
Hypothesis Hq : (0 <= q)%Q.
Hypothesis Hnow : Z.abs now <= 8000000000000000.
Hypothesis Htz : - 43200000 <= tz <= 50400000.

Lemma decoded_epoch_of_encoded (days : Z) :
  0 <= days <= 100 ->
  (inject_Z now - encodedEpoch fullYear q
   == inject_Z days * inject_Z JsDate.msPerDay)%Q ->
  exists e,
    parseTLEEpoch tz l1 = Some e
    /\ days * JsDate.msPerDay + tz <= now - e < (days + 1) * JsDate.msPerDay + tz.
Proof.
  intros Hdays Henc.
  destruct (parseTLEEpoch_whole_days tz l1 y q Hyear Hy Hday) as (f & Hf & Hdec).
  { unfold JsDate.msPerDay. lia. }
  rewrite Hfull in Hf. injection Hf as <-.
  set (n := JsString.Qtrunc (inject_Z 1 + q + - (1))) in *.
  assert (Hq' : (0 <= inject_Z 1 + q + - (1))%Q)
    by (change (inject_Z 1) with 1%Q; Lqa.lra).
  destruct (Qtrunc_nonneg _ Hq') as [Hn Hn1]. fold n in Hn, Hn1.
  assert (Hn' : (inject_Z n <= q)%Q)
    by (change (inject_Z 1) with 1%Q in Hn; Lqa.lra).
  assert (Hn1' : (q < inject_Z (n + 1))%Q)
    by (change (inject_Z 1) with 1%Q in Hn1 at 1; Lqa.lra).
  pose proof (decoded_epoch_lag days now fullYear n tz q Henc Hn' Hn1') as Hlag.
  exists (JsDate.TimeFromYear fullYear + (n - 1) * JsDate.msPerDay - tz).
  split; [| exact Hlag].
  rewrite Hdec. apply TimeClip_small. unfold JsDate.UTC.
  unfold JsDate.msPerDay in *. lia.
Qed.

(** An element set whose encoded epoch is 61 days before [now] is
    rejected, whatever the local zone. *)
Lemma stale_encoded_epoch_rejected :
  (inject_Z now - encodedEpoch fullYear q == inject_Z 61 * inject_Z JsDate.msPerDay)%Q ->
  fst (keepSatellite tz now sat) = false.
Proof.
  intros Henc.
  destruct (decoded_epoch_of_encoded 61 ltac:(lia) Henc) as (e & He & Hlag).
  apply (keepSatellite_old tz now sat l1 l2 Hl1 Hl2).
  rewrite He. apply olderThan_60_iff. unfold JsDate.msPerDay in *. lia.
Qed.

(** An element set whose encoded epoch is 59 days before [now] and which
    passes the trial propagation is kept when the local zone is UTC or
    west of it. *)
Lemma fresh_encoded_epoch_kept :
  tz <= 0 ->
  (inject_Z now - encodedEpoch fullYear q == inject_Z 59 * inject_Z JsDate.msPerDay)%Q ->
  trialPropagates l1 l2 now ->
  fst (keepSatellite tz now sat) = true.
Proof.
  intros Hwest Henc Htrial.
  destruct (decoded_epoch_of_encoded 59 ltac:(lia) Henc) as (e & He & Hlag).
  rewrite (keepSatellite_fresh tz now sat l1 l2 Hl1 Hl2 Hvalid); [reflexivity | | exact Htrial].
  rewrite He. apply not_true_iff_false. rewrite olderThan_60_iff.
  unfold JsDate.msPerDay in *. lia.
Qed.

(** An element set whose encoded epoch is 59 days before [now] is
    rejected as over 60 days old when the fraction of the day in its
    epoch field and the offset of the local zone east of UTC add up to
    more than a day. *)
Lemma fresh_encoded_epoch_rejected_east :
  (inject_Z now - encodedEpoch fullYear q == inject_Z 59 * inject_Z JsDate.msPerDay)%Q ->
  (inject_Z JsDate.msPerDay
   < (q - inject_Z (Qfloor q)) * inject_Z JsDate.msPerDay + inject_Z tz)%Q ->
  keepSatellite tz now sat
  = (false, [ConsoleWarn ("TLE for satellite " ++ name sat
                          ++ " is over 60 days old, skipping.")]).
Proof.
  intros Henc Heast.
  destruct (parseTLEEpoch_whole_days tz l1 y q Hyear Hy Hday) as (f & Hf & Hdec).
  { unfold JsDate.msPerDay. lia. }
  rewrite Hfull in Hf. injection Hf as <-.
  assert (Hn : JsString.Qtrunc (inject_Z 1 + q + - (1)) = Qfloor q).
  { unfold JsString.Qtrunc.
    assert (Hq' : (inject_Z 1 + q + - (1) == q)%Q)
      by (change (inject_Z 1) with 1%Q; Lqa.lra).
    assert (H0 : Qle_bool 0 (inject_Z 1 + q + - (1)) = true)
      by (apply Qle_bool_iff; rewrite Hq'; exact Hq).
    rewrite H0. apply Qfloor_comp. exact Hq'. }
  rewrite Hn in Hdec.
  pose proof (decoded_epoch_age 59 now fullYear (Qfloor q) tz q Henc) as Hage.
  pose proof (Qfloor_le q) as Hfl. pose proof (Qlt_floor q) as Hfl1.
  assert (Hlag : 60 * JsDate.msPerDay
                 < now - (JsDate.TimeFromYear fullYear
                          + (Qfloor q - 1) * JsDate.msPerDay - tz)).
  { rewrite Zlt_Qlt. rewrite Hage. push_inject_Z.
    unfold JsDate.msPerDay in *.
    change (inject_Z 86400000) with (86400000 # 1)%Q in *.
    change (inject_Z 60) with 60%Q. change (inject_Z 59) with 59%Q.
    Lqa.lra. }
  assert (Hlag' : now - (JsDate.TimeFromYear fullYear
                         + (Qfloor q - 1) * JsDate.msPerDay - tz)
                  < 60 * JsDate.msPerDay + tz).
  { rewrite Zlt_Qlt. rewrite Hage. push_inject_Z.
    unfold JsDate.msPerDay in *.
    change (inject_Z 86400000) with (86400000 # 1)%Q in *.
    change (inject_Z 60) with 60%Q. change (inject_Z 59) with 59%Q.
    change (inject_Z 1) with 1%Q in Hfl1.
    rewrite inject_Z_plus in Hfl1. change (inject_Z 1) with 1%Q in Hfl1.
    Lqa.lra. }
  assert (He : parseTLEEpoch tz l1
               = Some (JsDate.TimeFromYear fullYear
                       + (Qfloor q - 1) * JsDate.msPerDay - tz)).
  { rewrite Hdec. apply TimeClip_small. unfold JsDate.UTC.
    unfold JsDate.msPerDay in *. lia. }
  unfold keepSatellite. rewrite Hvalid, Hl1, Hl2, He.
  apply olderThan_60_iff in Hlag. rewrite Hlag. reflexivity.
Qed.

End EncodedEpoch.

(** The two lemmas at work on the sample line, whose field
    "24045.50000000" encodes 2024-02-14 12:00:00 UTC, in the zone UTC. *)
Example encoded_epoch_iss :
  fst (keepSatellite (lib := Scripted.steady) 0 1713182400000 Scripted.iss) = false
  /\ fst (keepSatellite (lib := Scripted.steady) 0 1713009600000 Scripted.iss) = true.
Proof.
  split.
  - apply (stale_encoded_epoch_rejected 0 1713182400000 Scripted.iss
             Scripted.issLine1 Scripted.issLine2 24 2024 (4550000000 # 100000000));
      try reflexivity; try (vm_compute; congruence); try lia.
  - apply (fresh_encoded_epoch_kept 0 1713009600000 Scripted.iss
             Scripted.issLine1 Scripted.issLine2 24 2024 (4550000000 # 100000000));
      try reflexivity; try (vm_compute; congruence); try lia.
    exists (PosObject (Geodetic.make (Fin 0) (Fin 0) (Fin 400)) false),
      (Geodetic.make (Fin 0) (Fin 0) (Fin 400)).
    split; [| reflexivity]. exists Scripted.overOrigin. repeat split.
Qed.

Lemma steady_trial (l1 l2 : string) (t : Z) :
  trialPropagates (lib := Scripted.steady) l1 l2 t.
Proof.
  exists (PosObject (Geodetic.make (Fin 0) (Fin 0) (Fin 400)) false),
    (Geodetic.make (Fin 0) (Fin 0) (Fin 400)).
  split; [| reflexivity]. exists Scripted.overOrigin. repeat split.
Qed.

(** C7, the claim as stated, fails for the second half.  The epoch field
    of the sample set reads year 24, day 45.5, that is 2024-02-14
    12:00:00 UTC; at the instant exactly 59 days later the set passes the
    trial propagation and the filter keeps it on a machine whose zone is
    UTC, but on a machine in the zone UTC+13 the epoch is decoded as
    local midnight, 2024-02-13 11:00:00 UTC, and the filter rejects the
    set as over 60 days old.  The same happens one hour east of UTC to a
    set whose epoch falls late in the day (day 45.97). *)
Theorem freshness_filter_rejects_59_day_old_epoch :
  (JsString.parseInt
     (JsString.substring 0 2
        (JsString.trim (JsString.substring 18 32 Scripted.issLine1))) = Some 24
   /\ JsString.parseFloat
        (JsString.substringFrom 2
           (JsString.trim (JsString.substring 18 32 Scripted.issLine1)))
      = JsString.DFin day45Noon
   /\ (inject_Z noonPlus59Days - encodedEpoch 2024 day45Noon
       == inject_Z 59 * inject_Z JsDate.msPerDay)%Q
   /\ trialPropagates (lib := Scripted.steady) Scripted.issLine1 Scripted.issLine2
        noonPlus59Days
   /\ parseTLEEpoch utcPlus13 Scripted.issLine1 = Some 1707822000000
   /\ keepSatellite (lib := Scripted.steady) utcPlus13 noonPlus59Days Scripted.iss
      = (false,
         [ConsoleWarn
            "TLE for satellite ISS (ZARYA) is over 60 days old, skipping."%string])
   /\ ~ In Scripted.iss
          (fst (validSatellites (lib := Scripted.steady) utcPlus13 noonPlus59Days
                  [Scripted.hst; Scripted.iss]))
   /\ fst (keepSatellite (lib := Scripted.steady) 0 noonPlus59Days Scripted.iss)
      = true)
  /\ (JsString.parseFloat
        (JsString.substringFrom 2
           (JsString.trim (JsString.substring 18 32 eveningLine1)))
      = JsString.DFin day45Evening
      /\ (inject_Z eveningPlus59Days - encodedEpoch 2024 day45Evening
          == inject_Z 59 * inject_Z JsDate.msPerDay)%Q
      /\ trialPropagates (lib := Scripted.steady) eveningLine1 Scripted.issLine2
           eveningPlus59Days
      /\ parseTLEEpoch utcPlus1 eveningLine1 = Some 1707865200000
      /\ fst (keepSatellite (lib := Scripted.steady) utcPlus1 eveningPlus59Days
                issEvening)
         = false
      /\ fst (keepSatellite (lib := Scripted.steady) 0 eveningPlus59Days issEvening)
         = true).
Proof.
  assert (Hnoon : keepSatellite (lib := Scripted.steady) utcPlus13 noonPlus59Days
                    Scripted.iss
                  = (false,
                     [ConsoleWarn
                        "TLE for satellite ISS (ZARYA) is over 60 days old, skipping."%string])).
  { apply (fresh_encoded_epoch_rejected_east utcPlus13 noonPlus59Days Scripted.iss
             Scripted.issLine1 Scripted.issLine2 24 2024 day45Noon).
    + reflexivity.
    + reflexivity.
    + reflexivity.
    + vm_compute. reflexivity.
    + lia.
    + reflexivity.
    + vm_compute. reflexivity.
    + vm_compute. discriminate.
    + vm_compute. discriminate.
    + vm_compute. split; discriminate.
    + vm_compute. reflexivity.
    + vm_compute. reflexivity. }
  assert (Hevening : keepSatellite (lib := Scripted.steady) utcPlus1
                       eveningPlus59Days issEvening
                     = (false,
                        [ConsoleWarn
                           "TLE for satellite ISS (ZARYA) is over 60 days old, skipping."%string])).
  { apply (fresh_encoded_epoch_rejected_east utcPlus1 eveningPlus59Days issEvening
             eveningLine1 Scripted.issLine2 24 2024 day45Evening).
    + reflexivity.
    + reflexivity.
    + reflexivity.
    + vm_compute. reflexivity.
    + lia.
    + reflexivity.
    + vm_compute. reflexivity.
    + vm_compute. discriminate.
    + vm_compute. discriminate.
    + vm_compute. split; discriminate.
    + vm_compute. reflexivity.
    + vm_compute. reflexivity. }
  split.
  - split; [vm_compute; reflexivity |].
    split; [vm_compute; reflexivity |].
    split; [vm_compute; reflexivity |].
    split; [apply steady_trial |].
    split; [vm_compute; reflexivity |].
    split; [exact Hnoon |].
    split.
    + intros Hin.
      apply (proj1 (validSatellites_In utcPlus13 noonPlus59Days
                      [Scripted.hst; Scripted.iss] Scripted.iss)) in Hin.
      destruct Hin as [_ Hk]. rewrite Hnoon in Hk. discriminate.
    + vm_compute. reflexivity.
  - split; [vm_compute; reflexivity |].
    split; [vm_compute; reflexivity |].
    split; [apply steady_trial |].
    split; [vm_compute; reflexivity |].
    split; [rewrite Hevening; reflexivity |].
    vm_compute. reflexivity.
Qed.

(** ** The scan of the pass predictor *)

Section ScanFacts.

Context {lib : SatelliteJs}.
Variables (rec : satrec) (observerLat observerLon : jsnum).
Variables (scanStart : Z) (minElevation : R).

#[local] Abbreviation elev := (elevAt rec observerLat observerLon scanStart).
#[local] Abbreviation lastValid :=
  (lastValidBefore rec observerLat observerLon scanStart).
#[local] Abbreviation spec :=
  (passSpec rec observerLat observerLon scanStart minElevation).
#[local] Abbreviation invariant :=
  (scanInvariant rec observerLat observerLon scanStart minElevation).
#[local] Abbreviation sample :=
  (scanSample rec observerLat observerLon scanStart minElevation).
#[local] Abbreviation loop :=
  (scanLoop rec observerLat observerLon scanStart minElevation).

Lemma passStep_idle (t : Z) (v : VisibilityResult) (st : ScanState) :
  inPass st = false -> (elevation v <= minElevation)%R ->
  passStep minElevation t v st = Ret st.
Proof.
  intros Hin Hle. unfold passStep. rewrite Hin. cbn [negb andb].
  apply Rgtb_false_iff in Hle. rewrite Hle. rewrite Hin. cbn [bindO]. rewrite Hin.
  reflexivity.
Qed.

Lemma passStep_open (t : Z) (v : VisibilityResult) (st : ScanState) :
  inPass st = false -> (elevation v > minElevation)%R ->
  passStep minElevation t v st
  = Ret {| passes := passes st; inPass := true;
           currentPass := Some (openPass t v) |}.
Proof.
  intros Hin Hgt. unfold passStep. rewrite Hin. cbn [negb andb].
  pose proof (proj2 (Rgtb_true_iff _ _) Hgt) as Hg. rewrite Hg.
  cbn [inPass currentPass openPass maxElevation].
  assert (Hmax : Rgtb (elevation v) (elevation v) = false)
    by (apply Rgtb_false_iff; lra).
  rewrite Hmax. cbn [bindO inPass andb].
  assert (Hlt : Rltb (elevation v) minElevation = false)
    by (apply Rltb_false_iff; lra).
  rewrite Hlt. reflexivity.
Qed.

Lemma passStep_inside (t : Z) (v : VisibilityResult) (st : ScanState) (cp : Pass) :
  inPass st = true -> currentPass st = Some cp ->
  exists cp',
    (cp' = cp \/ (cp' = raiseMax t v cp /\ (elevation v > maxElevation cp)%R))
    /\ (maxElevation cp' >= maxElevation cp)%R
    /\ passStep minElevation t v st
       = if Rltb (elevation v) minElevation
         then Ret {| passes := passes st ++ [closePass t v cp'];
                     inPass := false; currentPass := None |}
         else Ret {| passes := passes st; inPass := true;
                     currentPass := Some cp' |}.
Proof.
  intros Hin Hcp. unfold passStep. rewrite Hin. cbn [negb andb]. rewrite Hin, Hcp.
  destruct (Rgtb (elevation v) (maxElevation cp)) eqn:Hmax; cbn [bindO inPass andb currentPass passes].
  - exists (raiseMax t v cp). split; [right; split; [reflexivity | now apply Rgtb_true_iff] |].
    split; [cbn; apply Rgtb_true_iff in Hmax; lra |].
    reflexivity.
  - exists cp. split; [left; reflexivity |]. split; [lra |].
    rewrite Hin, Hcp. destruct st as [ps ip c]. cbn in *. subst. reflexivity.
Qed.

Lemma lastValidBefore_skip (P : R -> Prop) (k : Z) :
  elev k = None -> lastValid P k -> lastValid P (k + 1).
Proof.
  intros Hk H j e Hj He Hl.
  assert (j <> k) by (intros ->; congruence).
  apply (H j e); [lia | exact He |]. intros l Hjl. apply Hl. lia.
Qed.

Lemma lastValidBefore_hit (P : R -> Prop) (k : Z) (e : R) :
  elev k = Some e -> P e -> lastValid P (k + 1).
Proof.
  intros Hk HP j e' Hj He Hl.
  destruct (Z.eq_dec j k) as [-> | Hne].
  - congruence.
  - rewrite (Hl k) in Hk by lia. discriminate.
Qed.

Lemma passSpec_mono (k : Z) (p : Pass) : spec k p -> spec (k + 1) p.
Proof.
  intros (s & e & (H0 & H1 & H2 & H3) & Hc). exists s, e.
  split; [| exact Hc]. repeat split; try tauto; lia.
Qed.

Lemma passSpec_endsBefore (k : Z) (p : Pass) :
  spec k p -> endsBefore (sampleTime scanStart k) p.
Proof.
  intros (s & e & (H0 & H1 & H2 & H3 & H4 & H5) & Hc).
  exists (sampleTime scanStart e). split; [exact H4 |]. unfold sampleTime. lia.
Qed.

Lemma StronglySorted_snoc {A : Type} (R : A -> A -> Prop) (l : list A) (x : A) :
  StronglySorted R l -> Forall (fun y => R y x) l -> StronglySorted R (l ++ [x]).
Proof.
  induction 1 as [| a l Hs IH Ha]; intros Hall; cbn.
  - constructor; constructor.
  - inversion Hall as [| ? ? Hax Hl]; subst.
    constructor; [apply IH; exact Hl |].
    apply Forall_app. split; [exact Ha | constructor; [exact Hax | constructor]].
Qed.

Lemma duration_minutes (s e : Z) :
  (IZR (sampleTime scanStart e - sampleTime scanStart s) / 60000)%R = IZR (e - s).
Proof.
  unfold sampleTime.
  replace (scanStart + e * 60000 - (scanStart + s * 60000)) with ((e - s) * 60000) by lia.
  rewrite mult_IZR. field.
Qed.

Lemma scanSample_invariant (k : Z) (st st' : ScanState) :
  invariant k st -> sample k st = Ret st' -> invariant (k + 1) st'.
Proof.
  intros (Hk & Hps & Hsorted & Hstate). unfold scanSample.
  destruct (passSample rec observerLat observerLon (sampleTime scanStart k))
    as [[v |] |] eqn:Hs; cbn [bindO]; try discriminate.
  - (* a valid sample *)
    assert (He : elev k = Some (elevation v)).
    { unfold elevAt, elevationAt. rewrite Hs. reflexivity. }
    destruct (inPass st) eqn:Hin.
    + destruct Hstate as (cp & Hcp & s & Hs0 & Hsk & Hstart & Hend & Hes & Hmax & Hlow & Hhigh & Hbefore).
      destruct (passStep_inside (sampleTime scanStart k) v st cp Hin Hcp)
        as (cp' & Hcp' & Hmax' & ->).
      assert (Hstart' : startTime cp' = sampleTime scanStart s)
        by (destruct Hcp' as [-> | [-> _]]; exact Hstart).
      assert (Hend' : endTime cp' = None)
        by (destruct Hcp' as [-> | [-> _]]; exact Hend).
      destruct (Rltb (elevation v) minElevation) eqn:Hlt; intros [= <-].
      * (* the pass is closed *)
        apply Rltb_true_iff in Hlt.
        split; [lia |]. cbn [passes inPass currentPass].
        split; [| split; [| split; [reflexivity |]]].
        -- apply Forall_app. split.
           ++ eapply Forall_impl; [| exact Hps]. intros p. apply passSpec_mono.
           ++ constructor; [| constructor]. exists s, k. split.
              ** repeat split; try lia; cbn [closePass startTime endTime duration];
                   try assumption; try reflexivity.
                 rewrite Hstart'. rewrite duration_minutes. reflexivity.
              ** repeat split; try assumption.
                 --- exists (elevation v). split; [exact He | exact Hlt].
                 --- cbn [closePass maxElevation]. lra.
        -- apply StronglySorted_snoc; [exact Hsorted |].
           cbn [closePass startTime]. rewrite Hstart', <- Hstart. exact Hbefore.
        -- eapply lastValidBefore_hit; [exact He |]. cbn. lra.
      * (* the pass goes on *)
        apply Rltb_false_iff in Hlt.
        split; [lia |]. cbn [passes inPass currentPass].
        split; [eapply Forall_impl; [| exact Hps]; intros p; apply passSpec_mono |].
        split; [exact Hsorted |].
        exists cp'. split; [reflexivity |]. exists s.
        repeat split; try assumption; try lia.
        -- lra.
        -- eapply lastValidBefore_hit; [exact He |]. cbn. lra.
        -- cbn [passes]. rewrite Hstart', <- Hstart. exact Hbefore.
    + destruct Hstate as (Hnone & Hlow).
      destruct (Rle_dec (elevation v) minElevation) as [Hle | Hgt].
      * rewrite passStep_idle by assumption. intros [= <-].
        split; [lia |].
        split; [eapply Forall_impl; [| exact Hps]; intros p; apply passSpec_mono |].
        split; [exact Hsorted |]. rewrite Hin. split; [exact Hnone |].
        eapply lastValidBefore_hit; [exact He |]. cbn. exact Hle.
      * assert (Hgt' : (elevation v > minElevation)%R) by lra.
        rewrite passStep_open by assumption. intros [= <-].
        split; [lia |]. cbn [passes inPass currentPass].
        split; [eapply Forall_impl; [| exact Hps]; intros p; apply passSpec_mono |].
        split; [exact Hsorted |].
        eexists. split; [reflexivity |]. exists k.
        cbn [openPass startTime endTime maxElevation passes].
        repeat split; try assumption; try lia.
        -- exists (elevation v). split; [exact He | exact Hgt'].
        -- eapply lastValidBefore_hit; [exact He |]. cbn. lra.
        -- eapply Forall_impl; [| exact Hps]. intros p. apply passSpec_endsBefore.
  - (* a skipped sample *)
    assert (He : elev k = None).
    { unfold elevAt, elevationAt. rewrite Hs. reflexivity. }
    intros [= <-]. split; [lia |].
    split; [eapply Forall_impl; [| exact Hps]; intros p; apply passSpec_mono |].
    split; [exact Hsorted |].
    destruct (inPass st).
    + destruct Hstate as (cp & Hcp & s & Hs0 & Hsk & Hstart & Hend & Hes & Hmax & Hlow & Hhigh & Hbefore).
      exists cp. split; [exact Hcp |]. exists s.
      repeat split; try assumption; try lia.
      apply lastValidBefore_skip; assumption.
    + destruct Hstate as (Hnone & Hlow). split; [exact Hnone |].
      apply lastValidBefore_skip; assumption.
Qed.

Lemma scanLoop_invariant (n : nat) :
  forall (k : Z) (st st' : ScanState),
    invariant k st -> loop n k st = Ret st' -> invariant (k + Z.of_nat n) st'.
Proof.
  induction n as [| n IH]; intros k st st' Hinv; cbn [scanLoop].
  - intros [= <-]. now rewrite Z.add_0_r.
  - destruct (sample k st) as [st1 |] eqn:Hs; cbn [bindO]; try discriminate.
    intros Hloop. replace (k + Z.of_nat (S n)) with (k + 1 + Z.of_nat n) by lia.
    eapply IH; [| exact Hloop]. eapply scanSample_invariant; eauto.
Qed.

Lemma scanInvariant_initial : invariant 0 initialScan.
Proof.
  split; [lia |]. cbn. split; [constructor |]. split; [constructor |].
  split; [reflexivity |]. intros j e Hj. lia.
Qed.

Lemma predictPassesScan_invariant (hours : Z) (st : ScanState) :
  predictPassesScan rec observerLat observerLon scanStart hours minElevation = Ret st ->
  invariant (Z.of_nat (Z.to_nat (hours * 60))) st.
Proof.
  unfold predictPassesScan. intros H.
  apply (scanLoop_invariant _ 0 initialScan st scanInvariant_initial H).
Qed.

Lemma predictPasses_scan (hours : Z) (ps : list Pass) :
  predictPasses rec observerLat observerLon scanStart hours minElevation = Ret ps ->
  exists st,
    predictPassesScan rec observerLat observerLon scanStart hours minElevation = Ret st
    /\ ps = passes st.
Proof.
  unfold predictPasses.
  destruct (predictPassesScan rec observerLat observerLon scanStart hours minElevation)
    as [st |]; cbn [bindO]; [| discriminate].
  intros [= <-]. exists st. auto.
Qed.

(** The scan does not throw unless a library call does. *)
Lemma scanSample_returns (k : Z) (st : ScanState) :
  invariant k st ->
  passSample rec observerLat observerLon (sampleTime scanStart k) <> Throw ->
  exists st', sample k st = Ret st'.
Proof.
  intros (_ & _ & _ & Hstate) Hs. unfold scanSample.
  destruct (passSample rec observerLat observerLon (sampleTime scanStart k))
    as [[v |] |]; cbn [bindO]; [| eauto | congruence].
  destruct (inPass st) eqn:Hin.
  - destruct Hstate as (cp & Hcp & _).
    destruct (passStep_inside (sampleTime scanStart k) v st cp Hin Hcp)
      as (cp' & _ & _ & ->).
    destruct (Rltb (elevation v) minElevation); eauto.
  - destruct (Rle_dec (elevation v) minElevation).
    + rewrite passStep_idle by assumption. eauto.
    + rewrite passStep_open by (assumption || lra). eauto.
Qed.

Lemma scanLoop_returns (n : nat) :
  forall (k : Z) (st : ScanState),
    invariant k st ->
    (forall i, k <= i < k + Z.of_nat n ->
               passSample rec observerLat observerLon (sampleTime scanStart i) <> Throw) ->
    exists st', loop n k st = Ret st'.
Proof.
  induction n as [| n IH]; intros k st Hinv Hs; cbn [scanLoop]; [eauto |].
  destruct (scanSample_returns k st Hinv) as (st1 & H1); [apply Hs; lia |].
  rewrite H1. cbn [bindO]. apply IH.
  - eapply scanSample_invariant; eauto.
  - intros i Hi. apply Hs. lia.
Qed.

(** [predictPasses] returns a list of passes whenever no sample of the
    scan makes the library throw or return [null]. *)
Lemma predictPasses_returns (hours : Z) :
  (forall i, 0 <= i < hours * 60 ->
             passSample rec observerLat observerLon (sampleTime scanStart i) <> Throw) ->
  exists ps,
    predictPasses rec observerLat observerLon scanStart hours minElevation = Ret ps.
Proof.
  intros Hs. unfold predictPasses, predictPassesScan.
  destruct (scanLoop_returns (Z.to_nat (hours * 60)) 0 initialScan
              scanInvariant_initial) as (st & ->).
  - intros i Hi. apply Hs. lia.
  - cbn [bindO]. eauto.
Qed.

End ScanFacts.

(** ** A concrete scan *)

Lemma pole_vector :
  (ecefX (earthRadius + 0) 90 0 - ecefX (earthRadius + 0 / 1000) 0 0 = - 6371
   /\ ecefY (earthRadius + 0) 90 0 - ecefY (earthRadius + 0 / 1000) 0 0 = 0
   /\ ecefZ (earthRadius + 0) 90 - ecefZ (earthRadius + 0 / 1000) 0 = 6371)%R.
Proof.
  unfold ecefX, ecefY, ecefZ, earthRadius.
  rewrite deg_0, deg_90, cos_0, sin_0, cos_PI2, sin_PI2. repeat split; lra.
Qed.

Lemma seenOverOrigin_elevation : elevation Scripted.seenOverOrigin = 0%R.
Proof.
  unfold Scripted.seenOverOrigin, Scripted.overOriginPosition.
  rewrite calculateVisibility_overOrigin. reflexivity.
Qed.

Lemma seenOverPole_elevation : elevation Scripted.seenOverPole = 45%R.
Proof.
  destruct pole_vector as (Hx & Hy & Hz).
  unfold Scripted.seenOverPole, Scripted.polePosition, calculateVisibility.
  simpl. rewrite Hx, Hy, Hz.
  replace (-6371 * -6371 + 0 * 0)%R with (6371 * 6371)%R by lra.
  rewrite sqrt_sq_pos by lra.
  rewrite atan2_right by lra.
  replace (6371 / 6371)%R with 1%R by lra.
  rewrite atan_1. apply rad_to_deg_quarter.
Qed.

Lemma passSample_poleThenOrigin (t : Z) :
  passSample (lib := Scripted.steady) Scripted.poleThenOrigin (Fin 0) (Fin 0) t
  = Ret (Some (if t <? 120000 then Scripted.seenOverPole
               else Scripted.seenOverOrigin)).
Proof.
  unfold passSample, Scripted.poleThenOrigin. simpl propagate.
  destruct (t <? 120000); reflexivity.
Qed.

Section ConcreteScan.

#[local] Abbreviation loop :=
  (scanLoop (lib := Scripted.steady) Scripted.poleThenOrigin (Fin 0) (Fin 0) 0 10).
#[local] Abbreviation sample :=
  (scanSample (lib := Scripted.steady) Scripted.poleThenOrigin (Fin 0) (Fin 0) 0 10).

Lemma scanSample_pole (i : Z) (st : ScanState) :
  i < 2 -> sample i st = passStep 10 (i * 60000) Scripted.seenOverPole st.
Proof.
  intros Hi. unfold scanSample. rewrite passSample_poleThenOrigin. unfold sampleTime.
  destruct (Z.ltb_spec (0 + i * 60000) 120000); [| lia]. reflexivity.
Qed.

Lemma scanSample_origin (i : Z) (st : ScanState) :
  2 <= i -> sample i st = passStep 10 (i * 60000) Scripted.seenOverOrigin st.
Proof.
  intros Hi. unfold scanSample. rewrite passSample_poleThenOrigin. unfold sampleTime.
  destruct (Z.ltb_spec (0 + i * 60000) 120000); [lia |]. reflexivity.
Qed.

Lemma scanLoop_outside (n : nat) :
  forall (i : Z) (st : ScanState),
    2 <= i -> inPass st = false -> loop n i st = Ret st.
Proof.
  induction n as [| n IH]; intros i st Hi Hin; cbn [scanLoop]; [reflexivity |].
  rewrite scanSample_origin by exact Hi.
  rewrite passStep_idle; [| exact Hin | rewrite seenOverOrigin_elevation; lra].
  cbn [bindO]. apply IH; [lia | exact Hin].
Qed.

Lemma scan_poleThenOrigin :
  predictPassesScan (lib := Scripted.steady) Scripted.poleThenOrigin (Fin 0) (Fin 0)
    0 1 10
  = Ret {| passes := [Scripted.polePass]; inPass := false; currentPass := None |}.
Proof.
  unfold predictPassesScan.
  change (Z.to_nat (1 * 60)) with (3 + 57)%nat.
  generalize 57%nat. intros n. cbn [Nat.add scanLoop].
  rewrite scanSample_pole by lia.
  rewrite passStep_open; [| reflexivity | rewrite seenOverPole_elevation; cbn; lra].
  cbn [bindO].
  rewrite scanSample_pole by lia.
  match goal with
  | |- context [passStep ?m ?t ?v ?st] =>
      destruct (passStep_inside m t v st _ eq_refl eq_refl)
        as (cp & [-> | [_ Hgt]] & _ & ->);
        [| cbn [openPass maxElevation] in Hgt; lra]
  end.
  assert (H1 : Rltb (elevation Scripted.seenOverPole) 10 = false)
    by (apply Rltb_false_iff; rewrite seenOverPole_elevation; lra).
  rewrite H1. cbn [bindO].
  rewrite scanSample_origin by lia.
  match goal with
  | |- context [passStep ?m ?t ?v ?st] =>
      destruct (passStep_inside m t v st _ eq_refl eq_refl)
        as (cp & [-> | [_ Hgt]] & _ & ->);
        [| cbn [openPass maxElevation] in Hgt;
           rewrite seenOverOrigin_elevation, seenOverPole_elevation in Hgt; lra]
  end.
  assert (H2 : Rltb (elevation Scripted.seenOverOrigin) 10 = true)
    by (apply Rltb_true_iff; rewrite seenOverOrigin_elevation; lra).
  rewrite H2. cbn [bindO].
  rewrite scanLoop_outside; [reflexivity | lia | reflexivity].
Qed.

Lemma predictPasses_poleThenOrigin :
  predictPasses (lib := Scripted.steady) Scripted.poleThenOrigin (Fin 0) (Fin 0)
    0 1 10
  = Ret [Scripted.polePass].
Proof.
  unfold predictPasses. rewrite scan_poleThenOrigin. reflexivity.
Qed.

End ConcreteScan.

Lemma passSample_overPole (t : Z) :
  passSample (lib := Scripted.steady) Scripted.overPole (Fin 0) (Fin 0) t
  = Ret (Some Scripted.seenOverPole).
Proof. reflexivity. Qed.

Lemma scanLoop_overPole (n : nat) :
  forall (i : Z) (st : ScanState),
    inPass st = true ->
    currentPass st = Some (openPass 0 Scripted.seenOverPole) ->
    scanLoop (lib := Scripted.steady) Scripted.overPole (Fin 0) (Fin 0) 0 10 n i st
    = Ret st.
Proof.
  induction n as [| n IH]; intros i st Hin Hcp; cbn [scanLoop]; [reflexivity |].
  unfold scanSample. rewrite passSample_overPole. cbn [bindO].
  destruct (passStep_inside 10 (sampleTime 0 i) Scripted.seenOverPole st _ Hin Hcp)
    as (cp & [-> | [_ Hgt]] & _ & ->); [| cbn [openPass maxElevation] in Hgt; lra].
  assert (H1 : Rltb (elevation Scripted.seenOverPole) 10 = false)
    by (apply Rltb_false_iff; rewrite seenOverPole_elevation; lra).
  rewrite H1. cbn [bindO].
  replace {| passes := passes st; inPass := true;
             currentPass := Some (openPass 0 Scripted.seenOverPole) |} with st
    by (destruct st; cbn in *; subst; reflexivity).
  apply IH; assumption.
Qed.

Lemma scan_overPole :
  predictPassesScan (lib := Scripted.steady) Scripted.overPole (Fin 0) (Fin 0) 0 1 10
  = Ret {| passes := []; inPass := true;
           currentPass := Some (openPass 0 Scripted.seenOverPole) |}.
Proof.
  unfold predictPassesScan.
  change (Z.to_nat (1 * 60)) with (1 + 59)%nat.
  generalize 59%nat. intros n. cbn [Nat.add scanLoop].
  unfold scanSample at 1. rewrite passSample_overPole. cbn [bindO].
  rewrite passStep_open; [| reflexivity | rewrite seenOverPole_elevation; cbn; lra].
  cbn [bindO]. apply scanLoop_overPole; reflexivity.
Qed.

(** ** Passes returned by the predictor *)

Section PassFacts.

Context {lib : SatelliteJs}.
Variables (rec : satrec) (observerLat observerLon : jsnum).
Variables (scanStart hours : Z) (minElevation : R).

Lemma passSpec_within_hours (p : Pass) :
  passSpec rec observerLat observerLon scanStart minElevation
    (Z.of_nat (Z.to_nat (hours * 60))) p ->
  passSpec rec observerLat observerLon scanStart minElevation (hours * 60) p.
Proof.
  intros (s & e & (H0 & H1 & H2 & H3) & Hc). exists s, e.
  split; [| exact Hc]. repeat split; try tauto; lia.
Qed.

Lemma predictPasses_spec (ps : list Pass) :
  predictPasses rec observerLat observerLon scanStart hours minElevation = Ret ps ->
  Forall (passSpec rec observerLat observerLon scanStart minElevation (hours * 60)) ps
  /\ StronglySorted passBefore ps.
Proof.
  intros H. apply predictPasses_scan in H as (st & Hscan & ->).
  apply predictPassesScan_invariant in Hscan as (_ & Hps & Hsorted & _).
  split; [| exact Hsorted].
  eapply Forall_impl; [| exact Hps]. intros p. apply passSpec_within_hours.
Qed.

Lemma passSpec_starts_before_end (n : Z) (p : Pass) :
  passSpec rec observerLat observerLon scanStart minElevation n p ->
  exists t, endTime p = Some t /\ startTime p < t.
Proof.
  intros (s & e & (H0 & H1 & H2 & H3 & H4 & H5) & _).
  exists (sampleTime scanStart e). split; [exact H4 |].
  rewrite H3. unfold sampleTime. lia.
Qed.

End PassFacts.

Lemma StronglySorted_strengthen {A : Type} (P : A -> Prop) (R R' : A -> A -> Prop)
    (l : list A) :
  (forall x y, P x -> R x y -> R' x y) ->
  Forall P l -> StronglySorted R l -> StronglySorted R' l.
Proof.
  intros Himp Hall Hs. induction Hs as [| a l Hs IH Ha]; [constructor |].
  inversion Hall as [| ? ? Hpa Hl]; subst.
  constructor; [apply IH; exact Hl |].
  eapply Forall_impl; [| exact Ha]. intros y. apply Himp. exact Hpa.
Qed.

(** C5, as the code has it: every pass returned starts at a sample whose
    elevation is above the threshold, the last valid sample of the scan
    before it, if there is one, being at or below the threshold; it ends
    at a later sample whose elevation is below the threshold, the last
    valid sample before it being at or above the threshold; its maximum
    elevation is above the threshold; and the passes are returned in
    increasing order of start time, each ending before the next starts. *)
Theorem predictPasses_passes_bracket_threshold_in_order :
  forall (lib : SatelliteJs) (rec : satrec) (observerLat observerLon : jsnum)
         (scanStart hours : Z) (minElevation : R) (ps : list Pass),
    predictPasses rec observerLat observerLon scanStart hours minElevation = Ret ps ->
    Forall (passSpec rec observerLat observerLon scanStart minElevation (hours * 60)) ps
    /\ Forall (fun p => (maxElevation p >= minElevation)%R) ps
    /\ StronglySorted (fun p q => startTime p <= startTime q /\ passBefore p q) ps.
Proof.
  intros lib rec oLat oLon scanStart hours minE ps H.
  apply predictPasses_spec in H as [Hspec Hsorted].
  split; [exact Hspec |]. split.
  - eapply Forall_impl; [| exact Hspec].
    intros p (s & e & _ & (_ & _ & _ & _ & Hmax)). lra.
  - eapply StronglySorted_strengthen; [| exact Hspec | exact Hsorted].
    intros p q Hp Hpq. split; [| exact Hpq].
    destruct (passSpec_starts_before_end _ _ _ _ _ _ _ Hp) as (t & Ht & Hlt).
    destruct Hpq as (u & Hu & Hlt'). rewrite Ht in Hu. injection Hu as <-. lia.
Qed.

Lemma predictPasses_passes_bracket_threshold_witness :
  Forall (passSpec (lib := Scripted.steady) Scripted.poleThenOrigin (Fin 0) (Fin 0)
            0 10 (1 * 60)) [Scripted.polePass]
  /\ Forall (fun p => (maxElevation p >= 10)%R) [Scripted.polePass]
  /\ StronglySorted (fun p q => startTime p <= startTime q /\ passBefore p q)
       [Scripted.polePass].
Proof.
  apply (predictPasses_passes_bracket_threshold_in_order Scripted.steady
           Scripted.poleThenOrigin (Fin 0) (Fin 0) 0 1 10 [Scripted.polePass]).
  exact predictPasses_poleThenOrigin.
Defined.

(** C5, the claim as stated, fails: a scan that begins while the
    satellite is already above the threshold returns a pass that starts
    at the first sample, and the elevation did not rise through the
    threshold during the sample interval before that start: one minute
    earlier it was 45 degrees as well. *)
Lemma pass_at_scan_start_is_not_a_crossing :
  predictPasses (lib := Scripted.steady) Scripted.poleThenOrigin (Fin 0) (Fin 0)
    0 1 10 = Ret [Scripted.polePass]
  /\ elevationAt (lib := Scripted.steady) Scripted.poleThenOrigin (Fin 0) (Fin 0)
       (startTime Scripted.polePass - 60000) = Some 45%R
  /\ ~ risesWithinOneSample (lib := Scripted.steady) Scripted.poleThenOrigin
         (Fin 0) (Fin 0) 10 Scripted.polePass.
Proof.
  assert (He : elevationAt (lib := Scripted.steady) Scripted.poleThenOrigin
                 (Fin 0) (Fin 0) (startTime Scripted.polePass - 60000) = Some 45%R).
  { unfold elevationAt. rewrite passSample_poleThenOrigin.
    cbn [Scripted.polePass closePass openPass startTime].
    change (0 - 60000 <? 120000) with true. cbv iota.
    rewrite seenOverPole_elevation. reflexivity. }
  split; [exact predictPasses_poleThenOrigin |].
  split; [exact He |].
  intros (e0 & e1 & H0 & _ & Hle & _).
  rewrite He in H0. injection H0 as <-. lra.
Qed.

(** C6: when the scan is over, [predictPasses] returns the passes that
    were closed; each of them ended at a sample of the scan whose
    elevation was below the threshold, and a pass still open then, which
    has no end time, is not among them. *)
Theorem predictPasses_discards_open_pass :
  forall (lib : SatelliteJs) (rec : satrec) (observerLat observerLon : jsnum)
         (scanStart hours : Z) (minElevation : R) (st : ScanState),
    predictPassesScan rec observerLat observerLon scanStart hours minElevation
    = Ret st ->
    predictPasses rec observerLat observerLon scanStart hours minElevation
    = Ret (passes st)
    /\ (forall p, In p (passes st) ->
          exists e ee,
            0 <= e < hours * 60
            /\ endTime p = Some (sampleTime scanStart e)
            /\ elevAt rec observerLat observerLon scanStart e = Some ee
            /\ (ee < minElevation)%R)
    /\ (inPass st = true ->
          exists cp, currentPass st = Some cp
                     /\ endTime cp = None
                     /\ ~ In cp (passes st)).
Proof.
  intros lib rec oLat oLon scanStart hours minE st Hscan.
  split; [unfold predictPasses; rewrite Hscan; reflexivity |].
  apply predictPassesScan_invariant in Hscan as (_ & Hps & _ & Hstate).
  split.
  - intros p Hin. rewrite Forall_forall in Hps.
    apply Hps, passSpec_within_hours in Hin
      as (s & e & (H0 & H1 & H2 & H3 & H4 & H5) & (_ & (ee & Hee & Hlt) & _)).
    exists e, ee. repeat split; try assumption; lia.
  - intros Hin. rewrite Hin in Hstate.
    destruct Hstate as (cp & Hcp & s & _ & _ & _ & Hend & _).
    exists cp. split; [exact Hcp |]. split; [exact Hend |].
    intros Hcpin. rewrite Forall_forall in Hps.
    apply Hps in Hcpin as (s' & e & (_ & _ & _ & _ & H4 & _) & _). congruence.
Qed.

Lemma predictPasses_discards_open_pass_witness :
  predictPasses (lib := Scripted.steady) Scripted.overPole (Fin 0) (Fin 0) 0 1 10
  = Ret []
  /\ (exists cp, Some (openPass 0 Scripted.seenOverPole) = Some cp
                 /\ endTime cp = None /\ ~ In cp []).
Proof.
  destruct (predictPasses_discards_open_pass Scripted.steady Scripted.overPole
              (Fin 0) (Fin 0) 0 1 10 _ scan_overPole) as (H1 & _ & H3).
  split; [exact H1 | apply H3; reflexivity].
Defined.

(** C10: every pass returned starts and ends on the one-minute grid
    anchored at the start of the scan, ends strictly after it starts, and
    has for duration the whole number of minutes between the two, which
    is at least 1. *)
Theorem predictPasses_duration_whole_minutes :
  forall (lib : SatelliteJs) (rec : satrec) (observerLat observerLon : jsnum)
         (scanStart hours : Z) (minElevation : R) (ps : list Pass) (p : Pass),
    predictPasses rec observerLat observerLon scanStart hours minElevation = Ret ps ->
    In p ps ->
    exists i j : Z,
      0 <= i /\ i < j /\ j < hours * 60
      /\ startTime p = scanStart + i * 60000
      /\ endTime p = Some (scanStart + j * 60000)
      /\ startTime p < scanStart + j * 60000
      /\ duration p = Some (IZR (j - i))
      /\ 1 <= j - i.
Proof.
  intros lib rec oLat oLon scanStart hours minE ps p H Hin.
  apply predictPasses_spec in H as [Hspec _].
  rewrite Forall_forall in Hspec.
  apply Hspec in Hin as (s & e & (H0 & H1 & H2 & H3 & H4 & H5) & _).
  exists s, e. unfold sampleTime in *. repeat split; try assumption; lia.
Qed.

Lemma predictPasses_duration_witness :
  exists i j : Z,
    0 <= i /\ i < j /\ j < 1 * 60
    /\ startTime Scripted.polePass = 0 + i * 60000
    /\ endTime Scripted.polePass = Some (0 + j * 60000)
    /\ startTime Scripted.polePass < 0 + j * 60000
    /\ duration Scripted.polePass = Some (IZR (j - i))
    /\ 1 <= j - i.
Proof.
  apply (predictPasses_duration_whole_minutes Scripted.steady
           Scripted.poleThenOrigin (Fin 0) (Fin 0) 0 1 10 [Scripted.polePass]).
  - exact predictPasses_poleThenOrigin.
  - left. reflexivity.
Defined.

(** * Further properties of the code *)

(** ** Ranges of the visibility result *)

Lemma atan_nonpos (x : R) : (x <= 0)%R -> (atan x <= 0)%R.
Proof.
  intros Hx. destruct (Req_dec x 0) as [-> | Hne].
  - rewrite atan_0. lra.
  - rewrite <- atan_0. left. apply atan_increasing. lra.
Qed.

Lemma div_neg_nonneg (y x : R) : (x < 0)%R -> (0 <= y)%R -> (y / x <= 0)%R.
Proof.
  intros Hx Hy. unfold Rdiv.
  assert (Hi : (/ x < 0)%R) by (apply Rinv_lt_0_compat; exact Hx).
  nra.
Qed.

Lemma div_neg_neg (y x : R) : (x < 0)%R -> (y < 0)%R -> (0 < y / x)%R.
Proof.
  intros Hx Hy. unfold Rdiv.
  assert (Hi : (/ x < 0)%R) by (apply Rinv_lt_0_compat; exact Hx).
  nra.
Qed.

Lemma atan2_bounds (y x : R) : (- PI < atan2 y x <= PI)%R.
Proof.
  pose proof PI_RGT_0 as Hpi. pose proof (atan_bound (y / x)) as Hb.
  unfold atan2.
  destruct (Rlt_dec 0 x); [lra |].
  destruct (Rlt_dec x 0) as [Hx |].
  - destruct (Rle_dec 0 y) as [Hy | Hy].
    + pose proof (atan_nonpos _ (div_neg_nonneg y x Hx Hy)). lra.
    + assert (Hy' : (y < 0)%R) by lra.
      pose proof (atan_increasing _ _ (div_neg_neg y x Hx Hy')) as Hpos.
      rewrite atan_0 in Hpos. lra.
  - destruct (Rlt_dec 0 y); [lra |]. destruct (Rlt_dec y 0); lra.
Qed.

Lemma atan2_right_half (y x : R) :
  (0 <= x)%R -> (- (PI / 2) <= atan2 y x <= PI / 2)%R.
Proof.
  intros Hx. pose proof PI_RGT_0 as Hpi. pose proof (atan_bound (y / x)) as Hb.
  unfold atan2.
  destruct (Rlt_dec 0 x); [lra |].
  destruct (Rlt_dec x 0); [lra |].
  destruct (Rlt_dec 0 y); [lra |]. destruct (Rlt_dec y 0); lra.
Qed.

Lemma Rtrunc_unit (v : R) : (0 <= v < 1)%R -> Rtrunc v = 0.
Proof.
  intros Hv. unfold Rtrunc. destruct (Rle_dec 0 v); [| lra].
  symmetry. apply Int_part_spec. simpl. lra.
Qed.

Lemma Rtrunc_one (v : R) : (1 <= v < 2)%R -> Rtrunc v = 1.
Proof.
  intros Hv. unfold Rtrunc. destruct (Rle_dec 0 v); [| lra].
  symmetry. apply Int_part_spec. simpl. lra.
Qed.

Lemma jsmod_turn (v : R) : (180 < v <= 540)%R -> (0 <= jsmod v 360 < 360)%R.
Proof.
  intros Hv. unfold jsmod.
  destruct (Rlt_dec v 360) as [Hlt | Hge].
  - rewrite Rtrunc_unit by lra. lra.
  - rewrite Rtrunc_one by lra. lra.
Qed.

Lemma degrees_bounds (a lo hi : R) :
  (lo <= a <= hi)%R -> (lo * 180 / PI <= a * 180 / PI <= hi * 180 / PI)%R.
Proof.
  intros Ha. pose proof PI_RGT_0 as Hpi.
  assert (Hi : (0 < / PI)%R) by (apply Rinv_0_lt_compat; exact Hpi).
  unfold Rdiv. split; apply Rmult_le_compat_r; lra.
Qed.

Lemma degrees_half : (PI / 2 * 180 / PI = 90)%R.
Proof. field. apply PI_neq0. Qed.

Lemma degrees_minus_half : (- (PI / 2) * 180 / PI = - 90)%R.
Proof. field. apply PI_neq0. Qed.

Lemma degrees_turn (a : R) :
  (- PI < a <= PI)%R -> (180 < a * 180 / PI + 360 <= 540)%R.
Proof.
  intros Ha. pose proof PI_RGT_0 as Hpi.
  assert (Hi : (0 < / PI)%R) by (apply Rinv_0_lt_compat; exact Hpi).
  assert (H1 : (PI * 180 / PI = 180)%R) by (field; apply PI_neq0).
  assert (H2 : (- PI * 180 / PI = - 180)%R) by (field; apply PI_neq0).
  assert (Hlo : (- PI * 180 / PI < a * 180 / PI)%R).
  { unfold Rdiv. apply Rmult_lt_compat_r; lra. }
  assert (Hhi : (a * 180 / PI <= PI * 180 / PI)%R).
  { unfold Rdiv. apply Rmult_le_compat_r; lra. }
  lra.
Qed.

Lemma allFinite_false (g : GeodeticPosition) :
  allFinite g = false <->
  negb (isFinite (latitude g)) || negb (isFinite (longitude g))
  || negb (isFinite (altitude g)) = true.
Proof.
  unfold allFinite.
  destruct (isFinite (latitude g)), (isFinite (longitude g)),
    (isFinite (altitude g)); cbn; intuition congruence.
Qed.

Lemma sin_cos_one (x : R) : (sin x * sin x + cos x * cos x = 1)%R.
Proof. pose proof (sin2_cos2 x) as H. unfold Rsqr in H. exact H. Qed.

(** X1: for a satellite and an observer whose latitudes and longitudes
    lie within the geographic ranges (where the conversion to radians
    cannot overflow), whatever the altitudes, [calculateVisibility]
    returns a range that is not negative, an elevation between -90 and 90
    degrees and an azimuth in [0, 360). *)
Theorem calculateVisibility_geographic_ranges :
  forall (lat lon alt observerLat observerLon observerAlt : R),
    geographic lat lon -> geographic observerLat observerLon ->
    let v := calculateVisibility (Some (mkGeo (Fin lat) (Fin lon) (Fin alt)))
               (Fin observerLat) (Fin observerLon) observerAlt in
    (0 <= range v)%R
    /\ (- 90 <= elevation v <= 90)%R
    /\ (0 <= azimuth v < 360)%R.
Proof.
  intros lat lon alt oLat oLon oAlt _ _. unfold calculateVisibility.
  cbn [isFinite latitude longitude altitude negb orb realOf].
  cbv zeta. cbn [range elevation azimuth].
  split; [apply sqrt_pos |]. split.
  - match goal with
    | |- context [atan2 ?y (sqrt ?h)] =>
        pose proof (atan2_right_half y (sqrt h) (sqrt_pos h)) as Ha
    end.
    apply degrees_bounds in Ha.
    rewrite degrees_half, degrees_minus_half in Ha. exact Ha.
  - apply jsmod_turn, degrees_turn, atan2_bounds.
Qed.

Lemma calculateVisibility_geographic_ranges_witness :
  (0 <= range (calculateVisibility (Some (mkGeo (Fin 51.6) (Fin (-0.1)) (Fin 420)))
                 (Fin 51.5) (Fin (-0.12)) 11))%R
  /\ (- 90 <= elevation (calculateVisibility
                           (Some (mkGeo (Fin 51.6) (Fin (-0.1)) (Fin 420)))
                           (Fin 51.5) (Fin (-0.12)) 11) <= 90)%R
  /\ (0 <= azimuth (calculateVisibility
                      (Some (mkGeo (Fin 51.6) (Fin (-0.1)) (Fin 420)))
                      (Fin 51.5) (Fin (-0.12)) 11) < 360)%R.
Proof.
  apply (calculateVisibility_geographic_ranges 51.6 (-0.1) 420 51.5 (-0.12) 11);
    split; apply Rabs_le; lra.
Defined.

(** ** Satellites over the equator seen from the equator *)

Lemma ecefZ_equator (rad : R) : ecefZ rad 0 = 0%R.
Proof.
  unfold ecefZ. replace (0 * PI / 180)%R with 0%R by lra.
  rewrite sin_0. lra.
Qed.

Lemma atan2_level (x : R) : (0 <= x)%R -> atan2 0 x = 0%R.
Proof.
  intros Hx. unfold atan2.
  destruct (Rlt_dec 0 x).
  - replace (0 / x)%R with 0%R by (unfold Rdiv; lra). apply atan_0.
  - destruct (Rlt_dec x 0); [lra |].
    destruct (Rlt_dec 0 0); [lra | reflexivity].
Qed.

Lemma elevation_on_equator (g : GeodeticPosition) (observerLon : jsnum)
    (observerAlt : R) :
  latitude g = Fin 0 ->
  let v := calculateVisibility (Some g) (Fin 0) observerLon observerAlt in
  (elevation v <= 0)%R
  /\ (allFinite g = true -> isFinite observerLon = true -> elevation v = 0%R).
Proof.
  intros Hlat. unfold calculateVisibility, allFinite. rewrite Hlat.
  cbn [isFinite negb orb andb realOf].
  destruct (isFinite (longitude g)), (isFinite (altitude g));
    cbn [negb orb andb]; try (cbn; split; [lra | discriminate]).
  destruct (isFinite observerLon); cbn [negb];
    [| cbn; split; [lra | discriminate]].
  cbv zeta. cbn [elevation]. rewrite !ecefZ_equator.
  replace (0 - 0)%R with 0%R by lra.
  rewrite atan2_level by apply sqrt_pos.
  replace (0 * 180 / PI)%R with 0%R by (unfold Rdiv; lra).
  split; [lra | reflexivity].
Qed.

(** X2: an observer on the equator never sees a satellite that is over
    the equator, whatever their longitudes and altitudes: the vertical
    of [calculateVisibility] is the polar axis, along which the two do
    not differ, so [isVisible] is false; for longitudes within the
    geographic range the elevation returned is 0. *)
Theorem calculateVisibility_equator_never_visible :
  forall (lon alt observerLon observerAlt : R),
    let v := calculateVisibility (Some (mkGeo (Fin 0) (Fin lon) (Fin alt)))
               (Fin 0) (Fin observerLon) observerAlt in
    isVisible v = false
    /\ ((Rabs lon <= 180)%R -> (Rabs observerLon <= 180)%R ->
        elevation v = 0%R).
Proof.
  intros lon alt oLon oAlt.
  destruct (elevation_on_equator (mkGeo (Fin 0) (Fin lon) (Fin alt)) (Fin oLon) oAlt
              eq_refl) as [_ H0].
  specialize (H0 eq_refl eq_refl). cbv zeta.
  split; [| intros _ _; exact H0].
  assert (Hv : isVisible (calculateVisibility (Some (mkGeo (Fin 0) (Fin lon) (Fin alt)))
                            (Fin 0) (Fin oLon) oAlt)
               = Rgtb (elevation (calculateVisibility
                                    (Some (mkGeo (Fin 0) (Fin lon) (Fin alt)))
                                    (Fin 0) (Fin oLon) oAlt)) 0)
    by reflexivity.
  rewrite Hv, H0. apply Rgtb_false_iff. lra.
Qed.

Lemma calculateVisibility_equator_never_visible_witness :
  isVisible (calculateVisibility (Some geostationary) (Fin 0) (Fin quitoLon) quitoAlt)
  = false
  /\ elevation (calculateVisibility (Some geostationary) (Fin 0) (Fin quitoLon)
                  quitoAlt) = 0%R.
Proof.
  destruct (calculateVisibility_equator_never_visible (-75) 35786 quitoLon quitoAlt)
    as [Hv He].
  split; [exact Hv |].
  apply He; unfold quitoLon; apply Rabs_le; lra.
Defined.

(** ** Details of the passes returned *)

Section DetailFacts.

Context {lib : SatelliteJs}.
Variables (rec : satrec) (observerLat observerLon : jsnum).
Variables (scanStart : Z) (minElevation : R).

#[local] Abbreviation elev := (elevAt rec observerLat observerLon scanStart).
#[local] Abbreviation vis := (sampleAt rec observerLat observerLon scanStart).
#[local] Abbreviation within := (samplesIn rec observerLat observerLon scanStart).
#[local] Abbreviation detail :=
  (scanDetail rec observerLat observerLon scanStart minElevation).
#[local] Abbreviation closed :=
  (passDetail rec observerLat observerLon scanStart minElevation).
#[local] Abbreviation step :=
  (scanSample rec observerLat observerLon scanStart minElevation).
#[local] Abbreviation run :=
  (scanLoop rec observerLat observerLon scanStart minElevation).

Lemma passStep_inside_max (t : Z) (v : VisibilityResult) (st : ScanState) (cp : Pass) :
  inPass st = true -> currentPass st = Some cp ->
  exists cp',
    ((cp' = cp /\ (elevation v <= maxElevation cp)%R)
     \/ (cp' = raiseMax t v cp /\ (elevation v > maxElevation cp)%R))
    /\ passStep minElevation t v st
       = if Rltb (elevation v) minElevation
         then Ret {| passes := passes st ++ [closePass t v cp'];
                     inPass := false; currentPass := None |}
         else Ret {| passes := passes st; inPass := true;
                     currentPass := Some cp' |}.
Proof.
  intros Hin Hcp. unfold passStep. rewrite Hin. cbn [negb andb]. rewrite Hin, Hcp.
  destruct (Rgtb (elevation v) (maxElevation cp)) eqn:Hmax;
    cbn [bindO inPass andb currentPass passes].
  - exists (raiseMax t v cp). split; [| reflexivity].
    right. split; [reflexivity | now apply Rgtb_true_iff].
  - exists cp. split; [left; split; [reflexivity | now apply Rgtb_false_iff] |].
    rewrite Hin, Hcp. destruct st as [ps ip c]. cbn in *. subst. reflexivity.
Qed.

Lemma within_skip (P : R -> Prop) (lo k : Z) :
  elev k = None -> within P lo k -> within P lo (k + 1).
Proof.
  intros Hk H j x Hj Hx. destruct (Z.eq_dec j k) as [-> | Hne]; [congruence |].
  apply (H j x); [lia | exact Hx].
Qed.

Lemma within_hit (P : R -> Prop) (lo k : Z) (x : R) :
  elev k = Some x -> P x -> within P lo k -> within P lo (k + 1).
Proof.
  intros Hk HP H j y Hj Hy. destruct (Z.eq_dec j k) as [-> | Hne].
  - rewrite Hk in Hy. injection Hy as <-. exact HP.
  - apply (H j y); [lia | exact Hy].
Qed.

Lemma within_weaken (P Q : R -> Prop) (lo hi : Z) :
  (forall x, P x -> Q x) -> within P lo hi -> within Q lo hi.
Proof. intros HPQ H j x Hj Hx. apply HPQ. exact (H j x Hj Hx). Qed.

Lemma within_shrink (P : R -> Prop) (lo hi hi' : Z) :
  hi' <= hi -> within P lo hi -> within P lo hi'.
Proof. intros Hle H j x Hj Hx. apply (H j x); [lia | exact Hx]. Qed.

Lemma within_empty (P : R -> Prop) (lo : Z) : within P lo lo.
Proof. intros j x Hj. lia. Qed.

Lemma elev_of_vis (k : Z) (v : VisibilityResult) :
  vis k = Some v -> elev k = Some (elevation v).
Proof.
  unfold sampleAt, elevAt, elevationAt.
  destruct (passSample rec observerLat observerLon (sampleTime scanStart k))
    as [[w |] |]; try discriminate.
  intros [= ->]. reflexivity.
Qed.

Lemma closed_mono (k : Z) (p : Pass) : closed k p -> closed (k + 1) p.
Proof.
  intros (s & m & e & H0 & H1 & H2 & H3 & H). exists s, m, e.
  repeat split; try tauto; lia.
Qed.

Lemma covered_app (ps : list Pass) (p : Pass) (j : Z) :
  covered scanStart ps j -> covered scanStart (ps ++ [p]) j.
Proof.
  intros (q & t & Hin & Ht & Hj). exists q, t.
  split; [apply in_or_app; left; exact Hin | tauto].
Qed.

Lemma scanSample_detail (k : Z) (st st' : ScanState) :
  detail k st -> step k st = Ret st' -> detail (k + 1) st'.
Proof.
  intros (Hk & Hps & Hcov & Hopen). unfold scanSample.
  destruct (passSample rec observerLat observerLon (sampleTime scanStart k))
    as [[v |] |] eqn:Hs; cbn [bindO]; try discriminate.
  - (* a valid sample *)
    assert (Hv : vis k = Some v) by (unfold sampleAt; rewrite Hs; reflexivity).
    pose proof (elev_of_vis k v Hv) as He.
    destruct (inPass st) eqn:Hin.
    + destruct (Hopen eq_refl)
        as (cp & s & m & Hcp & Hs0 & Hsm & Hmk & Hstart & Hmt & Haz & Hmax
            & Hle & Hlt & Hge).
      destruct (passStep_inside_max (sampleTime scanStart k) v st cp Hin Hcp)
        as (cp' & Hcp' & ->).
      assert (Hfloor : (maxElevation cp >= minElevation)%R).
      { apply (Hge m (maxElevation cp)); [lia | exact Hmax]. }
      destruct (Rltb (elevation v) minElevation) eqn:Hlow; intros [= <-].
      * (* the pass is closed *)
        apply Rltb_true_iff in Hlow.
        destruct Hcp' as [[-> Hx] | [_ Hx]]; [| lra].
        split; [lia |]. cbn [passes inPass currentPass].
        split; [| split; [| discriminate]].
        -- apply Forall_app. split.
           ++ eapply Forall_impl; [| exact Hps]. intros p. apply closed_mono.
           ++ constructor; [| constructor]. exists s, m, k.
              cbn [closePass startTime endTime maxElevationTime startAzimuth
                     endAzimuth maxElevation].
              repeat split; try assumption; try lia.
              ** exists v. split; [exact Hv | reflexivity].
              ** eapply within_hit; [exact He | exact Hx | exact Hle].
        -- intros j x Hj Hjx Hgt. left.
           destruct (Z.eq_dec j k) as [-> | Hne].
           { rewrite He in Hjx. injection Hjx as <-. lra. }
           destruct (Hcov j x ltac:(lia) Hjx Hgt) as [Hc | (_ & cp0 & Hcp0 & Hle0)].
           ++ apply covered_app. exact Hc.
           ++ rewrite Hcp in Hcp0. injection Hcp0 as <-.
              exists (closePass (sampleTime scanStart k) v cp), (sampleTime scanStart k).
              split; [apply in_or_app; right; left; reflexivity |].
              split; [reflexivity |].
              cbn [closePass startTime]. unfold sampleTime in *. lia.
      * (* the pass goes on *)
        apply Rltb_false_iff in Hlow.
        split; [lia |]. cbn [passes inPass currentPass].
        split; [eapply Forall_impl; [| exact Hps]; intros p; apply closed_mono |].
        split.
        -- intros j x Hj Hjx Hgt.
           destruct (Z.eq_dec j k) as [-> | Hne].
           { right. split; [reflexivity |]. exists cp'. split; [reflexivity |].
             destruct Hcp' as [[-> _] | [-> _]]; cbn [raiseMax startTime];
               rewrite Hstart; unfold sampleTime; lia. }
           destruct (Hcov j x ltac:(lia) Hjx Hgt) as [Hc | (_ & cp0 & Hcp0 & Hle0)];
             [left; exact Hc |].
           rewrite Hcp in Hcp0. injection Hcp0 as <-.
           right. split; [reflexivity |]. exists cp'. split; [reflexivity |].
           destruct Hcp' as [[-> _] | [-> _]]; cbn [raiseMax startTime]; exact Hle0.
        -- intros _. destruct Hcp' as [[-> Hx] | [-> Hx]].
           ++ exists cp, s, m. split; [reflexivity |].
              repeat split; try assumption; try lia.
              ** eapply within_hit; [exact He | exact Hx | exact Hle].
              ** eapply within_hit; [exact He | cbn; lra | exact Hge].
           ++ exists (raiseMax (sampleTime scanStart k) v cp), s, k.
              split; [reflexivity |].
              cbn [raiseMax startTime maxElevationTime startAzimuth maxElevation].
              repeat split; try assumption; try lia.
              ** eapply within_hit; [exact He | cbn; lra |].
                 eapply within_weaken; [| exact Hle]. cbn. intros y Hy. lra.
              ** eapply within_weaken; [| exact Hle]. cbn. intros y Hy. lra.
              ** eapply within_hit; [exact He | cbn; lra | exact Hge].
    + destruct (Rle_dec (elevation v) minElevation) as [Hle | Hgt].
      * rewrite passStep_idle by assumption. intros [= <-].
        split; [lia |].
        split; [eapply Forall_impl; [| exact Hps]; intros p; apply closed_mono |].
        split; [| rewrite Hin; discriminate].
        intros j x Hj Hjx Hgt. rewrite Hin.
        destruct (Z.eq_dec j k) as [-> | Hne].
        { rewrite He in Hjx. injection Hjx as <-. lra. }
        apply (Hcov j x); [lia | exact Hjx | exact Hgt].
      * assert (Hgt' : (elevation v > minElevation)%R) by lra.
        rewrite passStep_open by assumption. intros [= <-].
        split; [lia |]. cbn [passes inPass currentPass].
        split; [eapply Forall_impl; [| exact Hps]; intros p; apply closed_mono |].
        split.
        -- intros j x Hj Hjx Hgtx.
           destruct (Z.eq_dec j k) as [-> | Hne].
           { right. split; [reflexivity |]. eexists. split; [reflexivity |].
             cbn [openPass startTime]. lia. }
           destruct (Hcov j x ltac:(lia) Hjx Hgtx) as [Hc | (Hno & _)];
             [left; exact Hc | congruence].
        -- intros _. exists (openPass (sampleTime scanStart k) v), k, k.
           split; [reflexivity |].
           cbn [openPass startTime maxElevationTime startAzimuth maxElevation].
           repeat split; try lia; try assumption.
           ++ exists v. split; [exact Hv | reflexivity].
           ++ eapply within_hit; [exact He | cbn; lra | apply within_empty].
           ++ apply within_empty.
           ++ eapply within_hit; [exact He | cbn; lra | apply within_empty].
  - (* a skipped sample *)
    assert (He : elev k = None).
    { unfold elevAt, elevationAt. rewrite Hs. reflexivity. }
    intros [= <-]. split; [lia |].
    split; [eapply Forall_impl; [| exact Hps]; intros p; apply closed_mono |].
    split.
    + intros j x Hj Hjx Hgt.
      destruct (Z.eq_dec j k) as [-> | Hne]; [congruence |].
      apply (Hcov j x); [lia | exact Hjx | exact Hgt].
    + intros Hin. destruct (Hopen Hin)
        as (cp & s & m & Hcp & Hs0 & Hsm & Hmk & Hstart & Hmt & Haz & Hmax
            & Hle & Hlt & Hge).
      exists cp, s, m. split; [exact Hcp |].
      repeat split; try assumption; try lia; apply within_skip; assumption.
Qed.

Lemma scanLoop_detail (n : nat) :
  forall (k : Z) (st st' : ScanState),
    detail k st -> run n k st = Ret st' -> detail (k + Z.of_nat n) st'.
Proof.
  induction n as [| n IH]; intros k st st' Hinv; cbn [scanLoop].
  - intros [= <-]. now rewrite Z.add_0_r.
  - destruct (step k st) as [st1 |] eqn:Hs; cbn [bindO]; try discriminate.
    intros Hloop. replace (k + Z.of_nat (S n)) with (k + 1 + Z.of_nat n) by lia.
    eapply IH; [| exact Hloop]. eapply scanSample_detail; eauto.
Qed.

Lemma scanDetail_initial : detail 0 initialScan.
Proof.
  split; [lia |]. cbn. split; [constructor |].
  split; [intros j x Hj; lia | discriminate].
Qed.

Lemma closed_within_hours (hours : Z) (p : Pass) :
  closed (Z.of_nat (Z.to_nat (hours * 60))) p -> closed (hours * 60) p.
Proof.
  intros (s & m & e & H0 & H1 & H2 & H3 & H). exists s, m, e.
  repeat split; try tauto; lia.
Qed.

Lemma predictPasses_detail (hours : Z) (ps : list Pass) :
  predictPasses rec observerLat observerLon scanStart hours minElevation = Ret ps ->
  exists st,
    ps = passes st
    /\ detail (Z.of_nat (Z.to_nat (hours * 60))) st.
Proof.
  intros H. apply predictPasses_scan in H as (st & Hscan & ->).
  exists st. split; [reflexivity |].
  unfold predictPassesScan in Hscan.
  apply (scanLoop_detail _ 0 initialScan st scanDetail_initial Hscan).
Qed.

End DetailFacts.

(** X4: for every pass returned, the start and end azimuths are those of
    its first and last samples; the maximum elevation is the greatest
    elevation among the valid samples from start to end and
    [maxElevationTime] is the first sample that reaches it; and no valid
    sample from the start up to the end is below the threshold. *)
Theorem predictPasses_maximum_and_azimuths :
  forall (lib : SatelliteJs) (rec : satrec) (observerLat observerLon : jsnum)
         (scanStart hours : Z) (minElevation : R) (ps : list Pass),
    predictPasses rec observerLat observerLon scanStart hours minElevation = Ret ps ->
    Forall (passDetail rec observerLat observerLon scanStart minElevation
              (hours * 60)) ps.
Proof.
  intros lib rec oLat oLon scanStart hours minE ps H.
  apply predictPasses_detail in H as (st & -> & (_ & Hps & _)).
  eapply Forall_impl; [| exact Hps]. intros p. apply closed_within_hours.
Qed.

Lemma predictPasses_maximum_and_azimuths_witness :
  Forall (passDetail (lib := Scripted.steady) Scripted.poleThenOrigin
            (Fin 0) (Fin 0) 0 10 (1 * 60))
    [Scripted.polePass].
Proof.
  apply (predictPasses_maximum_and_azimuths Scripted.steady
           Scripted.poleThenOrigin (Fin 0) (Fin 0) 0 1 10 [Scripted.polePass]).
  exact predictPasses_poleThenOrigin.
Defined.

(** X5: no above-threshold sample is lost unless its pass is still open
    when the scan stops: a valid sample above the threshold that is
    followed, within the scan, by a valid sample below the threshold lies
    within one of the passes returned. *)
Theorem predictPasses_covers_high_samples :
  forall (lib : SatelliteJs) (rec : satrec) (observerLat observerLon : jsnum)
         (scanStart hours : Z) (minElevation : R) (ps : list Pass)
         (j l : Z) (x y : R),
    predictPasses rec observerLat observerLon scanStart hours minElevation = Ret ps ->
    0 <= j -> j < l -> l < hours * 60 ->
    elevAt rec observerLat observerLon scanStart j = Some x ->
    (x > minElevation)%R ->
    elevAt rec observerLat observerLon scanStart l = Some y ->
    (y < minElevation)%R ->
    covered scanStart ps j.
Proof.
  intros lib rec oLat oLon scanStart hours minE ps j l x y H Hj Hjl Hl Hx Hgt Hy Hlt.
  apply predictPasses_detail in H as (st & -> & (_ & _ & Hcov & Hopen)).
  destruct (Hcov j x ltac:(lia) Hx Hgt) as [Hc | (Hin & cp & Hcp & Hle)];
    [exact Hc |].
  exfalso.
  destruct (Hopen Hin) as (cp' & s & m & Hcp' & Hs0 & _ & _ & Hstart & _ & _ & _ & _ & _ & Hge).
  rewrite Hcp in Hcp'. injection Hcp' as <-.
  rewrite Hstart in Hle. unfold sampleTime in Hle.
  assert (Hy' : (y >= minE)%R) by (apply (Hge l y); [lia | exact Hy]).
  lra.
Qed.

Lemma predictPasses_covers_high_samples_witness :
  covered 0 [Scripted.polePass] 0.
Proof.
  apply (predictPasses_covers_high_samples Scripted.steady
           Scripted.poleThenOrigin (Fin 0) (Fin 0) 0 1 10 [Scripted.polePass]
           0 2 45 0).
  - exact predictPasses_poleThenOrigin.
  - lia.
  - lia.
  - lia.
  - unfold elevAt, elevationAt. rewrite passSample_poleThenOrigin.
    change (sampleTime 0 0 <? 120000) with true. cbv iota.
    rewrite seenOverPole_elevation. reflexivity.
  - lra.
  - unfold elevAt, elevationAt. rewrite passSample_poleThenOrigin.
    change (sampleTime 0 2 <? 120000) with false. cbv iota.
    rewrite seenOverOrigin_elevation. reflexivity.
  - lra.
Defined.

(** ** Scans that report nothing, and scans that throw *)

Lemma elevation_le_90 (satPos : option GeodeticPosition)
    (observerLat observerLon : jsnum) (observerAlt : R) :
  (elevation (calculateVisibility satPos observerLat observerLon observerAlt) <= 90)%R.
Proof.
  unfold calculateVisibility.
  destruct satPos as [sp |]; [| cbn; lra].
  destruct (negb (isFinite (latitude sp)) || negb (isFinite (longitude sp))
            || negb (isFinite (altitude sp))); [cbn; lra |].
  destruct (negb (isFinite observerLat) || negb (isFinite observerLon)); [cbn; lra |].
  cbv zeta. cbn [elevation].
  match goal with
  | |- context [atan2 ?y (sqrt ?h)] =>
      pose proof (atan2_right_half y (sqrt h) (sqrt_pos h)) as Ha
  end.
  apply degrees_bounds in Ha. rewrite degrees_half in Ha. lra.
Qed.

Lemma elevation_without_observer (satPos : option GeodeticPosition)
    (observerLat observerLon : jsnum) (observerAlt : R) :
  isFinite observerLat = false \/ isFinite observerLon = false ->
  elevation (calculateVisibility satPos observerLat observerLon observerAlt)
  = (- 90)%R.
Proof.
  intros Hobs. unfold calculateVisibility.
  destruct satPos as [sp |]; [| reflexivity].
  destruct (negb (isFinite (latitude sp)) || negb (isFinite (longitude sp))
            || negb (isFinite (altitude sp))); [reflexivity |].
  destruct Hobs as [-> | ->]; cbn [negb orb]; rewrite ?orb_true_r; reflexivity.
Qed.

Section QuietScans.

Context {lib : SatelliteJs}.
Variables (rec : satrec) (observerLat observerLon : jsnum).
Variables (scanStart : Z) (minElevation : R).

Lemma scanLoop_never_opens (n : nat) :
  forall (k : Z) (st : ScanState),
    inPass st = false ->
    (forall i, k <= i < k + Z.of_nat n ->
       passSample rec observerLat observerLon (sampleTime scanStart i) <> Throw) ->
    (forall i v, k <= i < k + Z.of_nat n ->
       passSample rec observerLat observerLon (sampleTime scanStart i) = Ret (Some v) ->
       (elevation v <= minElevation)%R) ->
    scanLoop rec observerLat observerLon scanStart minElevation n k st = Ret st.
Proof.
  induction n as [| n IH]; intros k st Hin Hno Hlow; cbn [scanLoop]; [reflexivity |].
  unfold scanSample.
  destruct (passSample rec observerLat observerLon (sampleTime scanStart k))
    as [[v |] |] eqn:Hs; cbn [bindO].
  - rewrite passStep_idle; [| exact Hin | apply (Hlow k v); [lia | exact Hs]].
    cbn [bindO]. apply IH; [exact Hin | |]; intros; [apply Hno | eapply Hlow]; eauto; lia.
  - apply IH; [exact Hin | |]; intros; [apply Hno | eapply Hlow]; eauto; lia.
  - exfalso. apply (Hno k); [lia | exact Hs].
Qed.

Lemma scanLoop_returned_samples (n : nat) :
  forall (k : Z) (st st' : ScanState),
    scanLoop rec observerLat observerLon scanStart minElevation n k st = Ret st' ->
    forall i, k <= i < k + Z.of_nat n ->
      passSample rec observerLat observerLon (sampleTime scanStart i) <> Throw.
Proof.
  induction n as [| n IH]; intros k st st' Hrun i Hi; [lia |].
  cbn [scanLoop] in Hrun.
  destruct (scanSample rec observerLat observerLon scanStart minElevation k st)
    as [st1 |] eqn:Hs; cbn [bindO] in Hrun; [| discriminate].
  destruct (Z.eq_dec i k) as [-> | Hne].
  - unfold scanSample in Hs. intros Hthrow. rewrite Hthrow in Hs. discriminate.
  - apply (IH (k + 1) st1 st' Hrun). lia.
Qed.

End QuietScans.

(** X6: when no sample makes the library throw, [predictPasses] returns
    the empty list if the threshold is 90 degrees or more, and also if an
    observer coordinate is not finite and the threshold is at least -90
    degrees. *)
Theorem predictPasses_reports_nothing :
  forall (lib : SatelliteJs) (rec : satrec) (observerLat observerLon : jsnum)
         (scanStart hours : Z) (minElevation : R),
    (forall i, 0 <= i < hours * 60 ->
       passSample rec observerLat observerLon (sampleTime scanStart i) <> Throw) ->
    (90 <= minElevation)%R
    \/ ((isFinite observerLat = false \/ isFinite observerLon = false)
        /\ (- 90 <= minElevation)%R) ->
    predictPasses rec observerLat observerLon scanStart hours minElevation = Ret [].
Proof.
  intros lib rec oLat oLon scanStart hours minE Hno Hcase.
  unfold predictPasses, predictPassesScan.
  rewrite scanLoop_never_opens; [reflexivity | reflexivity | |].
  - intros i Hi. apply Hno. lia.
  - intros i v _ Hs. apply passSample_finite in Hs as (g & _ & ->).
    destruct Hcase as [H90 | [Hobs Hmin]].
    + pose proof (elevation_le_90 (Some g) oLat oLon 0). lra.
    + rewrite elevation_without_observer by exact Hobs. exact Hmin.
Qed.

Lemma predictPasses_reports_nothing_witness :
  predictPasses (lib := Scripted.steady) Scripted.overPole (Fin 0) (Fin 0)
    0 1 90
  = Ret [].
Proof.
  apply (predictPasses_reports_nothing Scripted.steady Scripted.overPole
           (Fin 0) (Fin 0) 0 1 90).
  - intros i _. rewrite passSample_overPole. discriminate.
  - left. lra.
Defined.

(** X7: [predictPasses] returns a list exactly when no sample of the
    scan makes the library throw or return [null]; the bookkeeping of the
    scan never throws by itself. *)
Theorem predictPasses_returns_iff_no_sample_throws :
  forall (lib : SatelliteJs) (rec : satrec) (observerLat observerLon : jsnum)
         (scanStart hours : Z) (minElevation : R),
    (exists ps,
       predictPasses rec observerLat observerLon scanStart hours minElevation
       = Ret ps)
    <-> (forall i, 0 <= i < hours * 60 ->
           passSample rec observerLat observerLon (sampleTime scanStart i) <> Throw).
Proof.
  intros lib rec oLat oLon scanStart hours minE. split.
  - intros (ps & H) i Hi.
    apply predictPasses_scan in H as (st & Hscan & _).
    unfold predictPassesScan in Hscan.
    apply (scanLoop_returned_samples rec oLat oLon scanStart minE _ 0 _ _ Hscan). lia.
  - apply predictPasses_returns.
Qed.

(** ** The ground track *)

Lemma offsets_sorted (s : Z) (n : nat) :
  0 < s ->
  forall a, StronglySorted Z.lt (map (fun k => Z.of_nat k * s) (seq a n)).
Proof.
  intros Hs. induction n as [| n IH]; intros a; cbn [seq map]; constructor.
  - apply IH.
  - apply Forall_forall. intros y Hy.
    apply in_map_iff in Hy as (k & <- & Hk). apply in_seq in Hk. nia.
Qed.

Lemma trackOffsets_sorted (durationMinutes : Z) (step : positive) :
  StronglySorted Z.lt (trackOffsets durationMinutes step).
Proof. apply offsets_sorted. lia. Qed.

Lemma trackOffsets_In (durationMinutes : Z) (step : positive) (i : Z) :
  In i (trackOffsets durationMinutes step)
  <-> exists k, 0 <= k /\ i = k * Z.pos step /\ i < durationMinutes.
Proof.
  unfold trackOffsets.
  set (s := Z.pos step). assert (Hs : 0 < s) by (subst s; lia).
  pose proof (Z.mul_div_le (durationMinutes + s - 1) s Hs) as Hle.
  pose proof (Z.mul_succ_div_gt (durationMinutes + s - 1) s Hs) as Hgt.
  rewrite in_map_iff. split.
  - intros (k & <- & Hk). apply in_seq in Hk. exists (Z.of_nat k).
    split; [lia |]. split; [reflexivity |].
    assert (Z.of_nat k < (durationMinutes + s - 1) / s) by lia. nia.
  - intros (k & Hk & -> & Hlt). exists (Z.to_nat k).
    rewrite Z2Nat.id by lia. split; [reflexivity |].
    apply in_seq. split; [lia |]. cbn.
    assert (k + 1 <= (durationMinutes + s - 1) / s); [| lia].
    apply Z.div_le_lower_bound; nia.
Qed.

Section TrackFacts.

Context {lib : SatelliteJs}.
Variables (rec : satrec) (start : Z).

Lemma groundTrackSample_spec (i : Z) (points points' : list GroundTrackPoint) :
  groundTrackSample rec start i points = Ret points' ->
  (points' = points
   /\ forall p, ~ trackPointAt rec start i p)
  \/ (exists p, points' = points ++ [p] /\ trackPointAt rec start i p
                /\ forall q, trackPointAt rec start i q -> q = p).
Proof.
  unfold groundTrackSample, trackPointAt, producedAt.
  destruct (propagate rec (start + i * 60000)) as [[| f] |] eqn:Hp; cbn [bindO];
    try discriminate.
  destruct (positionOk f) as [pos |] eqn:Hf.
  - destruct (geodeticOf pos (start + i * 60000)) as [g |] eqn:Hg; cbn [bindO];
      try discriminate.
    destruct (allFinite g) eqn:Hfin; intros [= <-].
    + right. exists {| pointPosition := g; time := start + i * 60000 |}.
      split; [reflexivity |]. cbn [time pointPosition]. split.
      * split; [reflexivity |]. split; [| exact Hfin]. exists f, pos. auto.
      * intros [g' t'] (Ht & (f' & pos' & Hp' & Hf' & Hg') & _).
        cbn [time pointPosition] in *. subst t'.
        rewrite Hp in Hp'. injection Hp' as <-.
        rewrite Hf in Hf'. injection Hf' as <-.
        rewrite Hg in Hg'. injection Hg' as <-. reflexivity.
    + left. split; [reflexivity |].
      intros [g' t'] (Ht & (f' & pos' & Hp' & Hf' & Hg') & Hfin').
      cbn [time pointPosition] in *. subst t'.
      rewrite Hp in Hp'. injection Hp' as <-.
      rewrite Hf in Hf'. injection Hf' as <-.
      rewrite Hg in Hg'. injection Hg' as <-. congruence.
  - intros [= <-]. left. split; [reflexivity |].
    intros [g' t'] (Ht & (f' & pos' & Hp' & Hf' & _) & _).
    cbn [time pointPosition] in *. subst t'.
    rewrite Hp in Hp'. injection Hp' as <-. congruence.
Qed.

Lemma groundTrackLoop_spec (offsets : list Z) :
  StronglySorted Z.lt offsets ->
  forall points points',
    groundTrackLoop rec start offsets points = Ret points' ->
    exists new,
      points' = points ++ new
      /\ (forall p, In p new <-> exists i, In i offsets /\ trackPointAt rec start i p)
      /\ StronglySorted (fun p q => time p < time q) new
      /\ (List.length new <= List.length offsets)%nat.
Proof.
  induction 1 as [| i rest Hsorted IH Hi]; intros points points';
    cbn [groundTrackLoop].
  - intros [= <-]. exists []. rewrite app_nil_r.
    split; [reflexivity |]. split; [| split; [constructor | reflexivity]].
    intros p. split; [intros [] | intros (i & [] & _)].
  - destruct (groundTrackSample rec start i points) as [pts |] eqn:Hs; cbn [bindO];
      try discriminate.
    intros Hloop. destruct (IH _ _ Hloop) as (new & -> & Hin & Hsort & Hlen).
    assert (Hlater : forall q, In q new -> start + i * 60000 < time q).
    { intros q Hq. apply Hin in Hq as (j & Hj & Htj & _).
      rewrite Forall_forall in Hi. specialize (Hi j Hj). lia. }
    destruct (groundTrackSample_spec i points pts Hs)
      as [[-> Hnone] | (p & -> & Hp & Huniq)].
    + exists new. split; [reflexivity |]. split; [| split; [exact Hsort | cbn; lia]].
      intros q. rewrite Hin. split.
      * intros (j & Hj & Hq). exists j. split; [right; exact Hj | exact Hq].
      * intros (j & [<- | Hj] & Hq); [exfalso; exact (Hnone q Hq) |].
        exists j. auto.
    + exists (p :: new). rewrite <- app_assoc. split; [reflexivity |].
      split; [| split].
      * intros q. cbn [In]. rewrite Hin. split.
        -- intros [<- | (j & Hj & Hq)].
           ++ exists i. split; [left; reflexivity | exact Hp].
           ++ exists j. split; [right; exact Hj | exact Hq].
        -- intros (j & [<- | Hj] & Hq).
           ++ left. symmetry. apply Huniq. exact Hq.
           ++ right. exists j. auto.
      * constructor; [exact Hsort |]. apply Forall_forall. intros q Hq.
        destruct Hp as (Htp & _). rewrite Htp. apply Hlater. exact Hq.
      * cbn. lia.
Qed.

End TrackFacts.

(** X8: the points [calculateGroundTrack] returns are exactly the points
    made of the minute offsets 0, step, 2 step, ... below the duration
    at which the propagation yields a usable position whose three
    geodetic components are finite; they come in strictly increasing
    order of time, and there are no more of them than offsets. *)
Theorem calculateGroundTrack_points :
  forall (lib : SatelliteJs) (rec : satrec) (start durationMinutes : Z)
         (step : positive) (points : list GroundTrackPoint),
    calculateGroundTrack rec start durationMinutes step = Ret points ->
    (forall p,
       In p points
       <-> exists k, 0 <= k /\ k * Z.pos step < durationMinutes
                     /\ trackPointAt rec start (k * Z.pos step) p)
    /\ StronglySorted (fun p q => time p < time q) points
    /\ (List.length points
        <= Z.to_nat ((durationMinutes + Z.pos step - 1) / Z.pos step))%nat.
Proof.
  intros lib rec start d step points H. unfold calculateGroundTrack in H.
  destruct (groundTrackLoop_spec rec start _ (trackOffsets_sorted d step) _ _ H)
    as (new & -> & Hin & Hsort & Hlen).
  cbn [app]. split; [| split; [exact Hsort |]].
  - intros p. rewrite Hin. split.
    + intros (i & Hi & Hp). apply trackOffsets_In in Hi as (k & Hk & -> & Hlt).
      exists k. auto.
    + intros (k & Hk & Hlt & Hp). exists (k * Z.pos step).
      split; [| exact Hp]. apply trackOffsets_In. exists k. auto.
  - unfold trackOffsets in Hlen. rewrite length_map, length_seq in Hlen. exact Hlen.
Qed.

Lemma calculateGroundTrack_points_witness :
  (forall p,
     In p [ {| pointPosition := Scripted.overOriginPosition; time := 0 |};
            {| pointPosition := Scripted.overOriginPosition; time := 120000 |} ]
     <-> exists k, 0 <= k /\ k * Z.pos 2 < 4
                   /\ trackPointAt (lib := Scripted.steady) Scripted.overOrigin
                        0 (k * Z.pos 2) p)
  /\ StronglySorted (fun p q => time p < time q)
       [ {| pointPosition := Scripted.overOriginPosition; time := 0 |};
         {| pointPosition := Scripted.overOriginPosition; time := 120000 |} ]
  /\ (List.length
        [ {| pointPosition := Scripted.overOriginPosition; time := 0 |};
          {| pointPosition := Scripted.overOriginPosition; time := 120000 |} ]
      <= Z.to_nat ((4 + Z.pos 2 - 1) / Z.pos 2))%nat.
Proof.
  apply (calculateGroundTrack_points Scripted.steady Scripted.overOrigin 0 4 2).
  reflexivity.
Defined.

(** ** The producers of positions agree *)

Section ProducersAgree.

Context {lib : SatelliteJs}.
Variables (rec : satrec) (t : Z).

Lemma propagateSatellite_produced (g : GeodeticPosition) :
  fst (propagateSatellite rec t) = Some g <-> producedAt rec t g.
Proof.
  unfold propagateSatellite, producedAt. split.
  - destruct (propagate rec t) as [[| f] |]; cbn; try discriminate.
    destruct (positionOk f) as [p |] eqn:Hf; cbn; try discriminate.
    destruct (geodeticOf p t) as [g' |] eqn:Hg; cbn; try discriminate.
    intros [= <-]. exists f, p. auto.
  - intros (f & p & -> & -> & ->). reflexivity.
Qed.

Lemma passSample_produced (observerLat observerLon : jsnum) (v : VisibilityResult) :
  passSample rec observerLat observerLon t = Ret (Some v)
  <-> exists g, producedAt rec t g /\ allFinite g = true
                /\ v = calculateVisibility (Some g) observerLat observerLon 0.
Proof.
  unfold passSample, producedAt. split.
  - destruct (propagate rec t) as [[| f] |]; cbn [bindO]; try discriminate.
    destruct (positionOk f) as [p |] eqn:Hf; try discriminate.
    destruct (geodeticOf p t) as [g |] eqn:Hg; cbn [bindO]; try discriminate.
    destruct (negb (isFinite (latitude g)) || negb (isFinite (longitude g))
              || negb (isFinite (altitude g))) eqn:E; [discriminate |].
    intros [= <-]. exists g. split; [exists f, p; auto |]. split; [| reflexivity].
    destruct (allFinite g) eqn:Hfin; [reflexivity |].
    apply allFinite_false in Hfin. congruence.
  - intros (g & (f & p & Hp & Hf & Hg) & Hfin & ->).
    rewrite Hp. cbn [bindO]. rewrite Hf, Hg. cbn [bindO].
    destruct (negb (isFinite (latitude g)) || negb (isFinite (longitude g))
              || negb (isFinite (altitude g))) eqn:E; [| reflexivity].
    apply allFinite_false in E. congruence.
Qed.

Lemma workerPosition_produced (sat : Sat) (l1 l2 : string) (pos : SatPosition) :
  tle1 sat = Some l1 -> tle2 sat = Some l2 ->
  tleInvalid (tle1 sat) (tle2 sat) = false ->
  twoline2satrec l1 l2 = Ret rec -> satrecError rec = false ->
  fst (workerPosition t sat) = Some pos
  <-> exists g, producedAt rec t g
                /\ pos = {| posId := id sat; posName := name sat; posGeo := g |}.
Proof.
  intros H1 H2 Hv Ht He. unfold workerPosition, producedAt.
  rewrite Hv, H1, H2, Ht, He. split.
  - destruct (propagate rec t) as [[| f] |]; cbn; try discriminate.
    destruct (positionOk f) as [p |] eqn:Hf; cbn; try discriminate.
    destruct (geodeticOf p t) as [g |] eqn:Hg; cbn; try discriminate.
    intros [= <-]. exists g. split; [exists f, p; auto | reflexivity].
  - intros (g & (f & p & -> & -> & ->) & ->). reflexivity.
Qed.

End ProducersAgree.

(** X9: [propagateSatellite], the pass scan and the batch worker obtain a
    position in the same cases, namely when the library propagates to a
    usable position and converts it without throwing, and it is the same
    position; the scan also requires its three components to be
    finite. *)
Theorem producers_agree :
  forall (lib : SatelliteJs) (rec : satrec) (t : Z),
    (forall g, fst (propagateSatellite rec t) = Some g <-> producedAt rec t g)
    /\ (forall observerLat observerLon v,
          passSample rec observerLat observerLon t = Ret (Some v)
          <-> exists g, fst (propagateSatellite rec t) = Some g
                        /\ allFinite g = true
                        /\ v = calculateVisibility (Some g) observerLat observerLon 0)
    /\ (forall sat l1 l2 pos,
          tle1 sat = Some l1 -> tle2 sat = Some l2 ->
          tleInvalid (tle1 sat) (tle2 sat) = false ->
          twoline2satrec l1 l2 = Ret rec -> satrecError rec = false ->
          (fst (workerPosition t sat) = Some pos
           <-> exists g, fst (propagateSatellite rec t) = Some g
                         /\ pos = {| posId := id sat; posName := name sat;
                                     posGeo := g |})).
Proof.
  intros lib rec t. split; [apply propagateSatellite_produced |]. split.
  - intros oLat oLon v. rewrite passSample_produced. split.
    + intros (g & Hg & H). exists g. split; [now apply propagateSatellite_produced | exact H].
    + intros (g & Hg & H). exists g. split; [now apply propagateSatellite_produced | exact H].
  - intros sat l1 l2 pos H1 H2 Hv Ht He.
    rewrite (workerPosition_produced rec t sat l1 l2 pos H1 H2 Hv Ht He). split.
    + intros (g & Hg & H). exists g. split; [now apply propagateSatellite_produced | exact H].
    + intros (g & Hg & H). exists g. split; [now apply propagateSatellite_produced | exact H].
Qed.

(** ** Equatorial orbits *)

(** X3: an observer on the equator is never told of a pass of a
    satellite that stays over the equator, as a geostationary satellite
    does: when every position the library produces during the scan has
    latitude 0 and the threshold is not negative, [predictPasses]
    returns the empty list, whatever the longitudes and altitudes. *)
Theorem predictPasses_equatorial_orbit_unseen :
  forall (lib : SatelliteJs) (rec : satrec) (observerLon : jsnum)
         (scanStart hours : Z) (minElevation : R),
    (forall i, 0 <= i < hours * 60 ->
       passSample rec (Fin 0) observerLon (sampleTime scanStart i) <> Throw) ->
    (forall i g, 0 <= i < hours * 60 ->
       producedAt rec (sampleTime scanStart i) g -> latitude g = Fin 0) ->
    (0 <= minElevation)%R ->
    predictPasses rec (Fin 0) observerLon scanStart hours minElevation = Ret [].
Proof.
  intros lib rec oLon scanStart hours minE Hno Hequator Hmin.
  unfold predictPasses, predictPassesScan.
  rewrite scanLoop_never_opens; [reflexivity | reflexivity | |].
  - intros i Hi. apply Hno. lia.
  - intros i v Hi Hs. apply passSample_produced in Hs as (g & Hg & _ & ->).
    assert (Hlat : latitude g = Fin 0) by (apply (Hequator i); [lia | exact Hg]).
    destruct (elevation_on_equator g oLon 0 Hlat) as [Hle _]. cbv zeta in Hle. lra.
Qed.

Lemma producedAt_overOrigin (t : Z) (g : GeodeticPosition) :
  producedAt (lib := Scripted.steady) Scripted.overOrigin t g ->
  g = Scripted.overOriginPosition.
Proof.
  intros (f & p & Hf & Hp & Hg).
  cbn in Hf. injection Hf as <-. cbn in Hp. injection Hp as <-.
  cbn in Hg. injection Hg as <-. reflexivity.
Qed.

Lemma predictPasses_equatorial_orbit_unseen_witness :
  predictPasses (lib := Scripted.steady) Scripted.overOrigin (Fin 0) (Fin 10)
    0 24 10
  = Ret [].
Proof.
  apply (predictPasses_equatorial_orbit_unseen Scripted.steady Scripted.overOrigin
           (Fin 10) 0 24 10).
  - intros i _. discriminate.
  - intros i g _ Hg. apply producedAt_overOrigin in Hg. rewrite Hg. reflexivity.
  - lra.
Defined.

(** ** The catalog filter, in full *)

Lemma tleInvalid_false_iff (l1 l2 : string) :
  tleInvalid (Some l1) (Some l2) = false
  <-> String.length l1 = 69%nat /\ String.length l2 = 69%nat.
Proof.
  split.
  - intros H. apply tleInvalid_false in H as [H1 H2].
    apply lengthIs_true in H1 as (s1 & [= <-] & L1).
    apply lengthIs_true in H2 as (s2 & [= <-] & L2). auto.
  - intros [L1 L2]. unfold tleInvalid. cbn [JsString.lengthIs].
    rewrite L1, L2. cbn [Nat.eqb negb orb].
    destruct l1; [discriminate |]. destruct l2; [discriminate |]. reflexivity.
Qed.

Lemma olderThan_false_iff (now : Z) (epoch : option Z) :
  olderThan 60 (tleAgeDays now epoch) = false
  <-> (forall e, epoch = Some e -> now - e <= 60 * JsDate.msPerDay).
Proof.
  destruct epoch as [e |].
  - rewrite <- not_true_iff_false, olderThan_60_iff. split.
    + intros H e' [= <-]. lia.
    + intros H. specialize (H e eq_refl). lia.
  - cbn. split; [intros _ e; discriminate | reflexivity].
Qed.

Section FilterInFull.

Context {lib : SatelliteJs}.

Lemma keepSatellite_true_iff (tz now : Z) (sat : Sat) :
  fst (keepSatellite tz now sat) = true
  <-> exists l1 l2,
        tle1 sat = Some l1 /\ tle2 sat = Some l2
        /\ String.length l1 = 69%nat /\ String.length l2 = 69%nat
        /\ (forall e, parseTLEEpoch tz l1 = Some e ->
                      now - e <= 60 * JsDate.msPerDay)
        /\ trialPropagates l1 l2 now.
Proof.
  split.
  - intros Hk. pose proof (keepSatellite_true_valid tz now sat Hk) as Hv.
    pose proof (tleInvalid_false _ _ Hv) as [E1 E2].
    apply lengthIs_true in E1 as (l1 & H1 & L1).
    apply lengthIs_true in E2 as (l2 & H2 & L2).
    exists l1, l2. repeat split; try assumption.
    + apply olderThan_false_iff.
      unfold keepSatellite in Hk. rewrite Hv, H1, H2 in Hk.
      destruct (olderThan 60 (tleAgeDays now (parseTLEEpoch tz l1)));
        [discriminate | reflexivity].
    + unfold keepSatellite in Hk. rewrite Hv, H1, H2 in Hk.
      destruct (olderThan 60 (tleAgeDays now (parseTLEEpoch tz l1)));
        [discriminate |].
      unfold trialPropagates, propagatesTo.
      destruct (twoline2satrec l1 l2) as [rec |] eqn:Ht; [| discriminate].
      destruct (satrecError rec) eqn:He; [discriminate |].
      destruct (propagate rec now) as [[| f] |] eqn:Hp; try discriminate.
      destruct (positionOk f) as [p |] eqn:Hf; [| discriminate].
      exists f, p. split; [exists rec; auto | exact Hf].
  - intros (l1 & l2 & H1 & H2 & L1 & L2 & Hage & Htrial).
    rewrite (keepSatellite_fresh tz now sat l1 l2 H1 H2); [reflexivity | | | exact Htrial].
    + rewrite H1, H2. now apply tleInvalid_false_iff.
    + now apply olderThan_false_iff.
Qed.

Lemma validSatellites_filter (tz now : Z) (data : list Sat) :
  fst (validSatellites tz now data)
  = filter (fun sat => fst (keepSatellite tz now sat)) data.
Proof.
  induction data as [| s rest IH]; cbn [validSatellites filter]; [reflexivity |].
  destruct (keepSatellite tz now s) as [keep log].
  destruct (validSatellites tz now rest) as [kept logs].
  cbn [fst] in *. rewrite <- IH. destruct keep; reflexivity.
Qed.

End FilterInFull.

(** X10: the catalog filter keeps, in their order, exactly the records
    whose two TLE lines are present and 69 characters long, whose
    decoded epoch, when line 1 decodes to a valid date, is at most 60
    days before "now" (exactly 60 days is still kept; a line whose epoch
    does not decode is not rejected for its age), and whose trial
    propagation at "now" yields a usable position. *)
Theorem validSatellites_keeps_exactly :
  forall (lib : SatelliteJs) (tz now : Z) (data : list Sat),
    fst (validSatellites tz now data)
    = filter (fun sat => fst (keepSatellite tz now sat)) data
    /\ (forall sat,
          In sat (fst (validSatellites tz now data))
          <-> In sat data
              /\ exists l1 l2,
                   tle1 sat = Some l1 /\ tle2 sat = Some l2
                   /\ String.length l1 = 69%nat /\ String.length l2 = 69%nat
                   /\ (forall e, parseTLEEpoch tz l1 = Some e ->
                                 now - e <= 60 * JsDate.msPerDay)
                   /\ trialPropagates l1 l2 now).
Proof.
  intros lib tz now data. split; [apply validSatellites_filter |].
  intros sat. rewrite validSatellites_In, keepSatellite_true_iff. reflexivity.
Qed.

(** X11: a satellite that the catalog filter keeps at an instant is, at
    the same instant, delivered by the batch worker with its id and name
    and without console output, unless the conversion of its position to
    geodetic coordinates throws, in which case the worker logs an error
    and leaves it out. *)
Theorem kept_satellite_is_delivered :
  forall (lib : SatelliteJs) (tz t : Z) (sat : Sat),
    fst (keepSatellite tz t sat) = true ->
    exists l1 l2 rec f p,
      tle1 sat = Some l1 /\ tle2 sat = Some l2
      /\ twoline2satrec l1 l2 = Ret rec
      /\ propagate rec t = Ret (PV f) /\ positionOk f = Some p
      /\ workerPosition t sat
         = match geodeticOf p t with
           | Ret g =>
               (Some {| posId := id sat; posName := name sat; posGeo := g |},
                [CallTwoline2satrec l1 l2; CallPropagate t])
           | Throw =>
               (None, [CallTwoline2satrec l1 l2; CallPropagate t;
                       ConsoleError ("Error propagating satellite " ++ name sat
                                     ++ ":")])
           end.
Proof.
  intros lib tz t sat Hk.
  pose proof (keepSatellite_true_valid tz t sat Hk) as Hv.
  apply keepSatellite_true_iff in Hk
    as (l1 & l2 & H1 & H2 & _ & _ & _ & (f & p & (rec & Ht & He & Hp) & Hf)).
  exists l1, l2, rec, f, p. repeat split; try assumption.
  unfold workerPosition. rewrite Hv, H1, H2, Ht, He, Hp, Hf.
  destruct (geodeticOf p t); reflexivity.
Qed.

Lemma kept_satellite_is_delivered_witness :
  exists l1 l2 rec f p,
    tle1 Scripted.iss = Some l1 /\ tle2 Scripted.iss = Some l2
    /\ twoline2satrec (SatelliteJs := Scripted.steady) l1 l2 = Ret rec
    /\ propagate rec 1712966400000 = Ret (PV f) /\ positionOk f = Some p
    /\ workerPosition (lib := Scripted.steady) 1712966400000 Scripted.iss
       = match geodeticOf p 1712966400000 with
         | Ret g =>
             (Some {| posId := id Scripted.iss; posName := name Scripted.iss;
                      posGeo := g |},
              [CallTwoline2satrec l1 l2; CallPropagate 1712966400000])
         | Throw =>
             (None, [CallTwoline2satrec l1 l2; CallPropagate 1712966400000;
                     ConsoleError ("Error propagating satellite "
                                   ++ name Scripted.iss ++ ":")])
         end.
Proof.
  apply (kept_satellite_is_delivered Scripted.steady 0 1712966400000 Scripted.iss).
  vm_compute. reflexivity.
Defined.

(** ** The local date decoded from an epoch field *)

Lemma dayInYear_tle_years (y n : Z) :
  1957 <= y <= 2056 -> 1 <= n <= 365 -> dayInYearOk y n = true.
Proof.
  intros Hy Hn.
  assert (Hall : forallb (fun k => yearDaysOk (1957 + Z.of_nat k)) (seq 0 100) = true)
    by (vm_compute; reflexivity).
  rewrite forallb_forall in Hall.
  specialize (Hall (Z.to_nat (y - 1957))).
  rewrite Z2Nat.id in Hall by lia.
  replace (1957 + (y - 1957)) with y in Hall by lia.
  assert (Hyear : yearDaysOk y = true) by (apply Hall, in_seq; lia).
  unfold yearDaysOk in Hyear. rewrite forallb_forall in Hyear.
  specialize (Hyear (Z.to_nat (n - 1))).
  rewrite Z2Nat.id in Hyear by lia.
  replace (1 + (n - 1)) with n in Hyear by lia.
  apply Hyear, in_seq. lia.
Qed.

Lemma Qtrunc_day (q : Q) :
  (1 <= q)%Q -> (q < 366)%Q ->
  JsString.Qtrunc (inject_Z 1 + q + - (1)) = Qfloor q /\ 1 <= Qfloor q <= 365.
Proof.
  intros Hlo Hhi.
  assert (Heq : (inject_Z 1 + q + - (1) == q)%Q)
    by (change (inject_Z 1) with 1%Q; Lqa.lra).
  split.
  - unfold JsString.Qtrunc.
    assert (Hnn : Qle_bool 0 (inject_Z 1 + q + - (1)) = true)
      by (apply Qle_bool_iff; rewrite Heq; Lqa.lra).
    rewrite Hnn. apply Qfloor_comp. exact Heq.
  - pose proof (Qfloor_le q) as Hfl. pose proof (Qlt_floor q) as Hlt.
    split.
    + change 1 with (Qfloor 1). apply Qfloor_resp_le. exact Hlo.
    + assert (H : (inject_Z (Qfloor q) < inject_Z 366)%Q).
      { change (inject_Z 366) with 366%Q. Lqa.lra. }
      rewrite <- Zlt_Qlt in H. lia.
Qed.

(** X12: when the epoch field of line 1 holds a two-digit year and a day
    of the year from 1 up to, not including, 366, the date decoded is, in
    local time, midnight of that day of the year 20yy (yy below 57) or
    19yy: the year and the whole day are recovered, the fraction of the
    day is not. *)
Theorem parseTLEEpoch_local_date :
  forall (tz : Z) (tle1 : string) (y : Z) (q : Q),
    JsString.parseInt
      (JsString.substring 0 2 (JsString.trim (JsString.substring 18 32 tle1)))
    = Some y ->
    0 <= y <= 99 ->
    JsString.parseFloat
      (JsString.substringFrom 2 (JsString.trim (JsString.substring 18 32 tle1)))
    = JsString.DFin q ->
    (1 <= q)%Q -> (q < 366)%Q ->
    Z.abs tz <= JsDate.msPerDay ->
    exists e,
      parseTLEEpoch tz tle1 = Some e
      /\ JsDate.YearFromTime (JsDate.LocalTime tz e)
         = (if y <? 57 then 2000 + y else 1900 + y)
      /\ JsDate.DayWithinYear (JsDate.LocalTime tz e) = Qfloor q - 1
      /\ JsDate.TimeWithinDay (JsDate.LocalTime tz e) = 0.
Proof.
  intros tz tle1 y q Hy Hrange Hq Hlo Hhi Htz.
  destruct (parseTLEEpoch_whole_days tz tle1 y q Hy Hrange Hq Htz)
    as (f & Hf & Hdec).
  rewrite fullYearOf_pivot in Hf.
  assert (Hf' : (if y <? 57 then 2000 + y else 1900 + y) = f) by congruence.
  clear Hf. rename Hf' into Hf.
  destruct (Qtrunc_day q Hlo Hhi) as [Htr Hn]. rewrite Htr in Hdec.
  set (n := Qfloor q) in *.
  assert (Hfr : 1957 <= f <= 2056)
    by (revert Hf; destruct (Z.ltb_spec y 57); intros; lia).
  pose proof (yearStart_tle_years f Hfr) as Hok. unfold yearStartOk in Hok.
  repeat (apply andb_prop in Hok as [Hok ?]).
  repeat match goal with
  | H : (_ =? _) = true |- _ => apply Z.eqb_eq in H
  | H : (_ <=? _) = true |- _ => apply Z.leb_le in H
  end.
  pose proof (dayInYear_tle_years f n Hfr Hn) as Hday.
  unfold dayInYearOk in Hday. apply Z.eqb_eq in Hday.
  exists (JsDate.TimeFromYear f + (n - 1) * JsDate.msPerDay - tz).
  assert (Hlocal : JsDate.LocalTime tz
                     (JsDate.TimeFromYear f + (n - 1) * JsDate.msPerDay - tz)
                   = JsDate.TimeFromYear f + (n - 1) * JsDate.msPerDay)
    by (unfold JsDate.LocalTime; lia).
  rewrite Hlocal. split; [| split; [| split]].
  - rewrite Hdec. apply TimeClip_small. unfold JsDate.UTC.
    unfold JsDate.msPerDay in *. lia.
  - rewrite Hday. symmetry. exact Hf.
  - unfold JsDate.DayWithinYear. rewrite Hday.
    unfold JsDate.Day, JsDate.TimeFromYear.
    replace (JsDate.msPerDay * JsDate.DayFromYear f + (n - 1) * JsDate.msPerDay)
      with ((JsDate.DayFromYear f + (n - 1)) * JsDate.msPerDay) by ring.
    rewrite Z.div_mul by (unfold JsDate.msPerDay; lia). lia.
  - unfold JsDate.TimeWithinDay, JsDate.TimeFromYear.
    replace (JsDate.msPerDay * JsDate.DayFromYear f + (n - 1) * JsDate.msPerDay)
      with ((JsDate.DayFromYear f + (n - 1)) * JsDate.msPerDay) by ring.
    apply Z.mod_mul. unfold JsDate.msPerDay. lia.
Qed.

Lemma parseTLEEpoch_local_date_witness :
  exists e,
    parseTLEEpoch 0 Scripted.issLine1 = Some e
    /\ JsDate.YearFromTime (JsDate.LocalTime 0 e)
       = (if 24 <? 57 then 2000 + 24 else 1900 + 24)
    /\ JsDate.DayWithinYear (JsDate.LocalTime 0 e)
       = Qfloor (4550000000 # 100000000) - 1
    /\ JsDate.TimeWithinDay (JsDate.LocalTime 0 e) = 0.
Proof.
  apply (parseTLEEpoch_local_date 0 Scripted.issLine1 24
           (4550000000 # 100000000)).
  - vm_compute. reflexivity.
  - lia.
  - vm_compute. reflexivity.
  - unfold Qle. simpl. lia.
  - unfold Qlt. simpl. lia.
  - vm_compute. discriminate.
Defined.

Lemma substring_past_end (n m : nat) :
  forall s : string, (String.length s <= n)%nat -> String.substring n m s = EmptyString.
Proof.
  induction n as [| n IH]; intros s Hs.
  - destruct s; [| cbn in Hs; lia]. destruct m; reflexivity.
  - destruct s as [| c s]; [reflexivity |]. cbn in Hs. cbn. apply IH. lia.
Qed.

(** X13: [parseTLEEpoch] returns an invalid date when the line is
    shorter than 19 characters, when its year field is not a number, and
    when what follows the year is not a finite number. *)
Theorem parseTLEEpoch_invalid_date :
  forall (tz : Z) (tle1 : string),
    (String.length tle1 <= 18)%nat
    \/ JsString.parseInt
         (JsString.substring 0 2 (JsString.trim (JsString.substring 18 32 tle1)))
       = None
    \/ (forall q,
          JsString.parseFloat
            (JsString.substringFrom 2
               (JsString.trim (JsString.substring 18 32 tle1)))
          <> JsString.DFin q) ->
    parseTLEEpoch tz tle1 = None.
Proof.
  intros tz tle1 H.
  assert (Hyear : JsString.parseInt
                    (JsString.substring 0 2
                       (JsString.trim (JsString.substring 18 32 tle1))) = None
                  -> parseTLEEpoch tz tle1 = None).
  { intros Hy. unfold parseTLEEpoch. rewrite Hy. reflexivity. }
  destruct H as [Hshort | [Hy | Hd]].
  - apply Hyear. unfold JsString.substring at 2.
    rewrite substring_past_end by (cbn; lia). reflexivity.
  - apply Hyear. exact Hy.
  - unfold parseTLEEpoch.
    destruct (JsString.parseFloat _) as [q | |] eqn:Hq.
    + exfalso. exact (Hd q eq_refl).
    + destruct (JsDate.newDate tz _ 0 1) as [u |]; [| reflexivity].
      destruct (JsDate.getDate tz (Some u)); reflexivity.
    + destruct (JsDate.newDate tz _ 0 1) as [u |]; [| reflexivity].
      destruct (JsDate.getDate tz (Some u)); reflexivity.
Qed.

Lemma parseTLEEpoch_invalid_date_witness :
  parseTLEEpoch 3600000 "1 25544U 98067A" = None.
Proof.
  apply (parseTLEEpoch_invalid_date 3600000 "1 25544U 98067A").
  left. simpl. lia.
Defined.

(** ** The records made by the service *)

Lemma usableItems_In (items : list (option SpaceTrackService.Item)) (s : Sat) :
  In s (SpaceTrackService.usableItems items)
  <-> exists it, In (Some it) items
                 /\ SpaceTrackService.itemUsable (Some it) = true
                 /\ s = SpaceTrackService.itemToSat it.
Proof.
  induction items as [| [it |] rest IH]; cbn [SpaceTrackService.usableItems].
  - split; [intros [] | intros (it & [] & _)].
  - destruct (SpaceTrackService.itemUsable (Some it)) eqn:E; cbn [In]; rewrite IH.
    + split.
      * intros [<- | (it' & Hin & H)]; [exists it; auto | exists it'; auto].
      * intros (it' & [[= <-] | Hin] & Hu & ->); [left; reflexivity |].
        right. exists it'. auto.
    + split.
      * intros (it' & Hin & H). exists it'. auto.
      * intros (it' & [[= <-] | Hin] & Hu & ->); [congruence |].
        exists it'. auto.
  - rewrite IH. split.
    + intros (it' & Hin & H). exists it'. split; [right; exact Hin | exact H].
    + intros (it' & [Hd | Hin] & H); [discriminate |]. exists it'. auto.
Qed.

Lemma usableItems_length (items : list (option SpaceTrackService.Item)) :
  (List.length (SpaceTrackService.usableItems items) <= List.length items)%nat.
Proof.
  induction items as [| [it |] rest IH]; cbn [SpaceTrackService.usableItems List.length];
    [lia | | lia].
  destruct (SpaceTrackService.itemUsable (Some it)); cbn [List.length]; lia.
Qed.

Lemma truthy_orEmpty (o : option string) :
  JsString.truthy o = true -> o = Some (SpaceTrackService.orEmpty o)
                              /\ SpaceTrackService.orEmpty o <> EmptyString.
Proof.
  destruct o as [[| c s] |]; cbn; try discriminate. intros _. split; congruence.
Qed.

(** X14: [parseSpaceTrackData] returns nothing for a value that is not
    an array; for an array it returns one record for each element that
    has an id, a name and two TLE lines of exactly 69 characters, and no
    other.  Every record returned has a non-empty name, the category
    [determineCategory] gives that name, and lines that pass the
    structural test of the catalog filter and of the batch worker. *)
Theorem parseSpaceTrackData_records :
  forall (data : option (list (option SpaceTrackService.Item))),
    (data = None -> SpaceTrackService.parseSpaceTrackData data = [])
    /\ (forall items s,
          data = Some items ->
          (In s (SpaceTrackService.parseSpaceTrackData data)
           <-> exists it, In (Some it) items
                          /\ SpaceTrackService.itemUsable (Some it) = true
                          /\ s = SpaceTrackService.itemToSat it))
    /\ (forall items,
          data = Some items ->
          (List.length (SpaceTrackService.parseSpaceTrackData data)
           <= List.length items)%nat)
    /\ (forall s,
          In s (SpaceTrackService.parseSpaceTrackData data) ->
          name s <> EmptyString
          /\ category s = SpaceTrackService.determineCategory (name s)
          /\ tleInvalid (tle1 s) (tle2 s) = false).
Proof.
  intros data. split; [intros ->; reflexivity |].
  split; [intros items s ->; apply usableItems_In |].
  split; [intros items ->; apply usableItems_length |].
  intros s Hin. destruct data as [items |]; [| destruct Hin].
  apply usableItems_In in Hin as (it & _ & Hu & ->).
  cbn [SpaceTrackService.itemUsable] in Hu.
  repeat (apply andb_prop in Hu as [Hu ?]).
  cbn [SpaceTrackService.itemToSat name category tle1 tle2].
  split; [apply truthy_orEmpty; assumption |]. split; [reflexivity |].
  unfold tleInvalid.
  repeat match goal with H : _ = true |- _ => rewrite H; clear H end.
  reflexivity.
Qed.

(** ** Categories *)

Lemma upperChar_idem (c : ascii) :
  JsString.upperChar (JsString.upperChar c) = JsString.upperChar c.
Proof. destruct c as [[] [] [] [] [] [] [] []]; reflexivity. Qed.

Lemma upperChar_lowerChar (c : ascii) :
  JsString.upperChar (lowerChar c) = JsString.upperChar c.
Proof. destruct c as [[] [] [] [] [] [] [] []]; reflexivity. Qed.

Lemma lowerChar_upperChar (c : ascii) :
  lowerChar (JsString.upperChar c) = lowerChar c.
Proof. destruct c as [[] [] [] [] [] [] [] []]; reflexivity. Qed.

Lemma toUpperCase_idem (s : string) :
  JsString.toUpperCase (JsString.toUpperCase s) = JsString.toUpperCase s.
Proof.
  induction s as [| c s IH]; cbn; [reflexivity |]. now rewrite upperChar_idem, IH.
Qed.

Lemma toUpperCase_toLowerCase (s : string) :
  JsString.toUpperCase (toLowerCase s) = JsString.toUpperCase s.
Proof.
  induction s as [| c s IH]; cbn; [reflexivity |]. now rewrite upperChar_lowerChar, IH.
Qed.

Lemma toLowerCase_toUpperCase (s : string) :
  toLowerCase (JsString.toUpperCase s) = toLowerCase s.
Proof.
  induction s as [| c s IH]; cbn; [reflexivity |]. now rewrite lowerChar_upperChar, IH.
Qed.

(** X15: [determineCategory] always returns one of the six category
    names; and for a name of ASCII characters it ignores letter case: the
    name, its upper-case form and its lower-case form get the same
    category. *)
Theorem determineCategory_total_and_case_blind :
  forall (name : string),
    In (SpaceTrackService.determineCategory name)
       ["station"; "starlink"; "weather"; "navigation"; "communication";
        "other"]%string
    /\ (JsString.isAscii name = true ->
        SpaceTrackService.determineCategory (JsString.toUpperCase name)
        = SpaceTrackService.determineCategory name
        /\ SpaceTrackService.determineCategory (toLowerCase name)
           = SpaceTrackService.determineCategory name).
Proof.
  intros name. split; [| intros _; split].
  - unfold SpaceTrackService.determineCategory.
    repeat match goal with
    | |- context [if ?b then _ else _] => destruct b
    end; cbn; auto 10.
  - unfold SpaceTrackService.determineCategory. now rewrite toUpperCase_idem.
  - unfold SpaceTrackService.determineCategory. now rewrite toUpperCase_toLowerCase.
Qed.

Lemma determineCategory_case_blind_witness :
  SpaceTrackService.determineCategory "STARLINK-1007"
  = SpaceTrackService.determineCategory "Starlink-1007"
  /\ SpaceTrackService.determineCategory "starlink-1007"
     = SpaceTrackService.determineCategory "Starlink-1007".
Proof.
  apply (determineCategory_total_and_case_blind "Starlink-1007"). reflexivity.
Defined.

(** ** The search box *)

Lemma includes_empty (s : string) : JsString.includes EmptyString s = true.
Proof. destruct s; reflexivity. Qed.

Lemma filter_all {A : Type} (f : A -> bool) (l : list A) :
  (forall x, In x l -> f x = true) -> filter f l = l.
Proof.
  induction l as [| a l IH]; intros H; cbn; [reflexivity |].
  rewrite (H a (or_introl eq_refl)). f_equal. apply IH. intros x Hx. apply H. now right.
Qed.

(** X16: the search keeps every satellite when the term is empty; it
    keeps satellites in their order and only satellites of the list; and
    it ignores the letter case of a term of ASCII characters. *)
Theorem filteredSatellites_search :
  forall (satellites : list Sat) (searchTerm : string),
    filteredSatellites satellites EmptyString = satellites
    /\ (forall sat, In sat (filteredSatellites satellites searchTerm) ->
                    In sat satellites)
    /\ (JsString.isAscii searchTerm = true ->
        filteredSatellites satellites (JsString.toUpperCase searchTerm)
        = filteredSatellites satellites searchTerm
        /\ filteredSatellites satellites (toLowerCase searchTerm)
           = filteredSatellites satellites searchTerm).
Proof.
  intros satellites term. unfold filteredSatellites.
  split; [| split; [| intros _; split]].
  - apply filter_all. intros sat _. apply includes_empty.
  - intros sat Hin. apply filter_In in Hin. tauto.
  - now rewrite toLowerCase_toUpperCase.
  - assert (Hid : toLowerCase (toLowerCase term) = toLowerCase term).
    { rewrite <- (toLowerCase_toUpperCase (toLowerCase term)).
      rewrite toUpperCase_toLowerCase. apply toLowerCase_toUpperCase. }
    now rewrite Hid.
Qed.

Lemma filteredSatellites_search_witness :
  filteredSatellites [Scripted.hst; Scripted.iss] "ISS"
  = filteredSatellites [Scripted.hst; Scripted.iss] "Iss"
  /\ filteredSatellites [Scripted.hst; Scripted.iss] "iss"
     = filteredSatellites [Scripted.hst; Scripted.iss] "Iss".
Proof.
  apply (filteredSatellites_search [Scripted.hst; Scripted.iss] "Iss").
  reflexivity.
Defined.

(** ** Durations on display *)

Lemma Int_part_IZR (z : Z) : Int_part (IZR z) = z.
Proof. symmetry. apply Int_part_spec. lra. Qed.

Lemma whole_minutes_split (n : Z) :
  0 <= n ->
  Int_part (IZR n / 60) = n / 60 /\ jsmod (IZR n) 60 = IZR (n mod 60).
Proof.
  intros Hn.
  pose proof (Z.div_mod n 60 ltac:(lia)) as Hdm.
  pose proof (Z.mod_pos_bound n 60 ltac:(lia)) as Hm.
  assert (Hr : IZR n = (60 * IZR (n / 60) + IZR (n mod 60))%R).
  { rewrite Hdm at 1. rewrite plus_IZR, mult_IZR. reflexivity. }
  assert (Hm0 : (0 <= IZR (n mod 60))%R) by (apply IZR_le; lia).
  assert (Hm1 : (IZR (n mod 60) < 60)%R) by (apply IZR_lt; lia).
  assert (Hq0 : (0 <= IZR (n / 60))%R)
    by (apply IZR_le; apply Z.div_pos; lia).
  assert (Hip : Int_part (IZR n / 60) = n / 60).
  { symmetry. apply Int_part_spec. rewrite Hr. lra. }
  split; [exact Hip |].
  unfold jsmod, Rtrunc.
  destruct (Rle_dec 0 (IZR n / 60)) as [_ | Hneg]; [| exfalso; apply Hneg; rewrite Hr; lra].
  rewrite Hip. lra.
Qed.

Lemma formatDuration_whole (n : Z) :
  0 <= n ->
  formatDuration (IZR n)
  = (if 60 <=? n
     then (showZ (n / 60) ++ "h " ++ showZ (n mod 60) ++ "m")%string
     else (showZ n ++ "m")%string).
Proof.
  intros Hn. destruct (whole_minutes_split n Hn) as [Hh Hm].
  unfold formatDuration. rewrite Hh, Hm, Int_part_IZR.
  destruct (Z.leb_spec 60 n) as [Hge | Hlt].
  - assert (H : (0 <? n / 60) = true).
    { apply Z.ltb_lt. apply Z.div_str_pos. lia. }
    rewrite H. reflexivity.
  - rewrite Z.div_small, Z.mod_small by lia. reflexivity.
Qed.

(** X17: for a whole number [n >= 0] of minutes, [formatDuration] shows
    the quotient and the remainder of [n] by 60 as "Hh Mm" when [n] is
    60 or more, and "Mm" with [M = n] otherwise; the duration of every
    pass returned by [predictPasses] is shown in this way, with
    [n >= 1]. *)
Theorem formatDuration_whole_minutes :
  forall (n : Z),
    0 <= n ->
    formatDuration (IZR n)
    = (if 60 <=? n
       then (showZ (n / 60) ++ "h " ++ showZ (n mod 60) ++ "m")%string
       else (showZ n ++ "m")%string)
    /\ (forall (lib : SatelliteJs) (rec : satrec) (observerLat observerLon : jsnum)
               (scanStart hours : Z) (minElevation : R) (ps : list Pass) (p : Pass),
          predictPasses rec observerLat observerLon scanStart hours minElevation
          = Ret ps ->
          In p ps ->
          exists k,
            1 <= k /\ duration p = Some (IZR k)
            /\ formatDuration (IZR k)
               = (if 60 <=? k
                  then (showZ (k / 60) ++ "h " ++ showZ (k mod 60) ++ "m")%string
                  else (showZ k ++ "m")%string)).
Proof.
  intros n Hn. split; [apply formatDuration_whole; exact Hn |].
  intros lib rec oLat oLon scanStart hours minE ps p H Hin.
  apply predictPasses_spec in H as [Hspec _].
  rewrite Forall_forall in Hspec.
  apply Hspec in Hin as (s & e & (H0 & H1 & H2 & H3 & H4 & H5) & _).
  exists (e - s). split; [lia |]. split; [exact H5 |].
  apply formatDuration_whole. lia.
Qed.

Lemma formatDuration_whole_minutes_witness :
  formatDuration (IZR 125) = "2h 5m"%string.
Proof.
  apply (formatDuration_whole_minutes 125). lia.
Defined.

(** ** Scene coordinates *)

Lemma norm2_scenePoint (radius lat lon : R) :
  norm2 (scenePoint radius lat lon) = (radius * radius)%R.
Proof.
  unfold norm2, scenePoint. cbn [vx vy vz].
  set (a := (lat * PI / 180)%R). set (b := ((lon + 90) * PI / 180)%R).
  pose proof (sin_cos_one a) as Ha. pose proof (sin_cos_one b) as Hb.
  replace (radius * cos a * sin b * (radius * cos a * sin b)
           + radius * sin a * (radius * sin a)
           + radius * cos a * cos b * (radius * cos a * cos b))%R
    with (radius * radius
          * (cos a * cos a * (sin b * sin b + cos b * cos b) + sin a * sin a))%R
    by ring.
  rewrite Hb. replace (cos a * cos a * 1 + sin a * sin a)%R
    with (sin a * sin a + cos a * cos a)%R by ring.
  rewrite Ha. ring.
Qed.

Lemma drawable_true (g : GeodeticPosition) :
  drawable g = true
  <-> allFinite g = true
      /\ (Rabs (realOf (latitude g)) <= 90)%R
      /\ (Rabs (realOf (longitude g)) <= 180)%R
      /\ (0 <= realOf (altitude g))%R.
Proof.
  unfold drawable, allFinite.
  rewrite !andb_true_iff, !negb_true_iff, !Rgtb_false_iff, Rltb_false_iff.
  tauto.
Qed.

(** X18: [Satellite3D] draws nothing, and warns, exactly when the
    position is missing, has a component that is not finite, a latitude
    beyond 90 or a longitude beyond 180 degrees in absolute value, or a
    negative altitude.  Otherwise the satellite is drawn at the distance
    6.371 + altitude / 1000 from the centre of the scene, hence never
    inside the Earth sphere of radius 6.371, on the ray through the
    observer marker of the same latitude and longitude, and the line
    drawn from it ends on that sphere. *)
Theorem satellite3D_placement :
  forall (position : option GeodeticPosition) (name : string),
    (fst (satellite3D position name) = None
     <-> position = None \/ exists g, position = Some g /\ drawable g = false)
    /\ (fst (satellite3D position name) = None ->
        snd (satellite3D position name)
        = [ConsoleWarn ("Invalid position data for satellite " ++ name ++ ":")])
    /\ (forall g, allFinite g = false -> drawable g = false)
    /\ (forall mark,
          fst (satellite3D position name) = Some mark ->
          exists g,
            position = Some g
            /\ (Rabs (realOf (latitude g)) <= 90)%R
            /\ (Rabs (realOf (longitude g)) <= 180)%R
            /\ let radius := (sceneRadius + realOf (altitude g) / 1000)%R in
               norm2 (groupPosition mark) = (radius * radius)%R
               /\ (sceneRadius <= radius)%R
               /\ (let m := observerMarker (realOf (latitude g))
                              (realOf (longitude g)) in
                   vx (groupPosition mark) = (radius / sceneRadius * vx m)%R
                   /\ vy (groupPosition mark) = (radius / sceneRadius * vy m)%R
                   /\ vz (groupPosition mark) = (radius / sceneRadius * vz m)%R)
               /\ norm2 {| vx := (vx (groupPosition mark) + vx (lineStart mark))%R;
                           vy := (vy (groupPosition mark) + vy (lineStart mark))%R;
                           vz := (vz (groupPosition mark) + vz (lineStart mark))%R |}
                  = (sceneRadius * sceneRadius)%R).
Proof.
  intros position name. unfold satellite3D.
  split; [| split; [| split]].
  - destruct position as [g |]; [| cbn; intuition].
    destruct (drawable g) eqn:Hd; cbn [negb fst]; split.
    + discriminate.
    + intros [H | (g' & [= <-] & H)]; congruence.
    + intros _. right. exists g. auto.
    + reflexivity.
  - destruct position as [g |]; [| reflexivity].
    destruct (drawable g); cbn [negb fst snd]; [discriminate | reflexivity].
  - intros g Hfin. destruct (drawable g) eqn:Hd; [| reflexivity].
    apply drawable_true in Hd as [Hd _]. congruence.
  - intros mark. destruct position as [g |]; [| discriminate].
    destruct (drawable g) eqn:Hd; cbn [negb fst]; [| discriminate].
    intros [= <-]. apply drawable_true in Hd as (_ & Hlat & Hlon & Halt).
    exists g. split; [reflexivity |]. split; [exact Hlat |]. split; [exact Hlon |].
    cbv zeta. cbn [groupPosition lineStart].
    split; [apply norm2_scenePoint |].
    split; [unfold sceneRadius; lra |].
    split.
    + unfold observerMarker, scenePoint. cbn [vx vy vz].
      repeat split; unfold sceneRadius; field; lra.
    + rewrite <- (norm2_scenePoint sceneRadius (realOf (latitude g))
                    (realOf (longitude g))).
      unfold norm2, scenePoint. cbn [vx vy vz]. ring.
Qed.

Lemma trackVertices_spec (track : list (option GroundTrackPoint)) :
  (List.length (trackVertices track) <= List.length track)%nat
  /\ Forall (fun v => (sceneRadius * sceneRadius <= norm2 v)%R) (trackVertices track)
  /\ List.length (trackVertices track)
     = List.length (filter pointDrawable track).
Proof.
  induction track as [| [p |] rest (IHlen & IHall & IHcount)];
    cbn [trackVertices filter pointDrawable List.length].
  - split; [lia |]. split; [constructor | reflexivity].
  - destruct (drawable (pointPosition p)) eqn:Hd; cbn [List.length].
    + split; [lia |]. split; [| lia]. constructor; [| exact IHall].
      rewrite norm2_scenePoint.
      apply drawable_true in Hd as (_ & _ & _ & Halt).
      unfold sceneRadius. nra.
    + split; [lia |]. split; [exact IHall | exact IHcount].
  - split; [lia |]. split; [exact IHall | exact IHcount].
Qed.

(** X19: [GroundTrack3D] draws nothing when the track is missing or has
    fewer than two points, or when fewer than two of its points pass the
    position test; otherwise it draws one vertex for each point that
    passes the test, in order, none of them inside the Earth sphere. *)
Theorem groundTrack3D_vertices :
  forall (groundTrack : option (list (option GroundTrackPoint))),
    (groundTrack3D groundTrack = None
     <-> groundTrack = None
         \/ exists track,
              groundTrack = Some track
              /\ (List.length (filter pointDrawable track) < 2)%nat)
    /\ (forall vertices,
          groundTrack3D groundTrack = Some vertices ->
          exists track,
            groundTrack = Some track
            /\ vertices = trackVertices track
            /\ List.length vertices = List.length (filter pointDrawable track)
            /\ (2 <= List.length vertices <= List.length track)%nat
            /\ Forall (fun v => (sceneRadius * sceneRadius <= norm2 v)%R) vertices).
Proof.
  intros groundTrack. unfold groundTrack3D.
  destruct groundTrack as [track |]; [| split; [intuition | discriminate]].
  destruct (trackVertices_spec track) as (Hlen & Hall & Hcount).
  pose proof (filter_length_le pointDrawable track) as Hfl.
  destruct (Nat.ltb_spec (List.length track) 2) as [Hshort | Hlong].
  - split; [| discriminate]. split; [| reflexivity].
    intros _. right. exists track. split; [reflexivity | lia].
  - destruct (Nat.ltb_spec (List.length (trackVertices track)) 2) as [Hfew | Hmany].
    + split; [| discriminate]. split; [| reflexivity].
      intros _. right. exists track. split; [reflexivity | lia].
    + split.
      * split; [discriminate |].
        intros [H | (track' & [= <-] & H)]; [discriminate | lia].
      * intros vertices [= <-]. exists track. repeat split; try assumption; lia.
Qed.

(** ** The map of positions *)

Lemma idEqb_eq (a b : option Z) : idEqb a b = true <-> a = b.
Proof.
  destruct a as [x |], b as [y |]; cbn; try (split; congruence).
  rewrite Z.eqb_eq. split; congruence.
Qed.

Lemma posMapOf_snoc (positions : list SatPosition) (pos : SatPosition) :
  posMapOf (positions ++ [pos]) = posMapSet (posMapOf positions) pos.
Proof. unfold posMapOf. rewrite fold_left_app. reflexivity. Qed.

Lemma posMapOf_lookup (positions : list SatPosition) (k : option Z) :
  posMapOf positions k = find (fun p => idEqb k (posId p)) (rev positions).
Proof.
  induction positions as [| pos rest IH] using rev_ind; [reflexivity |].
  rewrite posMapOf_snoc, rev_app_distr. cbn [rev app find]. unfold posMapSet.
  destruct (idEqb k (posId pos)); [reflexivity | exact IH].
Qed.

(** X20: after the [onmessage] handler has stored a batch, looking an id
    up gives the last position of the batch with that id; a position is
    found exactly under the ids the batch contains; and when the ids of
    the batch are pairwise distinct every position is found under its
    own id. *)
Theorem posMapOf_lookup_last :
  forall (newPositions : list SatPosition) (k : option Z),
    posMapOf newPositions k
    = find (fun p => idEqb k (posId p)) (rev newPositions)
    /\ (posMapOf newPositions k <> None
        <-> exists p, In p newPositions /\ posId p = k)
    /\ (NoDup (map posId newPositions) ->
        forall p, In p newPositions -> posMapOf newPositions (posId p) = Some p).
Proof.
  intros positions k. split; [apply posMapOf_lookup |]. split.
  - rewrite posMapOf_lookup. split.
    + destruct (find _ (rev positions)) as [p |] eqn:Hf; [| congruence].
      intros _. apply find_some in Hf as [Hin Heq].
      exists p. split; [now apply in_rev | symmetry; now apply idEqb_eq].
    + intros (p & Hin & <-) Hnone.
      apply in_rev in Hin.
      pose proof (find_none _ _ Hnone p Hin) as Hfalse. cbv beta in Hfalse.
      assert (Htrue : idEqb (posId p) (posId p) = true) by now apply idEqb_eq.
      congruence.
  - intros Hnd p Hin. rewrite posMapOf_lookup.
    destruct (find _ (rev positions)) as [q |] eqn:Hf.
    + apply find_some in Hf as [Hq Heq]. apply in_rev in Hq.
      apply idEqb_eq in Heq. f_equal.
      clear k. induction positions as [| a rest IH]; [destruct Hin |].
      cbn [map] in Hnd. inversion Hnd as [| ? ? Hnot Hnd']; subst.
      destruct Hin as [-> | Hin], Hq as [-> | Hq]; auto.
      * exfalso. apply Hnot. rewrite Heq. now apply in_map.
      * exfalso. apply Hnot. rewrite <- Heq. now apply in_map.
    + exfalso. apply in_rev in Hin.
      pose proof (find_none _ _ Hf p Hin) as Hfalse. cbv beta in Hfalse.
      assert (Htrue : idEqb (posId p) (posId p) = true) by now apply idEqb_eq.
      congruence.
Qed.
